(** * Viral-tweet relay: a shallow embedding of [scrape.py]

    The development follows the source file function by function:
    the MarkdownV2 sanitizer, the seen-set store ([sent_tweets.txt]),
    the media resolver, the Telegram delivery client and the scraping
    cycle.  Pure helpers are plain functions; code that talks to the
    network, the file system or the clock runs in a small state and
    exception monad over an explicit world. *)

From Stdlib Require Import Ascii String.
From stdpp Require Import base numbers list strings gmap pretty sorting.

Local Open Scope string_scope.
Local Open Scope list_scope.

(** ** Python strings

    A [str] is modelled by [string], read as the UTF-8 bytes of the text.
    The characters [replace], [startswith] and the reserved set test for
    are ASCII, and no byte of a multi-byte UTF-8 sequence is below 128,
    so these byte-wise operations agree with Python's on every text.
    [isspace] and [lower] are the ASCII parts of Python's functions.
    [isdigit] and [int] are Python's on [plain] text, which is ASCII and
    short; what the interpreter makes of other text (digits beyond
    ASCII, which [int] may refuse, and its limit on the length of a
    decimal literal) is not computed here but asked of the environment
    (see [key_of]). *)

Module Py.

(** [bool(s)] for a string: non-empty. *)
Definition truthy (s : string) : bool :=
  match s with
  | EmptyString => false
  | String _ _ => true
  end.

(** [text.replace(old, new)] for a one-character [old]: every occurrence,
    left to right. *)
Fixpoint replace (old : ascii) (new : string) (text : string) : string :=
  match text with
  | EmptyString => EmptyString
  | String c rest =>
      if Ascii.eqb c old then new +:+ replace old new rest
      else String c (replace old new rest)
  end.

(** [sep.join(parts)] *)
Fixpoint join (sep : string) (parts : list string) : string :=
  match parts with
  | [] => EmptyString
  | [p] => p
  | p :: ps => p +:+ sep +:+ join sep ps
  end.

(** [s.startswith(prefix)] *)
Definition startswith (prefix s : string) : bool := String.prefix prefix s.

(** ASCII white space as [str.isspace] sees it: TAB, LF, VT, FF, CR,
    FS, GS, RS, US and the blank. *)
Definition isspace (c : ascii) : bool :=
  let n := nat_of_ascii c in
  ((9 <=? n)%nat && (n <=? 13)%nat) || ((28 <=? n)%nat && (n <=? 32)%nat).

Fixpoint lstrip (s : string) : string :=
  match s with
  | EmptyString => EmptyString
  | String c rest => if isspace c then lstrip rest else s
  end.

(** Drops trailing white space: a character is kept when something
    that is kept follows it, or when it is itself no white space. *)
Fixpoint rstrip (s : string) : string :=
  match s with
  | EmptyString => EmptyString
  | String c rest =>
      match rstrip rest with
      | EmptyString => if isspace c then EmptyString else String c EmptyString
      | r => String c r
      end
  end.

(** [s.strip()] *)
Definition strip (s : string) : string := rstrip (lstrip s).

(** ASCII decimal digit. *)
Definition is_digit_char (c : ascii) : bool :=
  let n := nat_of_ascii c in (48 <=? n)%nat && (n <=? 57)%nat.

Fixpoint all_digits (s : string) : bool :=
  match s with
  | EmptyString => true
  | String c rest => is_digit_char c && all_digits rest
  end.

(** [s.isdigit()]: at least one character and all of them digits. *)
Definition isdigit (s : string) : bool := truthy s && all_digits s.

(** [int(s)] on a string of decimal digits, most significant first. *)
Fixpoint int_acc (acc : Z) (s : string) : Z :=
  match s with
  | EmptyString => acc
  | String c rest => int_acc (10 * acc + (Z.of_nat (nat_of_ascii c) - 48))%Z rest
  end.

Definition int (s : string) : Z := int_acc 0 s.

(** [s.isascii()] *)
Definition is_ascii_char (c : ascii) : bool := (nat_of_ascii c <? 128)%nat.

Fixpoint isascii (s : string) : bool :=
  match s with
  | EmptyString => true
  | String c rest => is_ascii_char c && isascii rest
  end.

(** Text on which [isdigit] and [int] above are Python's, whatever the
    interpreter: ASCII only, and no longer than the 640 digits that
    [int] converts under every setting of its digit limit. *)
Definition plain (s : string) : bool :=
  isascii s && (String.length s <=? 640)%nat.

(** [bool(x)] for an attribute that may be missing or [None]. *)
Definition truthy_opt (x : option string) : bool :=
  match x with
  | None => false
  | Some s => truthy s
  end.

(** The line feed. *)
Definition nl : string := String (ascii_of_nat 10) EmptyString.

(** [x in xs] for a list of strings. *)
Definition member (x : string) (xs : list string) : bool :=
  existsb (String.eqb x) xs.

(** [sorted(xs, key=key)]: ascending and stable.  Insertion from the right
    puts an element in front of the elements of equal key that followed
    it in [xs]. *)
Fixpoint insert_by {A} (key : A -> Z) (x : A) (l : list A) : list A :=
  match l with
  | [] => [x]
  | y :: l' =>
      if (key x <=? key y)%Z then x :: y :: l'
      else y :: insert_by key x l'
  end.

Definition sorted {A} (key : A -> Z) (xs : list A) : list A :=
  foldr (insert_by key) [] xs.

(** [len(xs)] as a Python integer. *)
Definition len {A} (xs : list A) : Z := Z.of_nat (length xs).

(** [xs[-n:]] for a positive [n]: from index [max(0, len(xs) - n)] on. *)
Definition last_n {A} (n : Z) (xs : list A) : list A :=
  drop (Z.to_nat (len xs - n)) xs.

(** [s.lower()] on ASCII letters. *)
Definition lower_char (c : ascii) : ascii :=
  let n := nat_of_ascii c in
  if (65 <=? n)%nat && (n <=? 90)%nat then ascii_of_nat (n + 32) else c.

Fixpoint lower (s : string) : string :=
  match s with
  | EmptyString => EmptyString
  | String c rest => String (lower_char c) (lower rest)
  end.

End Py.

(** ** Markup sanitizer *)

Definition backslash : ascii := "\"%char.

Definition special_chars : list ascii :=
  ["_"; "*"; "["; "]"; "("; ")"; "~"; "`"; ">"; "#"; "+"; "-"; "=";
   "|"; "{"; "}"; "."; "!"]%char.

(** [escape_markdown_v2(text)]; [None] is Python's [None].  The loop
    over [special_chars] is the left fold of [str.replace]. *)
Definition escape_markdown_v2 (text : option string) : string :=
  match text with
  | None => EmptyString
  | Some t =>
      if negb (Py.truthy t) then EmptyString
      else
        fold_left
          (fun text char => Py.replace char (String backslash (String char EmptyString)) text)
          special_chars t
  end.

(** [create_safe_url_link(url, display_text)] *)
Definition create_safe_url_link (url : option string) (display_text : option string) : string :=
  match url with
  | None => EmptyString
  | Some u =>
      if negb (Py.truthy u) then EmptyString
      else
        let display_text :=
          match display_text with
          | None => "Link"
          | Some d => if Py.truthy d then d else "Link"
          end in
        let safe_display_text := escape_markdown_v2 (Some display_text) in
        "[" +:+ safe_display_text +:+ "](" +:+ u +:+ ")"
  end.

(** ** Data model *)

(** An attribute of which the program calls a string method: it may be
    missing, be there with the value [None], or hold a string. *)
Inductive attribute :=
| Missing
| NoneValue
| Text (s : string).

(** A media descriptor as the program reads it: every attribute is
    fetched with [getattr(item, name, default)], so each may be missing.
    The addresses are only tested for truth and passed on, so for them
    [None] stands for a missing attribute and for the value [None]
    alike. *)
Record MediaItem := {
  mi_type : attribute;                   (* attribute [type] *)
  mi_url : option string;                (* attribute [url] *)
  mi_media_url_https : option string;    (* attribute [media_url_https] *)
  mi_media_url : option string;          (* attribute [media_url] *)
  mi_preview_image_url : option string   (* attribute [preview_image_url] *)
}.

(** [tweet.media]: nothing, a list of descriptors, or one object that is
    not a list. *)
Inductive TweetMedia :=
| MediaNone
| MediaList (items : list MediaItem)
| MediaObject (item : MediaItem).

Record User := { username : string; displayname : string }.

Record Tweet := {
  id : Z;
  user : User;
  likeCount : Z;
  retweetCount : Z;
  replyCount : Z;
  date : string;          (* [str(tweet.date)] *)
  rawContent : string;
  media : TweetMedia
}.

(** [str(n)] for an [int]. *)
Definition str (n : Z) : string := pretty n.

(** ** The world outside the interpreter *)

(** An [Exception] instance (anything [except Exception] catches).
    Interrupts and task cancellation arrive asynchronously and are not
    [Exception]s; they are outside this model. *)
Inductive exn := Exn (description : string).

(** Requests the program sends over the network. *)
Inductive request :=
| Head (url : string)
| SendPhoto (bot_token chat_id photo caption : string)
| SendVideo (bot_token chat_id video caption : string)
| SendMessage (bot_token chat_id text : string).

(** What [requests.post(...)], [raise_for_status()], [response.json()] and
    [response_json.get("ok")] amount to for one call: an exception of the
    [RequestException] family, any other [Exception], or a decoded body
    whose [ok] field is truthy or not. *)
Inductive post_reply :=
| RequestException
| OtherException (e : exn)
| Json (ok : bool).

(** What rewriting the whole file with [open(..., 'w')] can do: succeed,
    fail before the file is touched, or fail after the file was emptied
    and the first [k] characters of the new text have reached it (the
    text goes out in blocks, so [k] may fall inside a line). *)
Inductive rewrite_reply :=
| RewriteOk
| RewriteOpenFails
| RewriteFailsAfter (k : nat).

(** What appending a line with [open(..., 'a')] can do: succeed, fail
    before the file is touched (a missing file is then not created), or
    fail after the file was opened and the first [k] characters of the
    line, its line feed being the last of them, have reached it. *)
Inductive append_reply :=
| AppendOk
| AppendOpenFails
| AppendFailsAfter (k : nat).

(** Lines printed on standard output, one constructor per [print]. *)
Inductive log_line :=
| LogMediaValidationFailed (url : string)
| LogSendPhotoRejected | LogSendPhotoError
| LogSendVideoRejected | LogSendVideoError
| LogTelegramApiError | LogSendMessageError
| LogValidating (url : string)
| LogNotAccessible (url : string)
| LogSendingAsPhoto | LogSendingAsVideo
| LogMediaFailed
| LogLoaded (n : nat) | LogErrorReading | LogNoPreviousFile
| LogErrorSaving
| LogCleanedUp (n : nat) | LogErrorCleanup
| LogSearching
| LogSkippingDuplicate (tweet_id : Z)
| LogNewTweetFound (tweet_id : Z)
| LogProcessingMedia
| LogMedia (i : nat) (media_type : string) (valid : bool)
| LogSendingTweet (tweet_id : Z)
| LogSentOk | LogSendFailed
| LogWaiting
| LogNotConfigured
| LogCycleError (e : exn)
| LogCycleResults (found sent duplicates : nat).

(** Operations on [SENT_TWEETS_FILE]. *)
Inductive file_op :=
| FileRead
| FileAppend (line : string)
| FileRewrite (lines : list string).

(** Everything observable from outside, in the order it happens. *)
Inductive effect :=
| Net (r : request)
| Sleep (seconds : nat)
| File (op : file_op)
| Stdout (l : log_line).

(** The behaviour of the surroundings.  Replies are indexed by a clock
    that advances at every interaction, so that the same request may be
    answered differently at different times.  [set_iter] is the order in
    which the interpreter iterates over a [set] (see [iteration_order_ok]).
    [unicode_key] is what the interpreter makes of
    [int(x) if x.isdigit() else 0] for text that is not [Py.plain]: a
    number, or [None] when [int] raises [ValueError] (as it does for
    ["²"], which [isdigit] accepts).  The two credentials are the
    module-level settings the operator fills in. *)
Record environment := {
  TELEGRAM_BOT_TOKEN : string;
  TELEGRAM_CHAT_ID : string;
  head_reply : nat -> string -> option nat;   (* status, [None]: exception *)
  post_reply_at : nat -> request -> post_reply;
  read_fault : nat -> option nat;             (* reading raises after [k] lines *)
  append_reply_at : nat -> append_reply;
  rewrite_reply_at : nat -> rewrite_reply;
  set_iter : gset string -> list string;
  unicode_key : string -> option Z
}.

(** An iteration order enumerates exactly the elements of the set. *)
Definition iteration_order_ok (E : environment) : Prop :=
  forall s, set_iter E s ≡ₚ elements s.

(** The mutable part: the clock, the backing file and the trace of
    effects.  The file is [None] when it does not exist; otherwise it is
    the lines that end in a line feed, without their line feeds, and the
    text after the last line feed, empty when the file ends with a line
    feed or is empty. *)
Record world := {
  clock : nat;
  file : option (list string * string);
  trace : list effect
}.

(** The lines of a file as iterating over it yields them, without their
    line feeds: the text after the last line feed, if any, is the last
    of them. *)
Definition lines_of (f : list string * string) : list string :=
  if Py.truthy f.2 then f.1 ++ [f.2] else f.1.

(** The lines of the backing file, [None] when it does not exist. *)
Definition store (w : world) : option (list string) := lines_of <$> file w.

(** ** A state and exception monad

    [M S A] is a computation over a state [S] that returns an [A] or
    raises; the state reached survives a raise, as Python's heap and
    file system do. *)
Inductive result (A : Type) :=
| Ret (a : A)
| Raise (e : exn).
Arguments Ret {A} a.
Arguments Raise {A} e.

Definition M (S A : Type) : Type := S -> S * result A.

Definition pure {S A} (a : A) : M S A := fun s => (s, Ret a).

Definition bind {S A B} (m : M S A) (k : A -> M S B) : M S B := fun s =>
  match m s with
  | (s', Ret a) => k a s'
  | (s', Raise e) => (s', Raise e)
  end.

Declare Scope prog_scope.
Delimit Scope prog_scope with prog.
Bind Scope prog_scope with M.

Notation "'let*' x ':=' m 'in' k" := (bind m (fun x => k))
  (at level 10, x name, m at level 100, k at level 200) : prog_scope.
Notation "m '>>' k" := (bind m (fun _ => k))
  (at level 100, k at level 200, right associativity) : prog_scope.

Local Open Scope prog_scope.

Definition raise {S A} (e : exn) : M S A := fun s => (s, Raise e).

(** [try: body except Exception as e: handler(e)] *)
Definition try_except {S A} (body : M S A) (handler : exn -> M S A) : M S A :=
  fun s =>
    match body s with
    | (s', Ret a) => (s', Ret a)
    | (s', Raise e) => handler e s'
    end.

Definition emit (e : effect) (w : world) : world :=
  {| clock := clock w; file := file w; trace := (trace w ++ [e])%list |}.

Definition tick (w : world) : world :=
  {| clock := S (clock w); file := file w; trace := trace w |}.

Definition set_file (f : option (list string * string)) (w : world) : world :=
  {| clock := clock w; file := f; trace := trace w |}.

(** The file to write to when it is opened for appending: a missing
    file is created empty. *)
Definition opened (w : world) : list string * string :=
  default ([], EmptyString) (file w).

(** [f.write(line + "\n")] at the end of a file: the line continues the
    text after the last line feed and ends it. *)
Definition write_line (line : string) (f : list string * string) : list string * string :=
  (f.1 ++ [f.2 +:+ line], EmptyString).

(** The first [k] characters of the text [lines] make, each line
    followed by its line feed, at the end of a file. *)
Fixpoint write_prefix (k : nat) (lines : list string) (f : list string * string)
    : list string * string :=
  match lines with
  | [] => f
  | line :: rest =>
      if (k <=? String.length line)%nat then (f.1, f.2 +:+ String.substring 0 k line)
      else write_prefix (k - S (String.length line)) rest (write_line line f)
  end.

Definition print (l : log_line) : M world unit := fun w => (emit (Stdout l) w, Ret tt).

Definition sleep (seconds : nat) : M world unit := fun w => (emit (Sleep seconds) w, Ret tt).

Definition get {S} : M S S := fun s => (s, Ret s).

Definition modify {S} (f : S -> S) : M S unit := fun s => (f s, Ret tt).

(** The replies come from the environment; each request is recorded and
    advances the clock. *)
Definition http_head (E : environment) (url : string) : M world (option nat) :=
  fun w => (tick (emit (Net (Head url)) w), Ret (head_reply E (clock w) url)).

Definition http_post (E : environment) (r : request) : M world post_reply :=
  fun w => (tick (emit (Net r) w), Ret (post_reply_at E (clock w) r)).

(** ** Delivery client *)

Section Delivery.

Variable E : environment.

(** [validate_media_url(url)] *)
Definition validate_media_url (url : string) : M world bool :=
  let* reply := http_head E url in
  match reply with
  | Some status => pure (status =? 200)%nat
  | None => print (LogMediaValidationFailed url) >> pure false
  end.

(** [send_telegram_photo(chat_id, photo_url, caption, bot_token)]: the
    handler is [except Exception], so nothing escapes. *)
Definition send_telegram_photo (chat_id photo_url caption bot_token : string) : M world bool :=
  let* reply := http_post E (SendPhoto bot_token chat_id photo_url caption) in
  match reply with
  | Json true => pure true
  | Json false => print LogSendPhotoRejected >> pure false
  | RequestException | OtherException _ => print LogSendPhotoError >> pure false
  end.

(** [send_telegram_video(chat_id, video_url, caption, bot_token)] *)
Definition send_telegram_video (chat_id video_url caption bot_token : string) : M world bool :=
  let* reply := http_post E (SendVideo bot_token chat_id video_url caption) in
  match reply with
  | Json true => pure true
  | Json false => print LogSendVideoRejected >> pure false
  | RequestException | OtherException _ => print LogSendVideoError >> pure false
  end.

(** [send_telegram_message(chat_id, message, bot_token)]: the handler is
    [except requests.exceptions.RequestException], any other exception
    leaves the function. *)
Definition send_telegram_message (chat_id message bot_token : string) : M world bool :=
  let* reply := http_post E (SendMessage bot_token chat_id message) in
  match reply with
  | Json true => pure true
  | Json false => print LogTelegramApiError >> pure false
  | RequestException => print LogSendMessageError >> pure false
  | OtherException e => raise e
  end.

(** [getattr(media_item, 'type', 'unknown').lower()]: the value [None]
    has no method [lower], and the call raises [AttributeError]. *)
Definition type_lower (a : attribute) : result string :=
  match a with
  | Missing => Ret (Py.lower "unknown")
  | NoneValue => Raise (Exn "'NoneType' object has no attribute 'lower'")
  | Text s => Ret (Py.lower s)
  end.

(** [f"{getattr(media_item, 'type', 'unknown')}"] *)
Definition type_shown (a : attribute) : string :=
  match a with
  | Missing => "unknown"
  | NoneValue => "None"
  | Text s => s
  end.

(** The first loop of [send_telegram_message_with_media]: [true] stands
    for the [return True] inside the loop, [false] for the loop running
    to its end.  The type is lower-cased before the address is looked
    at, outside any [try]. *)
Fixpoint try_media_items (chat_id message bot_token : string)
    (media_items : list MediaItem) : M world bool :=
  match media_items with
  | [] => pure false
  | media_item :: rest =>
      match type_lower (mi_type media_item) with
      | Raise e => raise e
      | Ret media_type =>
          let media_url := mi_url media_item in
          if negb (Py.truthy_opt media_url) then
            try_media_items chat_id message bot_token rest
          else
            let media_url := default EmptyString media_url in
            print (LogValidating media_url) >>
            let* accessible := validate_media_url media_url in
            if negb accessible then
              print (LogNotAccessible media_url) >>
              try_media_items chat_id message bot_token rest
            else if Py.member media_type ["photo"; "image"] then
              print LogSendingAsPhoto >>
              let* success := send_telegram_photo chat_id media_url message bot_token in
              if success then pure true
              else try_media_items chat_id message bot_token rest
            else if Py.member media_type ["video"; "animated_gif"] then
              print LogSendingAsVideo >>
              let* success := send_telegram_video chat_id media_url message bot_token in
              if success then pure true
              else try_media_items chat_id message bot_token rest
            else try_media_items chat_id message bot_token rest
      end
  end.

(** The second loop: one line per item whose [url] attribute is set. *)
Fixpoint media_links (media_items : list MediaItem) : list string :=
  match media_items with
  | [] => []
  | media_item :: rest =>
      let media_type := type_shown (mi_type media_item) in
      let media_url := mi_url media_item in
      if Py.truthy_opt media_url then
        ("  \- " +:+ create_safe_url_link media_url (Some media_type)) :: media_links rest
      else media_links rest
  end.

(** The text sent when no media message went through. *)
Definition fallback_message (message : string) (media_items : list MediaItem) : string :=
  match media_links media_items with
  | [] => message
  | links => message +:+ Py.nl +:+ Py.nl +:+ "*Media*:" +:+ Py.nl +:+ Py.join Py.nl links
  end.

(** [send_telegram_message_with_media(chat_id, message, bot_token, media_items)];
    [None] is the default argument. *)
Definition send_telegram_message_with_media (chat_id message bot_token : string)
    (media_items : option (list MediaItem)) : M world bool :=
  match media_items with
  | None | Some [] => send_telegram_message chat_id message bot_token
  | Some media_items =>
      let* sent := try_media_items chat_id message bot_token media_items in
      if sent then pure true
      else
        print LogMediaFailed >>
        send_telegram_message chat_id (fallback_message message media_items) bot_token
  end.

(** ** Media resolver *)

Definition possible_urls (media_item : MediaItem) : list string :=
  omap (fun url => if Py.truthy_opt url then url else None)
    [mi_url media_item; mi_media_url_https media_item;
     mi_media_url media_item; mi_preview_image_url media_item].

Fixpoint first_working_url (urls : list string) : M world (option string) :=
  match urls with
  | [] => pure None
  | url :: rest =>
      let* ok := validate_media_url url in
      if ok then pure (Some url) else first_working_url rest
  end.

(** [get_best_media_url(media_item)] *)
Definition get_best_media_url (media_item : MediaItem) : M world (option string) :=
  first_working_url (possible_urls media_item).

End Delivery.

(** ** Seen-set store *)

Section Store.

Variable E : environment.

(** The body of the reading loop for one line. *)
Definition add_line (sent_tweets : gset string) (line : string) : gset string :=
  let tweet_id := Py.strip line in
  if Py.truthy tweet_id then sent_tweets ∪ {[tweet_id]} else sent_tweets.

(** [load_sent_tweets()].  The lines reach the set one by one, so a read
    that raises after [k] lines leaves those [k] in it. *)
Definition load_sent_tweets : M world (gset string) := fun w =>
  match store w with
  | Some lines =>
      let w1 := tick (emit (File FileRead) w) in
      match read_fault E (clock w) with
      | None =>
          let sent_tweets := fold_left add_line lines ∅ in
          (emit (Stdout (LogLoaded (size sent_tweets))) w1, Ret sent_tweets)
      | Some k =>
          let sent_tweets := fold_left add_line (take k lines) ∅ in
          (emit (Stdout LogErrorReading) w1, Ret sent_tweets)
      end
  | None => (emit (Stdout LogNoPreviousFile) w, Ret ∅)
  end.

(** [save_sent_tweet(tweet_id)]: the text written is the identifier and
    a line feed, at the end of the file as it is, so that it continues a
    last line that has no line feed; opening for append creates a
    missing file; a failure is printed and swallowed, whatever part of
    the text has reached the file by then. *)
Definition save_sent_tweet (tweet_id : string) : M world unit := fun w =>
  let w1 := tick (emit (File (FileAppend tweet_id)) w) in
  match append_reply_at E (clock w) with
  | AppendOk => (set_file (Some (write_line tweet_id (opened w))) w1, Ret tt)
  | AppendOpenFails => (emit (Stdout LogErrorSaving) w1, Ret tt)
  | AppendFailsAfter k =>
      (emit (Stdout LogErrorSaving) (set_file (Some (write_prefix k [tweet_id] (opened w))) w1),
       Ret tt)
  end.

(** [int(x) if x.isdigit() else 0] on plain text. *)
Definition sort_key (x : string) : Z :=
  if Py.isdigit x then Py.int x else 0%Z.

(** The sort key of [cleanup_old_sent_tweets],
    [lambda x: int(x) if x.isdigit() else 0], as the interpreter
    evaluates it: [None] when [int] raises [ValueError]. *)
Definition key_of (x : string) : option Z :=
  if Py.plain x then Some (sort_key x) else unicode_key E x.

(** The key of an identifier for which [key_of] gives one. *)
Definition key_value (x : string) : Z := default 0%Z (key_of x).

(** [cleanup_old_sent_tweets(sent_tweets)]; the body does not use
    [days_to_keep].  [sorted] computes the key of every element before
    it compares any, so a key that raises ends the [try] block before
    the file is opened; when all keys are there the list is sorted by
    them.  Everything is inside [try], so a key that raises and a
    failing rewrite both end in [return sent_tweets]. *)
Definition cleanup_old_sent_tweets (sent_tweets : gset string) : M world (gset string) := fun w =>
  if (10000 <? Z.of_nat (size sent_tweets))%Z then
    match mapM key_of (set_iter E sent_tweets) with
    | None => (emit (Stdout LogErrorCleanup) w, Ret sent_tweets)
    | Some _ =>
        let sorted_tweets := Py.sorted key_value (set_iter E sent_tweets) in
        let sent_tweets_to_keep : gset string := list_to_set (Py.last_n 8000%Z sorted_tweets) in
        let lines := set_iter E sent_tweets_to_keep in
        let w1 := tick (emit (File (FileRewrite lines)) w) in
        match rewrite_reply_at E (clock w) with
        | RewriteOk =>
            (emit (Stdout (LogCleanedUp (size sent_tweets_to_keep)))
               (set_file (Some (lines, EmptyString)) w1),
             Ret sent_tweets_to_keep)
        | RewriteOpenFails => (emit (Stdout LogErrorCleanup) w1, Ret sent_tweets)
        | RewriteFailsAfter k =>
            (emit (Stdout LogErrorCleanup)
               (set_file (Some (write_prefix k lines ([], EmptyString))) w1),
             Ret sent_tweets)
        end
    end
  else (w, Ret sent_tweets).

End Store.

(** ** Cycle engine *)

(** What one run of [perform_scraping_cycle] can change: the world, the
    [sent_tweets] set it shares with its caller, and its three counters. *)
Record cycle_state := {
  the_world : world;
  sent_tweets : gset string;
  tweet_count : nat;
  new_tweets_sent : nat;
  duplicates_skipped : nat
}.

(** The posts [api.search(query, limit=50)] yields, and the exception
    that ends the iteration early, if any. *)
Record search_stream := {
  yielded : list Tweet;
  stream_fault : option exn
}.

Definition with_world (st : cycle_state) (w : world) : cycle_state :=
  {| the_world := w; sent_tweets := sent_tweets st; tweet_count := tweet_count st;
     new_tweets_sent := new_tweets_sent st; duplicates_skipped := duplicates_skipped st |}.

(** Runs a computation on the world inside the cycle. *)
Definition in_world {A} (m : M world A) : M cycle_state A := fun st =>
  let '(w, r) := m (the_world st) in (with_world st w, r).

Definition incr_tweet_count (st : cycle_state) : cycle_state :=
  {| the_world := the_world st; sent_tweets := sent_tweets st;
     tweet_count := tweet_count st + 1;
     new_tweets_sent := new_tweets_sent st; duplicates_skipped := duplicates_skipped st |}.

Definition incr_duplicates_skipped (st : cycle_state) : cycle_state :=
  {| the_world := the_world st; sent_tweets := sent_tweets st;
     tweet_count := tweet_count st; new_tweets_sent := new_tweets_sent st;
     duplicates_skipped := duplicates_skipped st + 1 |}.

Definition incr_new_tweets_sent (st : cycle_state) : cycle_state :=
  {| the_world := the_world st; sent_tweets := sent_tweets st;
     tweet_count := tweet_count st; new_tweets_sent := new_tweets_sent st + 1;
     duplicates_skipped := duplicates_skipped st |}.

(** [sent_tweets.add(tweet_id_str)] *)
Definition sent_tweets_add (tweet_id_str : string) (st : cycle_state) : cycle_state :=
  {| the_world := the_world st; sent_tweets := sent_tweets st ∪ {[tweet_id_str]};
     tweet_count := tweet_count st; new_tweets_sent := new_tweets_sent st;
     duplicates_skipped := duplicates_skipped st |}.

(** [tweet_count = 0], [new_tweets_sent = 0], [duplicates_skipped = 0] *)
Definition reset_counters (st : cycle_state) : cycle_state :=
  {| the_world := the_world st; sent_tweets := sent_tweets st;
     tweet_count := 0; new_tweets_sent := 0; duplicates_skipped := 0 |}.

(** The state a call [perform_scraping_cycle(api, sent_tweets)] starts
    in; the counters get their values inside the function. *)
Definition enter_cycle (sent : gset string) (w : world) : cycle_state :=
  {| the_world := w; sent_tweets := sent;
     tweet_count := 0; new_tweets_sent := 0; duplicates_skipped := 0 |}.

(** The text of the message for a tweet. *)
Definition tweet_content_display (tweet : Tweet) : string :=
  if Py.truthy (rawContent tweet) then
    if Py.startswith "http://" (Py.strip (rawContent tweet))
       || Py.startswith "https://" (Py.strip (rawContent tweet))
    then create_safe_url_link (Some (Py.strip (rawContent tweet))) (Some "Tweet Link")
    else escape_markdown_v2 (Some (rawContent tweet))
  else "*No text content*".

Definition tweet_url (tweet : Tweet) : string :=
  "https://twitter.com/" +:+ username (user tweet) +:+ "/status/" +:+ str (id tweet).

Definition telegram_message (tweet : Tweet) : string :=
  "*VIRAL TWEET ALERT*" +:+ Py.nl +:+ Py.nl
  +:+ "*Author*: @" +:+ escape_markdown_v2 (Some (username (user tweet)))
  +:+ " \(" +:+ escape_markdown_v2 (Some (displayname (user tweet))) +:+ "\)" +:+ Py.nl
  +:+ "*Tweet ID*: `" +:+ escape_markdown_v2 (Some (str (id tweet))) +:+ "`" +:+ Py.nl
  +:+ "*Likes*: `" +:+ escape_markdown_v2 (Some (str (likeCount tweet))) +:+ "`" +:+ Py.nl
  +:+ "*Retweets*: `" +:+ escape_markdown_v2 (Some (str (retweetCount tweet))) +:+ "`" +:+ Py.nl
  +:+ "*Replies*: `" +:+ escape_markdown_v2 (Some (str (replyCount tweet))) +:+ "`" +:+ Py.nl
  +:+ "*Date*: `" +:+ escape_markdown_v2 (Some (date tweet)) +:+ "`" +:+ Py.nl +:+ Py.nl
  +:+ "*Content*:" +:+ Py.nl
  +:+ tweet_content_display tweet +:+ Py.nl +:+ Py.nl
  +:+ create_safe_url_link (Some (tweet_url tweet)) (Some "View on X").

(** [media_items] as the cycle computes it from [tweet.media]. *)
Definition media_items_of (tweet : Tweet) : option (list MediaItem) :=
  match media tweet with
  | MediaNone | MediaList [] => None
  | MediaList items => Some items
  | MediaObject item => Some [item]
  end.

Section Cycle.

Variable E : environment.

(** The loop under "Processing media...": the best URL of every item is
    looked up and only reported. *)
Fixpoint report_media (i : nat) (media_items : list MediaItem) : M world unit :=
  match media_items with
  | [] => pure tt
  | media_item :: rest =>
      let media_type := type_shown (mi_type media_item) in
      let* media_url := get_best_media_url E media_item in
      print (LogMedia (i + 1) media_type (Py.truthy_opt media_url)) >>
      report_media (i + 1) rest
  end.

Definition process_media (tweet : Tweet) : M world (option (list MediaItem)) :=
  match media_items_of tweet with
  | None => pure None
  | Some media_items =>
      print LogProcessingMedia >>
      report_media 0 media_items >>
      pure (Some media_items)
  end.

(** The body of the [async for] loop for one tweet. *)
Definition process_tweet (tweet : Tweet) : M cycle_state unit :=
  modify incr_tweet_count >>
  let tweet_id_str := str (id tweet) in
  let* st := get in
  if decide (tweet_id_str ∈ sent_tweets st) then
    modify incr_duplicates_skipped >>
    in_world (print (LogSkippingDuplicate (id tweet)))
  else
    in_world (print (LogNewTweetFound (id tweet))) >>
    let* media_items := in_world (process_media tweet) in
    if Py.truthy (TELEGRAM_BOT_TOKEN E) && Py.truthy (TELEGRAM_CHAT_ID E) then
      in_world (print (LogSendingTweet (id tweet))) >>
      let* success :=
        in_world (send_telegram_message_with_media E (TELEGRAM_CHAT_ID E)
                    (telegram_message tweet) (TELEGRAM_BOT_TOKEN E) media_items) in
      (if success then
         in_world (print LogSentOk) >>
         modify (sent_tweets_add tweet_id_str) >>
         in_world (save_sent_tweet E tweet_id_str) >>
         modify incr_new_tweets_sent
       else in_world (print LogSendFailed)) >>
      in_world (print LogWaiting) >>
      in_world (sleep 10)
    else in_world (print LogNotConfigured).

Fixpoint for_each_tweet (tweets : list Tweet) : M cycle_state unit :=
  match tweets with
  | [] => pure tt
  | tweet :: rest => process_tweet tweet >> for_each_tweet rest
  end.

(** [async for tweet in api.search(query, limit=50): ...] *)
Definition iterate (s : search_stream) : M cycle_state unit :=
  for_each_tweet (yielded s) >>
  match stream_fault s with
  | Some e => raise e
  | None => pure tt
  end.

(** [perform_scraping_cycle(api, sent_tweets)]; the query it builds is
    only printed and handed to [api.search], whose answer is [s]. *)
Definition perform_scraping_cycle (s : search_stream) : M cycle_state nat :=
  in_world (print LogSearching) >>
  modify reset_counters >>
  try_except (iterate s) (fun e => in_world (print (LogCycleError e))) >>
  let* st := get in
  in_world (print (LogCycleResults (tweet_count st) (new_tweets_sent st) (duplicates_skipped st))) >>
  pure (new_tweets_sent st).

End Cycle.

(** ** Start of the monitoring *)

(** The set the monitoring starts with, as [scrape_viral_tweets] builds
    it before anything else touches it:
    [sent_tweets = load_sent_tweets()] and then
    [sent_tweets = cleanup_old_sent_tweets(sent_tweets)]. *)
Definition initial_sent_tweets (E : environment) : M world (gset string) :=
  let* sent_tweets := load_sent_tweets E in
  cleanup_old_sent_tweets E sent_tweets.

(** ** Vocabulary of the statements *)

(** What the sanitizer makes of one character. *)
Definition escaped_char (reserved : list ascii) (c : ascii) : list ascii :=
  if bool_decide (c ∈ reserved) then [backslash; c] else [c].

(** The characters of a string, in order. *)
Definition chars (s : string) : list ascii := list_ascii_of_string s.

(** ** Sample surroundings *)

(** The settings of the source file, a network that accepts everything,
    a file system that never fails, and stdpp's enumeration as iteration
    order. *)
Definition friendly : environment := {|
  TELEGRAM_BOT_TOKEN := "YOUR_BOT_TOKEN_HERE";
  TELEGRAM_CHAT_ID := "YOUR_CHAT_ID_HERE";
  head_reply := fun _ _ => Some 200;
  post_reply_at := fun _ _ => Json true;
  read_fault := fun _ => None;
  append_reply_at := fun _ => AppendOk;
  rewrite_reply_at := fun _ => RewriteOk;
  set_iter := elements;
  unicode_key := fun _ => Some 0%Z
|}.

(** A world at the start of a run: no file yet, nothing has happened. *)
Definition fresh_world : world := {| clock := 0; file := None; trace := [] |}.

(** A world whose file holds [lines], each with its line feed. *)
Definition world_with_store (lines : list string) : world :=
  {| clock := 0; file := Some (lines, EmptyString); trace := [] |}.

(** A world whose file holds [lines], each with its line feed, and then
    [rest] without one. *)
Definition world_with_open_store (lines : list string) (rest : string) : world :=
  {| clock := 0; file := Some (lines, rest); trace := [] |}.

(** A store of 10001 identifiers: the numeric ["0"] and ten thousand
    that are not numeric. *)
Definition tie_tail : list string :=
  (fun n : nat => "t" +:+ pretty n) <$> seq 0 (N.to_nat 10000).

Definition tie_ids : list string := "0" :: tie_tail.

Definition tie_set : gset string := list_to_set tie_ids.

(** An iteration order that goes through [tie_set] in the order of
    [tie_ids]. *)
Definition tie_iter (s : gset string) : list string :=
  if decide (s = tie_set) then tie_ids else elements s.

Definition tie_environment (reply : rewrite_reply) : environment := {|
  TELEGRAM_BOT_TOKEN := "YOUR_BOT_TOKEN_HERE";
  TELEGRAM_CHAT_ID := "YOUR_CHAT_ID_HERE";
  head_reply := fun _ _ => Some 200;
  post_reply_at := fun _ _ => Json true;
  read_fault := fun _ => None;
  append_reply_at := fun _ => AppendOk;
  rewrite_reply_at := fun _ => reply;
  set_iter := tie_iter;
  unicode_key := fun _ => Some 0%Z
|}.

(** A set of 10002 identifiers: those of [tie_set] and ["²"]. *)
Definition superscript_set : gset string := tie_set ∪ {["²"]}.

(** An interpreter as it is on ["²"]: [isdigit] accepts it and [int]
    raises [ValueError]. *)
Definition refuses_superscript : environment := {|
  TELEGRAM_BOT_TOKEN := "YOUR_BOT_TOKEN_HERE";
  TELEGRAM_CHAT_ID := "YOUR_CHAT_ID_HERE";
  head_reply := fun _ _ => Some 200;
  post_reply_at := fun _ _ => Json true;
  read_fault := fun _ => None;
  append_reply_at := fun _ => AppendOk;
  rewrite_reply_at := fun _ => RewriteOk;
  set_iter := elements;
  unicode_key := fun x => if String.eqb x "²" then None else Some 0%Z
|}.

(** A file system whose reads raise after [k] lines. *)
Definition faulty_read (k : nat) : environment := {|
  TELEGRAM_BOT_TOKEN := "YOUR_BOT_TOKEN_HERE";
  TELEGRAM_CHAT_ID := "YOUR_CHAT_ID_HERE";
  head_reply := fun _ _ => Some 200;
  post_reply_at := fun _ _ => Json true;
  read_fault := fun _ => Some k;
  append_reply_at := fun _ => AppendOk;
  rewrite_reply_at := fun _ => RewriteOk;
  set_iter := elements;
  unicode_key := fun _ => Some 0%Z
|}.

(** The set the reading loop builds from the lines it gets. *)
Definition loaded_ids (lines : list string) : gset string :=
  list_to_set (filter (fun tweet_id => tweet_id <> EmptyString) (Py.strip <$> lines)).

(** The messages handed to the transport, probes left out. *)
Definition sent_message (e : effect) : option request :=
  match e with
  | Net (Head _) => None
  | Net r => Some r
  | _ => None
  end.

Definition sent_messages (tr : list effect) : list request := omap sent_message tr.

(** The lines the program tried to append to the file. *)
Definition appended_line (e : effect) : option string :=
  match e with
  | File (FileAppend line) => Some line
  | _ => None
  end.

Definition appended (tr : list effect) : list string := omap appended_line tr.

(** The pauses taken. *)
Definition pause (e : effect) : option nat :=
  match e with
  | Sleep seconds => Some seconds
  | _ => None
  end.

Definition pauses (tr : list effect) : list nat := omap pause tr.

(** Effects that touch neither the file nor the clock of the pauses. *)
Definition net_or_log (e : effect) : Prop :=
  match e with
  | Net _ | Stdout _ => True
  | _ => False
  end.

(** [w'] continues [w] by network traffic and printing only. *)
Definition net_only (w w' : world) : Prop :=
  file w' = file w /\ exists l, trace w' = trace w ++ l /\ Forall net_or_log l.


(** Both credentials are set. *)
Definition configured (E : environment) : Prop :=
  Py.truthy (TELEGRAM_BOT_TOKEN E) && Py.truthy (TELEGRAM_CHAT_ID E) = true.

(** The world in which the delivery call for [tweet] starts when the
    tweet is examined in world [w]: after the announcement, the media
    report and the "Sending" line. *)
Definition before_delivery (E : environment) (tweet : Tweet) (w : world) : world :=
  ((print (LogNewTweetFound (id tweet)) >>
    process_media E tweet >>
    print (LogSendingTweet (id tweet))) w).1.

(** The delivery call for [tweet] examined in world [w]. *)
Definition delivery (E : environment) (tweet : Tweet) (w : world) : world * result bool :=
  send_telegram_message_with_media E (TELEGRAM_CHAT_ID E) (telegram_message tweet)
    (TELEGRAM_BOT_TOKEN E) (media_items_of tweet) (before_delivery E tweet w).

(** A file system that refuses every append. *)
Definition append_refused : environment := {|
  TELEGRAM_BOT_TOKEN := "YOUR_BOT_TOKEN_HERE";
  TELEGRAM_CHAT_ID := "YOUR_CHAT_ID_HERE";
  head_reply := fun _ _ => Some 200;
  post_reply_at := fun _ _ => Json true;
  read_fault := fun _ => None;
  append_reply_at := fun _ => AppendOpenFails;
  rewrite_reply_at := fun _ => RewriteOk;
  set_iter := elements;
  unicode_key := fun _ => Some 0%Z
|}.


(** A network on which only [good_url] answers a probe with 200. *)
Definition only_reachable (good_url : string) : environment := {|
  TELEGRAM_BOT_TOKEN := "YOUR_BOT_TOKEN_HERE";
  TELEGRAM_CHAT_ID := "YOUR_CHAT_ID_HERE";
  head_reply := fun _ url => if String.eqb url good_url then Some 200 else Some 404;
  post_reply_at := fun _ _ => Json true;
  read_fault := fun _ => None;
  append_reply_at := fun _ => AppendOk;
  rewrite_reply_at := fun _ => RewriteOk;
  set_iter := elements;
  unicode_key := fun _ => Some 0%Z
|}.

Definition sample_user : User := {| username := "some_one"; displayname := "Some One" |}.

Definition text_tweet (n : Z) : Tweet := {|
  id := n; user := sample_user; likeCount := 5001; retweetCount := 12; replyCount := 3;
  date := "2024-06-02 10:00:00+00:00"; rawContent := "Hello."; media := MediaNone
|}.

Definition photo_item (url : string) : MediaItem := {|
  mi_type := Text "photo"; mi_url := Some url; mi_media_url_https := None;
  mi_media_url := None; mi_preview_image_url := None
|}.

(** A photo whose address sits in [media_url_https] only. *)
Definition https_only_photo : MediaItem := {|
  mi_type := Text "photo"; mi_url := None;
  mi_media_url_https := Some "https://pbs.twimg.com/media/a.jpg";
  mi_media_url := None; mi_preview_image_url := None
|}.

(** [w'] continues [w] by network traffic and printing, the messages
    handed to the transport on the way being [msgs]. *)
Definition advance (w w' : world) (msgs : list request) : Prop :=
  net_only w w' /\ sent_messages (trace w') = sent_messages (trace w) ++ msgs.

(** The reply to a probe counts as success exactly for status 200. *)
Definition probe_ok (reply : option nat) : bool :=
  match reply with
  | Some status => (status =? 200)%nat
  | None => false
  end.

(** A reply that a photo or video send takes as success. *)
Definition post_ok (reply : post_reply) : bool :=
  match reply with
  | Json ok => ok
  | _ => false
  end.

(** The outcome of the text send for a reply of the transport. *)
Definition text_outcome (reply : post_reply) : result bool :=
  match reply with
  | Json ok => Ret ok
  | RequestException => Ret false
  | OtherException e => Raise e
  end.





(** An item with an address and no [type] attribute. *)
Definition untyped_item (url : string) : MediaItem := {|
  mi_type := Missing; mi_url := Some url; mi_media_url_https := None;
  mi_media_url := None; mi_preview_image_url := None
|}.

(** An item with an address whose [type] attribute is there with the
    value [None]. *)
Definition none_typed_item (url : string) : MediaItem := {|
  mi_type := NoneValue; mi_url := Some url; mi_media_url_https := None;
  mi_media_url := None; mi_preview_image_url := None
|}.

(** The delivery call for [tweet] is made between [w] and [w']: the
    line printed right before the call is among what was added to the
    trace. *)
Definition attempted (tweet : Tweet) (w w' : world) : Prop :=
  exists l, trace w' = trace w ++ l /\ Stdout (LogSendingTweet (id tweet)) ∈ l.

(** What the media report of the cycle does: probes and its own
    lines. *)
Definition report_effect (e : effect) : Prop :=
  match e with
  | Net (Head _) => True
  | Stdout (LogMediaValidationFailed _) | Stdout LogProcessingMedia
  | Stdout (LogMedia _ _ _) => True
  | _ => False
  end.

(** The world after [save_sent_tweet]. *)
Definition saved (E : environment) (tweet_id : string) (w : world) : world :=
  (save_sent_tweet E tweet_id w).1.

(** The state in which the loop of a cycle starts. *)
Definition searching (st : cycle_state) : cycle_state :=
  reset_counters (with_world st (emit (Stdout LogSearching) (the_world st))).

(** The cycle in terms of its loop: the exception to report, if any, is
    the one the loop raised or else the one the stream ended with. *)
Definition cycle_outcome (E : environment) (s : search_stream) (st : cycle_state)
    : cycle_state * result nat :=
  let loop := for_each_tweet E (yielded s) (searching st) in
  let failure :=
    match loop.2 with
    | Raise e => Some e
    | Ret _ => stream_fault s
    end in
  let w2 := the_world loop.1 in
  let w3 :=
    match failure with
    | Some e => emit (Stdout (LogCycleError e)) w2
    | None => w2
    end in
  (with_world loop.1
     (emit (Stdout (LogCycleResults (tweet_count loop.1) (new_tweets_sent loop.1)
                      (duplicates_skipped loop.1))) w3),
   Ret (new_tweets_sent loop.1)).

(** The order [sorted] establishes. *)
Definition key_le {A} (key : A -> Z) (x y : A) : Prop := (key x <= key y)%Z.

(** Settles [net_only w w'] when [w'] is [w] with effects added. *)
Ltac net_only_tac :=
  split; [done|]; eexists; split;
  [simpl; rewrite <- ?(assoc_L (++)); reflexivity | by repeat constructor].

(** ** Vocabulary of the further properties *)

(** An identifier as the store keeps it: not empty and with no white
    space around it. *)
Definition clean_id (x : string) : Prop :=
  Py.truthy x = true /\ Py.strip x = x.

(** The lines of the file, none when it does not exist. *)
Definition file_lines (w : world) : list string := default [] (store w).

(** What a load that goes through would return in world [w]. *)
Definition disk_ids (w : world) : gset string := loaded_ids (file_lines w).

(** The file after one append of [line], by the reply of the
    surroundings: as [save_sent_tweet] leaves it. *)
Definition after_append (reply : append_reply) (line : string)
    (f : option (list string * string)) : option (list string * string) :=
  match reply with
  | AppendOk => Some (write_line line (default ([], EmptyString) f))
  | AppendOpenFails => f
  | AppendFailsAfter k => Some (write_prefix k [line] (default ([], EmptyString) f))
  end.

(** The file after several appends, one after the other. *)
Fixpoint after_appends (writes : list (append_reply * string))
    (f : option (list string * string)) : option (list string * string) :=
  match writes with
  | [] => f
  | (reply, line) :: rest => after_appends rest (after_append reply line f)
  end.

(** The text of the file, character by character: every complete line
    with its line feed, then what follows the last line feed.  A file
    that does not exist has no text. *)
Definition file_text (f : option (list string * string)) : string :=
  match f with
  | None => EmptyString
  | Some (lines, rest) => foldr (fun line acc => line +:+ Py.nl +:+ acc) rest lines
  end.

(** The characters one append puts at the end of the file: the line
    and its line feed when it goes through, nothing when the file
    cannot be opened, the first [k] characters of the line (or all of
    it and the line feed, when [k] is larger) when the write breaks
    off. *)
Definition written (reply : append_reply) (line : string) : string :=
  match reply with
  | AppendOk => line +:+ Py.nl
  | AppendOpenFails => EmptyString
  | AppendFailsAfter k =>
      if (k <=? String.length line)%nat then String.substring 0 k line else line +:+ Py.nl
  end.

(** The characters several appends put at the end of the file. *)
Definition added_text (writes : list (append_reply * string)) : string :=
  foldr (fun write acc => written write.1 write.2 +:+ acc) EmptyString writes.

(** The lines of the appends that went through. *)
Definition appended_ok (writes : list (append_reply * string)) : list string :=
  omap (fun write => match write.1 with AppendOk => Some write.2 | _ => None end) writes.

(** No append breaks off partway: each one writes its whole line or
    nothing. *)
Definition appends_whole_lines (E : environment) : Prop :=
  forall t k, append_reply_at E t <> AppendFailsAfter k.

(** The file of [w] does not end in the middle of a line: it ends with
    a line feed, is empty or does not exist. *)
Definition ends_with_line_feed (w : world) : Prop := (opened w).2 = EmptyString.

(** The addresses probed, in order. *)
Definition probed (e : effect) : option string :=
  match e with
  | Net (Head url) => Some url
  | _ => None
  end.

Definition probes (tr : list effect) : list string := omap probed tr.

(** The four attributes the resolver looks at, in its order. *)
Definition url_attributes (media_item : MediaItem) : list (option string) :=
  [mi_url media_item; mi_media_url_https media_item;
   mi_media_url media_item; mi_preview_image_url media_item].

(** The exception of [None.lower()]. *)
Definition none_has_no_lower : exn := Exn "'NoneType' object has no attribute 'lower'".

(** The media message the first loop of the delivery hands to the
    transport for one item, when its address is reachable: a photo send
    for the types photo and image, a video send for video and
    animated_gif, for the [url] attribute of the item, with the given
    token, chat and caption.  No message for an item without [url], of
    another type or without a type. *)
Definition media_message_for (bot_token chat_id caption : string)
    (media_item : MediaItem) : option request :=
  match mi_type media_item, mi_url media_item with
  | Text media_type, Some url =>
      if negb (Py.truthy url) then None
      else if Py.member (Py.lower media_type) ["photo"; "image"]
      then Some (SendPhoto bot_token chat_id url caption)
      else if Py.member (Py.lower media_type) ["video"; "animated_gif"]
      then Some (SendVideo bot_token chat_id url caption)
      else None
  | _, _ => None
  end.

(** The media messages [media] are those of the items [tried], one
    each, in their order. *)
Definition one_message_each (bot_token chat_id caption : string)
    (tried : list MediaItem) (media : list request) : Prop :=
  Forall2 (fun media_item m => media_message_for bot_token chat_id caption media_item = Some m)
    tried media.

(** What the first loop of the delivery has done when it ends in
    [res], started in [w]: it has sent the media messages of some of
    the items, one each and in their order; a success comes with the
    acknowledgement of the last of them; an exception is the one of an
    item whose type is [None]. *)
Definition first_loop_outcome (E : environment) (bot_token chat_id caption : string)
    (media_items : list MediaItem) (w : world) (res : world * result bool) : Prop :=
  exists media tried,
    advance w res.1 media
    /\ clock w <= clock res.1
    /\ tried `sublist_of` media_items
    /\ one_message_each bot_token chat_id caption tried media
    /\ match res.2 with
       | Ret true =>
           exists media' m t,
             media = media' ++ [m] /\ clock w <= t < clock res.1
             /\ post_reply_at E t m = Json true
       | Ret false => True
       | Raise e =>
           e = none_has_no_lower
           /\ exists media_item, media_item ∈ media_items /\ mi_type media_item = NoneValue
       end.

(** A transport whose answers to text messages cannot be decoded. *)
Definition transport_breaks : environment := {|
  TELEGRAM_BOT_TOKEN := "YOUR_BOT_TOKEN_HERE";
  TELEGRAM_CHAT_ID := "YOUR_CHAT_ID_HERE";
  head_reply := fun _ _ => Some 200;
  post_reply_at := fun _ _ => OtherException (Exn "'list' object has no attribute 'get'");
  read_fault := fun _ => None;
  append_reply_at := fun _ => AppendOk;
  rewrite_reply_at := fun _ => RewriteOk;
  set_iter := elements;
  unicode_key := fun _ => Some 0%Z
|}.

(** The identifiers of the posts a search yields, as the loop compares
    and records them, in order. *)
Definition tweet_ids (tweets : list Tweet) : list string :=
  (fun tweet => str (id tweet)) <$> tweets.

(** An effect that is a printed line and nothing else. *)
Definition printed_only (e : effect) : Prop :=
  match e with
  | Stdout _ => True
  | _ => False
  end.

(** The friendly surroundings with the chat identifier left empty. *)
Definition no_chat_id : environment := {|
  TELEGRAM_BOT_TOKEN := "YOUR_BOT_TOKEN_HERE";
  TELEGRAM_CHAT_ID := EmptyString;
  head_reply := fun _ _ => Some 200;
  post_reply_at := fun _ _ => Json true;
  read_fault := fun _ => None;
  append_reply_at := fun _ => AppendOk;
  rewrite_reply_at := fun _ => RewriteOk;
  set_iter := elements;
  unicode_key := fun _ => Some 0%Z
|}.

(** * Properties *)

(** ** Markup sanitizer *)

Example escape_sample :
  escape_markdown_v2 (Some "a_b.c!") = "a\_b\.c\!".
Proof. reflexivity. Qed.

Example escape_twice_sample :
  escape_markdown_v2 (Some "a\_b") = "a\\_b".
Proof. reflexivity. Qed.

Lemma chars_app s t : chars (s +:+ t) = chars s ++ chars t.
Proof. induction s as [|c s IH]; simpl; [done|]. by rewrite <- IH. Qed.

Lemma get_chars s i : String.get i s = chars s !! i.
Proof.
  revert i. induction s as [|c s IH]; intros [|i]; simpl; done.
Qed.

Lemma replace_chars old new text :
  chars (Py.replace old new text)
  = flat_map (fun c => if Ascii.eqb c old then chars new else [c]) (chars text).
Proof.
  induction text as [|c text IH]; simpl; [done|].
  destruct (Ascii.eqb c old); simpl.
  - by rewrite chars_app, IH.
  - by rewrite <- IH.
Qed.

Lemma flat_map_flat_map {A B C} (f : A -> list B) (g : B -> list C) l :
  flat_map g (flat_map f l) = flat_map (fun a => flat_map g (f a)) l.
Proof.
  induction l as [|a l IH]; simpl; [done|]. by rewrite flat_map_app, IH.
Qed.

(** The fold of single-character replacements acts on every character of
    the text on its own: an inserted marker and the character behind it
    are never touched by a later replacement. *)
Lemma fold_replace_chars (reserved : list ascii) :
  NoDup reserved -> backslash ∉ reserved ->
  forall text,
    chars (fold_left
             (fun text char => Py.replace char (String backslash (String char EmptyString)) text)
             reserved text)
    = flat_map (escaped_char reserved) (chars text).
Proof.
  induction 1 as [|ch reserved Hch Hnd IH]; intros Hbs text; simpl.
  - induction (chars text) as [|c l IHl]; simpl; [done|]. by rewrite <- IHl.
  - apply not_elem_of_cons in Hbs as [Hbc Hbr].
    rewrite IH by done. rewrite replace_chars, flat_map_flat_map.
    apply flat_map_ext. intros c. unfold escaped_char.
    destruct (Ascii.eqb_spec c ch) as [->|Hne]; simpl.
    + rewrite (bool_decide_eq_false_2 (backslash ∈ reserved)) by done.
      rewrite (bool_decide_eq_false_2 (ch ∈ reserved)) by done.
      rewrite bool_decide_eq_true_2 by (apply elem_of_cons; by left). done.
    + rewrite app_nil_r.
      rewrite (bool_decide_ext (c ∈ ch :: reserved) (c ∈ reserved)); [done|].
      rewrite elem_of_cons. intuition congruence.
Qed.

Lemma special_chars_NoDup : NoDup special_chars.
Proof. apply (bool_decide_unpack _). by vm_compute. Qed.

Lemma backslash_not_special : backslash ∉ special_chars.
Proof. apply (bool_decide_unpack _). by vm_compute. Qed.

Lemma escape_markdown_v2_chars text :
  chars (escape_markdown_v2 (Some text)) = flat_map (escaped_char special_chars) (chars text).
Proof.
  unfold escape_markdown_v2. destruct text as [|c text]; [done|].
  cbn [Py.truthy negb].
  apply fold_replace_chars; [apply special_chars_NoDup | apply backslash_not_special].
Qed.

Lemma escaped_reserved_prefixed reserved l :
  backslash ∉ reserved ->
  forall i c, flat_map (escaped_char reserved) l !! i = Some c -> c ∈ reserved ->
    exists j, i = S j /\ flat_map (escaped_char reserved) l !! j = Some backslash.
Proof.
  intros Hbs. induction l as [|x l IH]; intros i c Hi Hc; simpl in *; [done|].
  unfold escaped_char in Hi at 1. unfold escaped_char at 1.
  case_bool_decide as Hx; simpl in *.
  - destruct i as [|[|i]]; simpl in *.
    + congruence.
    + exists 0. done.
    + destruct (IH i c Hi Hc) as (j & -> & Hj). exists (S (S j)). done.
  - destruct i as [|i]; simpl in *.
    + congruence.
    + destruct (IH i c Hi Hc) as (j & -> & Hj). exists (S j). done.
Qed.

Lemma escaped_sublist reserved l : sublist l (flat_map (escaped_char reserved) l).
Proof.
  induction l as [|x l IH]; simpl; [constructor|].
  unfold escaped_char at 1. case_bool_decide; simpl.
  - apply sublist_cons. by apply sublist_skip.
  - by apply sublist_skip.
Qed.

(** C4. The reserved characters are the eighteen characters
    [_ * [ ] ( ) ~ ` > # + - = | { } . !].  [escape_markdown_v2] puts a
    backslash immediately before every occurrence of one of them in its
    result, and its result is the text with each of them replaced by a
    backslash and itself and every other character left as it is; an
    absent or empty text gives the empty string; the text itself, with
    every backslash it already had, survives in order inside the
    result.  So each of the eighteen comes out escaped, and a character
    escaped before keeps its backslash and gets its own. *)
Theorem escape_markdown_v2_correct :
  let reserved :=
    ["_"; "*"; "["; "]"; "("; ")"; "~"; "`"; ">"; "#"; "+"; "-"; "=";
     "|"; "{"; "}"; "."; "!"]%char in
  let marker := "\"%char in
  special_chars = reserved
  /\ (forall text i c,
        String.get i (escape_markdown_v2 (Some text)) = Some c ->
        c ∈ reserved ->
        exists j, i = S j /\ String.get j (escape_markdown_v2 (Some text)) = Some marker)
  /\ (forall text,
        chars (escape_markdown_v2 (Some text))
        = flat_map (fun c => if bool_decide (c ∈ reserved) then [marker; c] else [c])
            (chars text))
  /\ escape_markdown_v2 None = EmptyString
  /\ escape_markdown_v2 (Some EmptyString) = EmptyString
  /\ (forall text, sublist (chars text) (chars (escape_markdown_v2 (Some text))))
  /\ escape_markdown_v2 (Some "_*[]()~`>#+-=|{}.!")
     = "\_\*\[\]\(\)\~\`\>\#\+\-\=\|\{\}\.\!"
  /\ escape_markdown_v2 (Some "a\_b and 1.5") = "a\\_b and 1\.5".
Proof.
  cbv zeta. split; [reflexivity|]. split; [|split; [|split; [done|split; [done|split]]]].
  - intros text i c. rewrite !get_chars.
    setoid_rewrite get_chars. rewrite escape_markdown_v2_chars.
    apply (escaped_reserved_prefixed special_chars), backslash_not_special.
  - apply escape_markdown_v2_chars.
  - intros text. rewrite escape_markdown_v2_chars. apply escaped_sublist.
  - split; reflexivity.
Qed.

Lemma escape_markdown_v2_correct_witness :
  escape_markdown_v2 (Some "1.5") = "1\.5"
  /\ exists j, 2 = S j /\ String.get j (escape_markdown_v2 (Some "1.5")) = Some "\"%char.
Proof.
  split; [reflexivity|].
  apply (proj1 (proj2 escape_markdown_v2_correct) "1.5" 2 "."%char); [reflexivity|].
  apply (bool_decide_unpack _). by vm_compute.
Defined.

(** ** [sorted] is the stable ascending sort *)

Section Sorted.

Context {A : Type} (key : A -> Z).

Lemma insert_by_perm x l : Py.insert_by key x l ≡ₚ x :: l.
Proof.
  induction l as [|y l IH]; simpl; [done|].
  destruct (key x <=? key y)%Z; [done|].
  rewrite IH. apply Permutation_swap.
Qed.

Lemma sorted_perm l : Py.sorted key l ≡ₚ l.
Proof.
  induction l as [|x l IH]; simpl; [done|].
  fold (Py.sorted key l). by rewrite insert_by_perm, IH.
Qed.

Lemma insert_by_sorted x l :
  StronglySorted (key_le key) l -> StronglySorted (key_le key) (Py.insert_by key x l).
Proof.
  induction 1 as [|y l Hl IH Hy]; simpl.
  - repeat constructor.
  - destruct (Z.leb_spec (key x) (key y)) as [Hxy|Hxy].
    + constructor; [by constructor|].
      constructor; [done|].
      eapply Forall_impl; [exact Hy|]. unfold key_le. intros; simpl in *; lia.
    + constructor; [done|].
      rewrite insert_by_perm. constructor; [unfold key_le; lia | done].
Qed.

Lemma sorted_sorted l : StronglySorted (key_le key) (Py.sorted key l).
Proof.
  induction l as [|x l IH]; simpl; [constructor|].
  fold (Py.sorted key l). by apply insert_by_sorted.
Qed.

(** Stability: elements of one key keep the order they had. *)
Lemma insert_by_stable k x l :
  filter (fun y => key y = k) (Py.insert_by key x l)
  = filter (fun y => key y = k) (x :: l).
Proof.
  induction l as [|y l IH]; simpl; [done|].
  destruct (Z.leb_spec (key x) (key y)) as [Hxy|Hxy]; [done|].
  rewrite (filter_cons _ y), IH, !(filter_cons _ x), !(filter_cons _ y).
  repeat case_decide; try done; lia.
Qed.

Lemma sorted_stable k l :
  filter (fun y => key y = k) (Py.sorted key l) = filter (fun y => key y = k) l.
Proof.
  induction l as [|x l IH]; simpl; [done|].
  fold (Py.sorted key l).
  by rewrite insert_by_stable, !(filter_cons _ x), IH.
Qed.

(** With one key throughout there is nothing to reorder. *)
Lemma sorted_same_key k l :
  Forall (fun x => key x = k) l -> Py.sorted key l = l.
Proof.
  induction 1 as [|x l Hx Hl IH]; simpl; [done|].
  fold (Py.sorted key l). rewrite IH.
  destruct Hl as [|y l Hy Hl]; simpl; [done|].
  rewrite Hx, Hy, Z.leb_refl. done.
Qed.

(** What [xs[-n:]] keeps of a sorted list dominates what it drops. *)
Lemma last_n_dominates n l x y :
  x ∈ Py.last_n n (Py.sorted key l) ->
  y ∈ l -> y ∉ Py.last_n n (Py.sorted key l) ->
  (key y <= key x)%Z.
Proof.
  unfold Py.last_n. set (i := Z.to_nat _). intros Hx Hy Hny.
  pose proof (sorted_sorted l) as Hs.
  rewrite <- (take_drop i (Py.sorted key l)) in Hs.
  eapply (StronglySorted_app_1_elem_of (key_le key)); [exact Hs| |exact Hx].
  rewrite <- (sorted_perm l), <- (take_drop i (Py.sorted key l)) in Hy.
  apply elem_of_app in Hy as [Hy|Hy]; [done|]. by destruct Hny.
Qed.

Lemma last_n_length n (l : list A) :
  (0 <= n <= Py.len l)%Z -> Py.len (Py.last_n n l) = n.
Proof.
  unfold Py.last_n, Py.len. intros Hn. rewrite length_drop. lia.
Qed.

End Sorted.

(** ** Seen-set store: compaction *)

Example sorted_sample :
  Py.sorted sort_key ["10"; "x"; "9"; "0"; "y"] = ["x"; "0"; "y"; "9"; "10"].
Proof. reflexivity. Qed.

Example last_n_sample : Py.last_n 2%Z ["a"; "b"; "c"] = ["b"; "c"].
Proof. reflexivity. Qed.

Lemma sort_key_numeric x : Py.isdigit x = true -> sort_key x = Py.int x.
Proof. unfold sort_key. by intros ->. Qed.

Lemma sort_key_not_numeric x : Py.isdigit x = false -> sort_key x = 0%Z.
Proof. unfold sort_key. by intros ->. Qed.

Lemma key_of_plain E x : Py.plain x = true -> key_of E x = Some (sort_key x).
Proof. unfold key_of. by intros ->. Qed.

Lemma key_value_plain E x : Py.plain x = true -> key_value E x = sort_key x.
Proof. intros Hx. unfold key_value. by rewrite key_of_plain. Qed.

(** A key that raises: the set comes back, one line is printed and the
    file is not touched. *)
Lemma cleanup_key_error E sent w x :
  iteration_order_ok E ->
  (10000 < Z.of_nat (size sent))%Z ->
  x ∈ sent -> key_of E x = None ->
  cleanup_old_sent_tweets E sent w = (emit (Stdout LogErrorCleanup) w, Ret sent).
Proof.
  intros Hiter Hsize Hx Hkey. unfold cleanup_old_sent_tweets.
  apply Z.ltb_lt in Hsize. rewrite Hsize.
  assert (mapM (key_of E) (set_iter E sent) = None) as ->; [|done].
  apply mapM_None, Exists_exists. exists x. split; [|done].
  rewrite (Hiter sent). by apply elem_of_elements.
Qed.

(** The branch taken by a set of more than 10000 entries whose keys can
    all be computed. *)
Lemma cleanup_large E sent w :
  iteration_order_ok E ->
  (10000 < Z.of_nat (size sent))%Z ->
  (forall x, x ∈ sent -> is_Some (key_of E x)) ->
  cleanup_old_sent_tweets E sent w =
    let kept : gset string :=
      list_to_set (Py.last_n 8000%Z (Py.sorted (key_value E) (set_iter E sent))) in
    let lines := set_iter E kept in
    let w1 := tick (emit (File (FileRewrite lines)) w) in
    match rewrite_reply_at E (clock w) with
    | RewriteOk =>
        (emit (Stdout (LogCleanedUp (size kept))) (set_file (Some (lines, EmptyString)) w1),
         Ret kept)
    | RewriteOpenFails => (emit (Stdout LogErrorCleanup) w1, Ret sent)
    | RewriteFailsAfter k =>
        (emit (Stdout LogErrorCleanup)
           (set_file (Some (write_prefix k lines ([], EmptyString))) w1), Ret sent)
    end.
Proof.
  intros Hiter Hsize Hkeys. unfold cleanup_old_sent_tweets.
  apply Z.ltb_lt in Hsize. rewrite Hsize.
  destruct (mapM_is_Some_2 (key_of E) (set_iter E sent)) as [keys ->]; [|done].
  apply Forall_forall. intros x Hx. apply Hkeys.
  rewrite (Hiter sent) in Hx. by apply elem_of_elements in Hx.
Qed.

(** C10. A set of at most 10000 entries comes back as it is and the
    world is left alone: no rewrite is recorded and the file keeps its
    content; a rewrite of the file, or any change to it, only happens
    for a set of more than 10000 entries. *)
Theorem cleanup_small_set_untouched E sent w :
  ((Z.of_nat (size sent) <= 10000)%Z ->
     cleanup_old_sent_tweets E sent w = (w, Ret sent))
  /\ (forall lines,
        File (FileRewrite lines) ∈ trace (cleanup_old_sent_tweets E sent w).1 ->
        File (FileRewrite lines) ∉ trace w ->
        (10000 < Z.of_nat (size sent))%Z)
  /\ (store (cleanup_old_sent_tweets E sent w).1 <> store w ->
      (10000 < Z.of_nat (size sent))%Z).
Proof.
  assert ((Z.of_nat (size sent) <= 10000)%Z ->
          cleanup_old_sent_tweets E sent w = (w, Ret sent)) as Hsmall.
  { intros Hsize. unfold cleanup_old_sent_tweets.
    destruct (Z.ltb_spec 10000 (Z.of_nat (size sent))); [lia|done]. }
  split; [exact Hsmall|split].
  - intros lines Hin Hnot.
    destruct (Z.le_gt_cases (Z.of_nat (size sent)) 10000) as [Hle|Hgt]; [|lia].
    rewrite (Hsmall Hle) in Hin. by destruct Hnot.
  - intros Hstore.
    destruct (Z.le_gt_cases (Z.of_nat (size sent)) 10000) as [Hle|Hgt]; [|lia].
    rewrite (Hsmall Hle) in Hstore. by destruct Hstore.
Qed.

Lemma cleanup_small_set_untouched_witness :
  cleanup_old_sent_tweets friendly {["1"]} (world_with_store ["1"])
  = (world_with_store ["1"], Ret {["1"]}).
Proof.
  apply (cleanup_small_set_untouched friendly {["1"]} (world_with_store ["1"])).
  vm_compute. discriminate.
Defined.

(** Whether every identifier of the set has a sort key. *)
Lemma keys_or_error E (sent : gset string) :
  (forall x, x ∈ sent -> is_Some (key_of E x)) \/ (exists x, x ∈ sent /\ key_of E x = None).
Proof.
  destruct (mapM (key_of E) (elements sent)) as [keys|] eqn:Hkeys.
  - left. intros x Hx.
    assert (is_Some (mapM (key_of E) (elements sent))) as Hsome by (by rewrite Hkeys).
    apply mapM_is_Some_1 in Hsome. rewrite Forall_forall in Hsome.
    apply Hsome. by apply elem_of_elements.
  - right. apply mapM_None_1, Exists_exists in Hkeys as (x & Hx & Hnone).
    exists x. split; [by apply elem_of_elements|done].
Qed.

(** C3, as the code has it.  For a set of more than 10000 entries:
    when the sort key of every entry can be computed and the rewrite of
    the file goes through, the result has exactly 8000 entries, all of
    them from the input, and the file holds them; every retained entry
    has a sort key at least that of every dropped one, so among plain
    identifiers a retained numeric one is at least every dropped numeric
    one, and none that is not numeric is retained once a numeric one of
    positive value is dropped.  When the rewrite fails, the input set is
    returned unchanged, and the file is as it was if it could not be
    opened.  When the sort key of some entry raises, the input set is
    returned unchanged and nothing but a printed line happens. *)
Theorem cleanup_keeps_highest E sent w :
  iteration_order_ok E ->
  (10000 < Z.of_nat (size sent))%Z ->
  exists w' kept,
    cleanup_old_sent_tweets E sent w = (w', Ret kept)
    /\ ((forall x, x ∈ sent -> is_Some (key_of E x)) ->
        rewrite_reply_at E (clock w) = RewriteOk ->
        Z.of_nat (size kept) = 8000%Z
        /\ kept ⊆ sent
        /\ store w' = Some (set_iter E kept)
        /\ (forall x y, x ∈ kept -> y ∈ sent -> y ∉ kept ->
                        (key_value E y <= key_value E x)%Z)
        /\ (forall x y, x ∈ kept -> Py.plain x = true -> Py.isdigit x = true ->
                        y ∈ sent -> y ∉ kept -> Py.plain y = true -> Py.isdigit y = true ->
                        (Py.int y <= Py.int x)%Z)
        /\ (forall x y, y ∈ sent -> y ∉ kept -> Py.plain y = true -> Py.isdigit y = true ->
                        (0 < Py.int y)%Z ->
                        x ∈ sent -> Py.plain x = true -> Py.isdigit x = false -> x ∉ kept))
    /\ ((forall x, x ∈ sent -> is_Some (key_of E x)) ->
        rewrite_reply_at E (clock w) <> RewriteOk ->
        kept = sent
        /\ (rewrite_reply_at E (clock w) = RewriteOpenFails -> file w' = file w))
    /\ ((exists x, x ∈ sent /\ key_of E x = None) ->
        kept = sent /\ w' = emit (Stdout LogErrorCleanup) w).
Proof.
  intros Hiter Hsize.
  destruct (keys_or_error E sent) as [Hkeys|(x0 & Hx0 & Hnone)].
  2: { rewrite (cleanup_key_error E sent w x0 Hiter Hsize Hx0 Hnone).
       eexists _, _. split; [reflexivity|]. split; [|split; [|done]].
       - intros Hall. destruct (Hall x0 Hx0) as [k Hk]. congruence.
       - intros Hall. destruct (Hall x0 Hx0) as [k Hk]. congruence. }
  rewrite (cleanup_large E sent w Hiter Hsize Hkeys). cbv zeta.
  set (sorted_tweets := Py.sorted (key_value E) (set_iter E sent)).
  set (kept := list_to_set (Py.last_n 8000%Z sorted_tweets) : gset string).
  assert (forall x, x ∈ sent -> key_of E x <> None) as Hnot.
  { intros x Hx Hn. destruct (Hkeys x Hx) as [k Hk]. congruence. }
  destruct (rewrite_reply_at E (clock w)) as [| |k] eqn:Hrw.
  2: { eexists _, sent. split; [reflexivity|]. split; [done|]. split; [done|].
       intros (x & Hx & Hn). by destruct (Hnot x Hx). }
  2: { eexists _, sent. split; [reflexivity|]. split; [done|]. split; [done|].
       intros (x & Hx & Hn). by destruct (Hnot x Hx). }
  eexists _, kept. split; [reflexivity|]. split; [|split; [done|]].
  2: { intros (x & Hx & Hn). by destruct (Hnot x Hx). }
  intros _ _.
  assert (sorted_tweets ≡ₚ elements sent) as Hperm.
  { unfold sorted_tweets. by rewrite sorted_perm. }
  assert (forall x, x ∈ kept <-> x ∈ Py.last_n 8000%Z sorted_tweets) as Hkept.
  { intros x. unfold kept. apply elem_of_list_to_set. }
  assert (forall y, y ∈ sent <-> y ∈ set_iter E sent) as Hsent.
  { intros y. rewrite (Hiter sent). by rewrite elem_of_elements. }
  assert (forall x y, x ∈ kept -> y ∈ sent -> y ∉ kept ->
                      (key_value E y <= key_value E x)%Z) as Hdom.
  { intros x y Hx Hy Hny. apply (last_n_dominates (key_value E) 8000%Z (set_iter E sent)).
    - by apply Hkept.
    - by apply Hsent.
    - intros Hin. apply Hny. by apply Hkept. }
  split; [|split; [|split; [|split; [|split]]]].
  - unfold kept. rewrite size_list_to_set.
    + apply (last_n_length 8000%Z sorted_tweets). unfold Py.len.
      rewrite Hperm. change (length (elements sent)) with (size sent). lia.
    + unfold Py.last_n. eapply sublist_NoDup; [|apply sublist_drop].
      rewrite Hperm. apply NoDup_elements.
  - intros x Hx. apply Hkept in Hx. unfold Py.last_n in Hx.
    apply subseteq_drop in Hx. rewrite Hperm in Hx. by apply elem_of_elements in Hx.
  - done.
  - exact Hdom.
  - intros x y Hx Hpx Hdx Hy Hny Hpy Hdy.
    rewrite <- (sort_key_numeric x Hdx), <- (sort_key_numeric y Hdy).
    rewrite <- (key_value_plain E x Hpx), <- (key_value_plain E y Hpy). by apply Hdom.
  - intros x y Hy Hny Hpy Hdy Hpos Hx Hpx Hdx Hkx.
    pose proof (Hdom x y Hkx Hy Hny) as Hle.
    rewrite (key_value_plain E y Hpy), (key_value_plain E x Hpx) in Hle.
    rewrite (sort_key_numeric y Hdy), (sort_key_not_numeric x Hdx) in Hle. lia.
Qed.

(** *** A set with ties at key 0 *)

Lemma tie_tail_length : length tie_tail = N.to_nat 10000.
Proof. unfold tie_tail. by rewrite length_fmap, length_seq. Qed.

Lemma tie_tail_not_numeric x : x ∈ tie_tail -> Py.isdigit x = false.
Proof.
  unfold tie_tail. intros Hin.
  apply list_elem_of_fmap in Hin as (n & -> & _). reflexivity.
Qed.

Lemma tie_tail_NoDup : NoDup tie_tail.
Proof.
  unfold tie_tail. apply NoDup_fmap_2; [|apply NoDup_seq].
  intros n m Hnm. injection Hnm as Hnm. apply (inj pretty). exact Hnm.
Qed.

Lemma tie_tail_last : tie_tail !! N.to_nat 9999 = Some "t9999".
Proof.
  unfold tie_tail. rewrite list_lookup_fmap, lookup_seq_lt by lia. reflexivity.
Qed.

Lemma tie_ids_NoDup : NoDup tie_ids.
Proof.
  unfold tie_ids. apply NoDup_cons. split; [|apply tie_tail_NoDup].
  intros Hin. by apply tie_tail_not_numeric in Hin.
Qed.

Lemma tie_ids_len : Py.len tie_ids = 10001%Z.
Proof.
  unfold Py.len, tie_ids. rewrite length_cons, tie_tail_length. lia.
Qed.

Lemma tie_set_size : Z.of_nat (size tie_set) = 10001%Z.
Proof.
  unfold tie_set. rewrite size_list_to_set by apply tie_ids_NoDup.
  apply tie_ids_len.
Qed.

Lemma tie_iter_ok reply : iteration_order_ok (tie_environment reply).
Proof.
  intros s. simpl. unfold tie_iter. case_decide as Hs; [|done].
  subst s. symmetry. apply elements_list_to_set, tie_ids_NoDup.
Qed.

Lemma tie_iter_tie_set : tie_iter tie_set = tie_ids.
Proof. unfold tie_iter. by rewrite decide_True. Qed.

Lemma tie_keys reply x : is_Some (key_of (tie_environment reply) x).
Proof. unfold key_of. destruct (Py.plain x); by eexists. Qed.

Lemma tie_tail_key reply x : x ∈ tie_tail -> key_value (tie_environment reply) x = 0%Z.
Proof.
  intros Hx. unfold key_value, key_of. destruct (Py.plain x); [|done].
  apply sort_key_not_numeric. by apply tie_tail_not_numeric.
Qed.

Lemma tie_ids_sorted reply : Py.sorted (key_value (tie_environment reply)) tie_ids = tie_ids.
Proof.
  apply (sorted_same_key (key_value (tie_environment reply)) 0%Z).
  unfold tie_ids. constructor; [reflexivity|].
  apply Forall_forall. intros x Hx. by apply tie_tail_key.
Qed.

Lemma tie_ids_last_n : Py.last_n 8000%Z tie_ids = drop (N.to_nat 2000) tie_tail.
Proof.
  unfold Py.last_n. rewrite tie_ids_len.
  replace (Z.to_nat (10001 - 8000)) with (S (N.to_nat 2000)) by lia.
  unfold tie_ids. apply skipn_cons.
Qed.

Lemma tie_kept_zero : "0" ∉ Py.last_n 8000%Z tie_ids.
Proof.
  rewrite tie_ids_last_n. intros Hin. apply subseteq_drop in Hin.
  by apply tie_tail_not_numeric in Hin.
Qed.

Lemma tie_kept_other : "t9999" ∈ Py.last_n 8000%Z tie_ids.
Proof.
  rewrite tie_ids_last_n. apply list_elem_of_lookup. exists (N.to_nat 7999).
  rewrite lookup_drop.
  replace (N.to_nat 2000 + N.to_nat 7999) with (N.to_nat 9999) by lia.
  apply tie_tail_last.
Qed.

Lemma tie_set_zero : "0" ∈ tie_set.
Proof.
  unfold tie_set. apply elem_of_list_to_set. unfold tie_ids. apply elem_of_cons. by left.
Qed.

Lemma tie_set_other : "t9999" ∈ tie_set.
Proof.
  unfold tie_set. apply elem_of_list_to_set. unfold tie_ids. apply elem_of_cons. right.
  apply list_elem_of_lookup. exists (N.to_nat 9999). apply tie_tail_last.
Qed.

(** What compaction does when the rewrite is accepted or refused at
    once, in terms of the list it sorts. *)
Lemma cleanup_rewrite_ok E sent w :
  iteration_order_ok E ->
  (10000 < Z.of_nat (size sent))%Z ->
  (forall x, x ∈ sent -> is_Some (key_of E x)) ->
  rewrite_reply_at E (clock w) = RewriteOk ->
  exists w',
    cleanup_old_sent_tweets E sent w
    = (w', Ret (list_to_set (Py.last_n 8000%Z (Py.sorted (key_value E) (set_iter E sent))))).
Proof.
  intros Hiter Hsize Hkeys Hrw. rewrite (cleanup_large _ _ _ Hiter Hsize Hkeys).
  cbv zeta. rewrite Hrw. eexists. reflexivity.
Qed.

Lemma cleanup_rewrite_refused E sent w :
  iteration_order_ok E ->
  (10000 < Z.of_nat (size sent))%Z ->
  (forall x, x ∈ sent -> is_Some (key_of E x)) ->
  rewrite_reply_at E (clock w) = RewriteOpenFails ->
  exists w', cleanup_old_sent_tweets E sent w = (w', Ret sent).
Proof.
  intros Hiter Hsize Hkeys Hrw. rewrite (cleanup_large _ _ _ Hiter Hsize Hkeys).
  cbv zeta. rewrite Hrw. eexists. reflexivity.
Qed.

Lemma cleanup_in_iteration_order E sent w ids x y :
  iteration_order_ok E ->
  (forall x, x ∈ sent -> is_Some (key_of E x)) ->
  set_iter E sent = ids ->
  Py.sorted (key_value E) ids = ids ->
  (10000 < Z.of_nat (size sent))%Z ->
  rewrite_reply_at E (clock w) = RewriteOk ->
  x ∉ Py.last_n 8000%Z ids ->
  y ∈ Py.last_n 8000%Z ids ->
  exists w' kept,
    cleanup_old_sent_tweets E sent w = (w', Ret kept) /\ (x ∉ kept) /\ (y ∈ kept).
Proof.
  intros Hok Hkeys Hiter Hsorted Hsize Hrw Hx Hy.
  destruct (cleanup_rewrite_ok E sent w Hok Hsize Hkeys Hrw) as [w' Hrun].
  rewrite Hiter, Hsorted in Hrun.
  exists w', (list_to_set (Py.last_n 8000%Z ids)).
  split; [exact Hrun|]. by rewrite !elem_of_list_to_set.
Qed.

Lemma tie_set_large : (10000 < Z.of_nat (size tie_set))%Z.
Proof. rewrite tie_set_size. lia. Qed.

Lemma superscript_set_large : (10000 < Z.of_nat (size superscript_set))%Z.
Proof.
  pose proof tie_set_large as Hlarge.
  assert (size tie_set <= size superscript_set) as Hle.
  { apply subseteq_size, union_subseteq_l. }
  lia.
Qed.

Lemma superscript_in_set : "²" ∈ superscript_set.
Proof. apply elem_of_union_r. by apply elem_of_singleton. Qed.

Lemma cleanup_keeps_highest_witness :
  exists w' kept,
    cleanup_old_sent_tweets (tie_environment RewriteOk) tie_set fresh_world = (w', Ret kept)
    /\ Z.of_nat (size kept) = 8000%Z.
Proof.
  destruct (cleanup_keeps_highest (tie_environment RewriteOk) tie_set fresh_world
              (tie_iter_ok RewriteOk) tie_set_large)
    as (w' & kept & Hrun & Hok & _).
  exists w', kept. split; [exact Hrun|].
  exact (proj1 (Hok (fun x _ => tie_keys RewriteOk x) eq_refl)).
Defined.

(** C3 as worded fails three times.  The numeric ["0"] and entries that
    are not numeric share key 0: when the set is iterated with ["0"]
    first, ["0"] is dropped while ["t9999"] stays.  When the rewrite of
    the file fails, the whole set of 10001 entries comes back.  And when
    the set holds ["²"], which [isdigit] accepts and [int] refuses, the
    sort raises and the whole set of more than 10000 entries comes back
    with the file untouched. *)
Lemma cleanup_keeps_highest_counterexample :
  iteration_order_ok (tie_environment RewriteOk)
  /\ (10000 < Z.of_nat (size tie_set))%Z
  /\ "0" ∈ tie_set /\ Py.isdigit "0" = true
  /\ "t9999" ∈ tie_set /\ Py.isdigit "t9999" = false
  /\ (exists w' kept,
        cleanup_old_sent_tweets (tie_environment RewriteOk) tie_set fresh_world
          = (w', Ret kept)
        /\ ("0" ∉ kept) /\ ("t9999" ∈ kept))
  /\ (exists w',
        cleanup_old_sent_tweets (tie_environment RewriteOpenFails) tie_set fresh_world
          = (w', Ret tie_set))
  /\ Z.of_nat (size tie_set) = 10001%Z
  /\ "²" ∈ superscript_set
  /\ key_of refuses_superscript "²" = None
  /\ (10000 < Z.of_nat (size superscript_set))%Z
  /\ cleanup_old_sent_tweets refuses_superscript superscript_set fresh_world
     = (emit (Stdout LogErrorCleanup) fresh_world, Ret superscript_set).
Proof.
  split; [apply tie_iter_ok|]. split; [apply tie_set_large|].
  split; [apply tie_set_zero|]. split; [reflexivity|].
  split; [apply tie_set_other|]. split; [reflexivity|].
  split; [|split; [|split; [apply tie_set_size|]]].
  - exact (cleanup_in_iteration_order (tie_environment RewriteOk) tie_set fresh_world
             tie_ids "0" "t9999" (tie_iter_ok RewriteOk) (fun x _ => tie_keys RewriteOk x)
             tie_iter_tie_set (tie_ids_sorted RewriteOk) tie_set_large eq_refl
             tie_kept_zero tie_kept_other).
  - exact (cleanup_rewrite_refused (tie_environment RewriteOpenFails) tie_set fresh_world
             (tie_iter_ok RewriteOpenFails) tie_set_large
             (fun x _ => tie_keys RewriteOpenFails x) eq_refl).
  - split; [apply superscript_in_set|]. split; [reflexivity|].
    split; [apply superscript_set_large|].
    exact (cleanup_key_error refuses_superscript superscript_set fresh_world "²"
             (fun s => reflexivity _) superscript_set_large superscript_in_set eq_refl).
Qed.

(** ** Seen-set store: loading and appending *)

Lemma truthy_nonempty s : Py.truthy s = true <-> s <> EmptyString.
Proof. destruct s; simpl; split; intros; congruence. Qed.

Lemma loaded_ids_cons line lines :
  loaded_ids (line :: lines) = add_line ∅ line ∪ loaded_ids lines.
Proof.
  unfold loaded_ids, add_line. rewrite fmap_cons, filter_cons.
  case_decide as Hne.
  - rewrite (proj2 (truthy_nonempty _) Hne), list_to_set_cons.
    by rewrite (left_id_L ∅ (∪)).
  - destruct (Py.truthy (Py.strip line)) eqn:Ht.
    + by apply truthy_nonempty in Ht.
    + by rewrite (left_id_L ∅ (∪)).
Qed.

Lemma add_line_union acc line : add_line acc line = acc ∪ add_line ∅ line.
Proof.
  unfold add_line. destruct (Py.truthy (Py.strip line)).
  - by rewrite (left_id_L ∅ (∪)).
  - by rewrite (right_id_L ∅ (∪)).
Qed.

Lemma fold_add_line lines acc :
  fold_left add_line lines acc = acc ∪ loaded_ids lines.
Proof.
  revert acc. induction lines as [|line lines IH]; intros acc; simpl.
  - unfold loaded_ids. simpl. by rewrite (right_id_L ∅ (∪)).
  - rewrite IH, loaded_ids_cons, (add_line_union acc). by rewrite (assoc_L (∪)).
Qed.

Lemma elem_of_loaded_ids lines x :
  x ∈ loaded_ids lines <->
  x <> EmptyString /\ exists line, line ∈ lines /\ x = Py.strip line.
Proof.
  unfold loaded_ids. rewrite elem_of_list_to_set, list_elem_of_filter, list_elem_of_fmap.
  split.
  - intros [Hx (line & -> & Hin)]. split; [done|]. by exists line.
  - intros [Hx (line & Hin & ->)]. split; [done|]. by exists line.
Qed.

(** C9, as the code has it.  Without a file the result is the empty set
    and only a notice is printed.  A read that goes through returns the
    white-space-stripped lines that are not empty.  A read that raises
    after [k] lines returns what those [k] lines gave (nothing when
    [k = 0], as for a failing open) and prints the error.  In no case
    does the function raise. *)
Theorem load_sent_tweets_spec E w :
  (store w = None ->
     load_sent_tweets E w = (emit (Stdout LogNoPreviousFile) w, Ret ∅))
  /\ (forall lines, store w = Some lines -> read_fault E (clock w) = None ->
        load_sent_tweets E w
        = (emit (Stdout (LogLoaded (size (loaded_ids lines)))) (tick (emit (File FileRead) w)),
           Ret (loaded_ids lines)))
  /\ (forall lines k, store w = Some lines -> read_fault E (clock w) = Some k ->
        load_sent_tweets E w
        = (emit (Stdout LogErrorReading) (tick (emit (File FileRead) w)),
           Ret (loaded_ids (take k lines))))
  /\ (exists w' sent, load_sent_tweets E w = (w', Ret sent))
  /\ store (load_sent_tweets E w).1 = store w
  /\ (forall lines x,
        x ∈ loaded_ids lines <->
        x <> EmptyString /\ exists line, line ∈ lines /\ x = Py.strip line).
Proof.
  unfold load_sent_tweets.
  split; [by intros ->|]. split; [|split; [|split; [|split]]].
  - intros lines -> ->. by rewrite fold_add_line, (left_id_L ∅ (∪)).
  - intros lines k -> ->. by rewrite fold_add_line, (left_id_L ∅ (∪)).
  - destruct (store w) as [lines|]; [|by eexists _, _].
    destruct (read_fault E (clock w)); by eexists _, _.
  - destruct (store w) as [lines|] eqn:Hs; [|done].
    destruct (read_fault E (clock w)); done.
  - apply elem_of_loaded_ids.
Qed.

Lemma load_sent_tweets_spec_witness :
  load_sent_tweets friendly (world_with_store ["12"; " 7 "; "  "])
  = (emit (Stdout (LogLoaded (size (loaded_ids ["12"; " 7 "; "  "]))))
       (tick (emit (File FileRead) (world_with_store ["12"; " 7 "; "  "]))),
     Ret (loaded_ids ["12"; " 7 "; "  "])).
Proof.
  apply (load_sent_tweets_spec friendly (world_with_store ["12"; " 7 "; "  "]));
    reflexivity.
Defined.

Example loaded_ids_sample : loaded_ids ["12"; " 7 "; "  "] = {["12"; "7"]}.
Proof. by vm_compute. Qed.

(** C9 as worded fails: a read that raises after the first of two lines
    returns that line, not the empty set; and a line with blanks around
    the identifier is non-empty yet not itself in the result, while a
    line of blanks only is non-empty and contributes nothing. *)
Lemma load_sent_tweets_counterexample :
  (load_sent_tweets (faulty_read 1) (world_with_store ["1"; "2"])).2 = Ret {["1"]}
  /\ ({["1"]} : gset string) <> ∅
  /\ (load_sent_tweets friendly (world_with_store [" 7 "; "  "])).2 = Ret {["7"]}
  /\ (" 7 " ∉ ({["7"]} : gset string))
  /\ ("  " ∉ ({["7"]} : gset string)).
Proof.
  split; [by vm_compute|]. split; [by apply (bool_decide_unpack _)|].
  split; [by vm_compute|]. split; by apply (bool_decide_unpack _).
Qed.


(** ** How computations run *)

Lemma bind_ret {S A B} (m : M S A) (k : A -> M S B) s s' a :
  m s = (s', Ret a) -> bind m k s = k a s'.
Proof. unfold bind. by intros ->. Qed.

Lemma bind_raise {S A B} (m : M S A) (k : A -> M S B) s s' e :
  m s = (s', Raise e) -> bind m k s = (s', Raise e).
Proof. unfold bind. by intros ->. Qed.

Lemma sent_messages_app tr l :
  sent_messages (tr ++ l) = sent_messages tr ++ sent_messages l.
Proof. apply omap_app. Qed.

Lemma appended_app tr l : appended (tr ++ l) = appended tr ++ appended l.
Proof. apply omap_app. Qed.

Lemma pauses_app tr l : pauses (tr ++ l) = pauses tr ++ pauses l.
Proof. apply omap_app. Qed.

Lemma file_store w w' : file w' = file w -> store w' = store w.
Proof. unfold store. by intros ->. Qed.

Lemma net_only_refl w : net_only w w.
Proof. split; [done|]. exists []. by rewrite app_nil_r. Qed.

Lemma net_only_trans w1 w2 w3 : net_only w1 w2 -> net_only w2 w3 -> net_only w1 w3.
Proof.
  intros [Hs1 (l1 & Ht1 & Hl1)] [Hs2 (l2 & Ht2 & Hl2)]. split; [congruence|].
  exists (l1 ++ l2). split.
  - by rewrite Ht2, Ht1, (assoc_L (++)).
  - by apply Forall_app.
Qed.

Lemma net_only_emit w e : net_or_log e -> net_only w (emit e w).
Proof. intros He. split; [done|]. exists [e]. split; [done|]. by constructor. Qed.

Lemma net_only_tick w : net_only w (tick w).
Proof. split; [done|]. exists []. by rewrite app_nil_r. Qed.

Lemma net_only_appended w w' : net_only w w' -> appended (trace w') = appended (trace w).
Proof.
  intros [_ (l & -> & Hl)]. rewrite appended_app.
  rewrite <- (app_nil_r (appended (trace w))) at 2. f_equal.
  induction Hl as [|e l He _ IH]; [done|].
  destruct e as [r| | |]; try done. 
Qed.

Lemma net_only_pauses w w' : net_only w w' -> pauses (trace w') = pauses (trace w).
Proof.
  intros [_ (l & -> & Hl)]. rewrite pauses_app.
  rewrite <- (app_nil_r (pauses (trace w))) at 2. f_equal.
  induction Hl as [|e l He _ IH]; [done|].
  destruct e as [r| | |]; try done.
Qed.

Lemma advance_refl w : advance w w [].
Proof. split; [apply net_only_refl|]. by rewrite app_nil_r. Qed.

Lemma advance_trans w1 w2 w3 l1 l2 :
  advance w1 w2 l1 -> advance w2 w3 l2 -> advance w1 w3 (l1 ++ l2).
Proof.
  intros [Hn1 Hs1] [Hn2 Hs2]. split; [by eapply net_only_trans|].
  by rewrite Hs2, Hs1, (assoc_L (++)).
Qed.

Lemma advance_print w l : advance w (emit (Stdout l) w) [].
Proof. split; [net_only_tac|]. simpl. by rewrite sent_messages_app. Qed.

Lemma advance_print_l w w' l msgs :
  advance (emit (Stdout l) w) w' msgs -> advance w w' msgs.
Proof. intros H. apply (advance_trans _ _ _ [] msgs (advance_print w l) H). Qed.

Lemma advance_print_r w w' l msgs :
  advance w w' msgs -> advance w (emit (Stdout l) w') msgs.
Proof.
  intros H. rewrite <- (app_nil_r msgs).
  apply (advance_trans _ _ _ msgs [] H (advance_print w' l)).
Qed.

Lemma bind_print {A} l (k : unit -> M world A) w :
  bind (print l) k w = k tt (emit (Stdout l) w).
Proof. reflexivity. Qed.

(** ** Delivery client *)

Section DeliveryFacts.

Variable E : environment.

Lemma validate_media_url_run url w :
  exists w',
    validate_media_url E url w = (w', Ret (probe_ok (head_reply E (clock w) url)))
    /\ clock w' = S (clock w)
    /\ advance w w' [].
Proof.
  unfold validate_media_url, bind, http_head, pure, print, advance. simpl.
  destruct (head_reply E (clock w) url) as [status|]; simpl;
    (eexists; split; [reflexivity|]; split; [done|]; split; [net_only_tac|];
     simpl; by rewrite ?sent_messages_app, ?app_nil_r).
Qed.

Lemma send_telegram_photo_run chat_id photo_url caption bot_token w :
  let r := SendPhoto bot_token chat_id photo_url caption in
  exists w',
    send_telegram_photo E chat_id photo_url caption bot_token w
      = (w', Ret (post_ok (post_reply_at E (clock w) r)))
    /\ clock w' = S (clock w)
    /\ advance w w' [r].
Proof.
  intros r. unfold send_telegram_photo, bind, http_post, pure, print, advance. simpl. fold r.
  destruct (post_reply_at E (clock w) r) as [| |[|]]; simpl;
    (eexists; split; [reflexivity|]; split; [done|]; split; [net_only_tac|];
     simpl; by rewrite ?sent_messages_app, ?app_nil_r).
Qed.

Lemma send_telegram_video_run chat_id video_url caption bot_token w :
  let r := SendVideo bot_token chat_id video_url caption in
  exists w',
    send_telegram_video E chat_id video_url caption bot_token w
      = (w', Ret (post_ok (post_reply_at E (clock w) r)))
    /\ clock w' = S (clock w)
    /\ advance w w' [r].
Proof.
  intros r. unfold send_telegram_video, bind, http_post, pure, print, advance. simpl. fold r.
  destruct (post_reply_at E (clock w) r) as [| |[|]]; simpl;
    (eexists; split; [reflexivity|]; split; [done|]; split; [net_only_tac|];
     simpl; by rewrite ?sent_messages_app, ?app_nil_r).
Qed.

Lemma send_telegram_message_run chat_id message bot_token w :
  let r := SendMessage bot_token chat_id message in
  exists w',
    send_telegram_message E chat_id message bot_token w
      = (w', text_outcome (post_reply_at E (clock w) r))
    /\ clock w' = S (clock w)
    /\ advance w w' [r].
Proof.
  intros r. unfold send_telegram_message, bind, http_post, pure, print, raise, advance.
  simpl. fold r.
  destruct (post_reply_at E (clock w) r) as [| |[|]]; simpl;
    (eexists; split; [reflexivity|]; split; [done|]; split; [net_only_tac|];
     simpl; by rewrite ?sent_messages_app, ?app_nil_r).
Qed.

(** The first loop only probes, sends and prints, and when it reports
    success a media message has gone out. *)
Lemma try_media_items_run chat_id message bot_token items w :
  exists w' r msgs,
    try_media_items E chat_id message bot_token items w = (w', r)
    /\ advance w w' msgs
    /\ (r = Ret true -> msgs <> []).
Proof.
  revert w. induction items as [|item rest IH]; intros w.
  { exists w, (Ret false), []. split; [done|]. split; [apply advance_refl|done]. }
  cbn [try_media_items].
  destruct (type_lower (mi_type item)) as [media_type|e].
  2: { exists w, (Raise e), []. split; [done|]. split; [apply advance_refl|done]. }
  destruct (Py.truthy_opt (mi_url item)) eqn:Hurl; cbn [negb]; [|apply IH].
  set (url := default EmptyString (mi_url item)).
  rewrite bind_print.
  destruct (validate_media_url_run url (emit (Stdout (LogValidating url)) w))
    as (w1 & Hv & _ & Ha1).
  rewrite (bind_ret _ _ _ _ _ Hv). apply advance_print_l in Ha1.
  destruct (probe_ok _); cbn [negb].
  2: { rewrite bind_print.
       destruct (IH (emit (Stdout (LogNotAccessible url)) w1)) as (w' & r & msgs & Hrun & Ha & Hb).
       exists w', r, msgs. split; [exact Hrun|]. split; [|exact Hb].
       apply advance_print_l in Ha. apply (advance_trans _ _ _ [] msgs Ha1 Ha). }
  destruct (Py.member _ ["photo"; "image"]).
  { rewrite bind_print.
    destruct (send_telegram_photo_run chat_id url message bot_token
                (emit (Stdout LogSendingAsPhoto) w1)) as (w2 & Hs & _ & Ha2).
    rewrite (bind_ret _ _ _ _ _ Hs). apply advance_print_l in Ha2.
    pose proof (advance_trans _ _ _ _ _ Ha1 Ha2) as Ha12.
    destruct (post_ok _).
    - eexists w2, (Ret true), _. split; [done|]. split; [exact Ha12|]. done.
    - destruct (IH w2) as (w' & r & msgs & Hrun & Ha & Hb).
      eexists w', r, _. split; [exact Hrun|]. split; [exact (advance_trans _ _ _ _ _ Ha12 Ha)|].
      done. }
  destruct (Py.member _ ["video"; "animated_gif"]).
  { rewrite bind_print.
    destruct (send_telegram_video_run chat_id url message bot_token
                (emit (Stdout LogSendingAsVideo) w1)) as (w2 & Hs & _ & Ha2).
    rewrite (bind_ret _ _ _ _ _ Hs). apply advance_print_l in Ha2.
    pose proof (advance_trans _ _ _ _ _ Ha1 Ha2) as Ha12.
    destruct (post_ok _).
    - eexists w2, (Ret true), _. split; [done|]. split; [exact Ha12|]. done.
    - destruct (IH w2) as (w' & r & msgs & Hrun & Ha & Hb).
      eexists w', r, _. split; [exact Hrun|]. split; [exact (advance_trans _ _ _ _ _ Ha12 Ha)|].
      done. }
  destruct (IH w1) as (w' & r & msgs & Hrun & Ha & Hb).
  exists w', r, msgs. split; [exact Hrun|]. split; [|exact Hb].
  apply (advance_trans _ _ _ [] msgs Ha1 Ha).
Qed.

(** The composite operation only probes, sends and prints, and when it
    returns at all it has handed at least one message to the
    transport. *)
Lemma send_telegram_message_with_media_run chat_id message bot_token media_items w :
  exists w' r msgs,
    send_telegram_message_with_media E chat_id message bot_token media_items w = (w', r)
    /\ advance w w' msgs
    /\ (forall b, r = Ret b -> msgs <> []).
Proof.
  unfold send_telegram_message_with_media.
  assert (forall text w0, exists w' r msgs,
            send_telegram_message E chat_id text bot_token w0 = (w', r)
            /\ advance w0 w' msgs /\ msgs <> []) as Htext.
  { intros text w0.
    destruct (send_telegram_message_run chat_id text bot_token w0) as (w' & Hrun & _ & Ha).
    eexists w', _, _. split; [exact Hrun|]. split; [exact Ha|done]. }
  assert (forall text w0, exists w' r msgs,
            send_telegram_message E chat_id text bot_token w0 = (w', r)
            /\ advance w0 w' msgs /\ (forall b, r = Ret b -> msgs <> [])) as Htext'.
  { intros text w0. destruct (Htext text w0) as (w' & r & msgs & Hrun & Ha & Hne).
    by exists w', r, msgs. }
  destruct media_items as [[|item rest]|]; [apply Htext'| |apply Htext'].
  destruct (try_media_items_run chat_id message bot_token (item :: rest) w)
    as (w1 & r1 & msgs & Hrun & Ha & Hb).
  destruct r1 as [[|]|e].
  - rewrite (bind_ret _ _ _ _ _ Hrun).
    exists w1, (Ret true), msgs. split; [done|]. split; [exact Ha|]. intros _ _. by apply Hb.
  - rewrite (bind_ret _ _ _ _ _ Hrun). rewrite bind_print.
    destruct (Htext (fallback_message message (item :: rest)) (emit (Stdout LogMediaFailed) w1))
      as (w' & r & msgs' & Hrun' & Ha' & Hne).
    exists w', r, (msgs ++ msgs'). split; [exact Hrun'|]. split.
    + apply advance_print_l in Ha'. exact (advance_trans _ _ _ _ _ Ha Ha').
    + intros _ _ Heq. apply app_eq_nil in Heq as [_ ?]. done.
  - rewrite (bind_raise _ _ _ _ _ Hrun).
    exists w1, (Raise e), msgs. split; [done|]. split; [exact Ha|]. intros b Hb'. done.
Qed.

End DeliveryFacts.


(** ** Delivery client: the two scenarios of the fall-back *)

Section DeliveryScenarios.

Variable E : environment.






End DeliveryScenarios.


Example fallback_message_sample :
  fallback_message "caption" [photo_item "https://a/1.jpg"; untyped_item "https://a/2.jpg"]
  = "caption" +:+ Py.nl +:+ Py.nl +:+ "*Media*:" +:+ Py.nl
    +:+ "  \- [photo](https://a/1.jpg)" +:+ Py.nl
    +:+ "  \- [unknown](https://a/2.jpg)".
Proof. reflexivity. Qed.


(** ** Media resolver *)

(** C6 at a concrete item.  The photo has its address in
    [media_url_https] only, and every address answers with 200.  The
    resolver, as the cycle calls it for its report, finds the address;
    the delivery reads the [url] attribute alone, passes the item over
    without a probe and sends the bare text. *)
Theorem delivery_ignores_resolver :
  let E := friendly in
  let resolved := get_best_media_url E https_only_photo fresh_world in
  let delivered :=
    send_telegram_message_with_media E "chat" "caption" "token"
      (Some [https_only_photo]) fresh_world in
  possible_urls https_only_photo = ["https://pbs.twimg.com/media/a.jpg"]
  /\ resolved.2 = Ret (Some "https://pbs.twimg.com/media/a.jpg")
  /\ trace resolved.1 = [Net (Head "https://pbs.twimg.com/media/a.jpg")]
  /\ delivered.2 = Ret true
  /\ trace delivered.1
     = [Stdout LogMediaFailed; Net (SendMessage "token" "chat" "caption")].
Proof. cbv zeta. repeat split; reflexivity. Qed.


(** ** Cycle engine: one tweet *)

Lemma bind_modify {S B} (f : S -> S) (k : unit -> M S B) s :
  bind (modify f) k s = k tt (f s).
Proof. reflexivity. Qed.

Lemma bind_get {S B} (k : S -> M S B) s : bind get k s = k s s.
Proof. reflexivity. Qed.

Lemma bind_in_world_ret {A B} (m : M world A) (k : A -> M cycle_state B) st w a :
  m (the_world st) = (w, Ret a) -> bind (in_world m) k st = k a (with_world st w).
Proof. intros Hm. unfold bind, in_world. by rewrite Hm. Qed.

Lemma bind_in_world_raise {A B} (m : M world A) (k : A -> M cycle_state B) st w e :
  m (the_world st) = (w, Raise e) -> bind (in_world m) k st = (with_world st w, Raise e).
Proof. intros Hm. unfold bind, in_world. by rewrite Hm. Qed.

Lemma in_world_print l st :
  in_world (print l) st = (with_world st (emit (Stdout l) (the_world st)), Ret tt).
Proof. reflexivity. Qed.

Section CycleFacts.

Variable E : environment.

Lemma first_working_url_run urls w :
  exists w' found, first_working_url E urls w = (w', Ret found) /\ advance w w' [].
Proof.
  revert w. induction urls as [|url rest IH]; intros w.
  { exists w, None. split; [done|apply advance_refl]. }
  cbn [first_working_url].
  destruct (validate_media_url_run E url w) as (w1 & Hv & _ & Ha).
  rewrite (bind_ret _ _ _ _ _ Hv). destruct (probe_ok _).
  - exists w1, (Some url). by split.
  - destruct (IH w1) as (w' & found & Hrun & Ha'). exists w', found.
    split; [exact Hrun|]. exact (advance_trans _ _ _ [] [] Ha Ha').
Qed.

Lemma report_media_run i items w :
  exists w', report_media E i items w = (w', Ret tt) /\ advance w w' [].
Proof.
  revert i w. induction items as [|item rest IH]; intros i w.
  { exists w. split; [done|apply advance_refl]. }
  cbn [report_media]. unfold get_best_media_url.
  destruct (first_working_url_run (possible_urls item) w) as (w1 & found & Hrun & Ha).
  rewrite (bind_ret _ _ _ _ _ Hrun), bind_print.
  destruct (IH (i + 1) (emit (Stdout (LogMedia (i + 1) (type_shown (mi_type item))
                                        (Py.truthy_opt found))) w1))
    as (w' & Hrun' & Ha').
  exists w'. split; [exact Hrun'|]. apply advance_print_l in Ha'.
  exact (advance_trans _ _ _ [] [] Ha Ha').
Qed.

(** The media report never raises and hands on [media_items] as
    computed from the tweet. *)
Lemma process_media_run tweet w :
  exists w', process_media E tweet w = (w', Ret (media_items_of tweet)) /\ advance w w' [].
Proof.
  unfold process_media. destruct (media_items_of tweet) as [items|].
  - rewrite bind_print.
    destruct (report_media_run 0 items (emit (Stdout LogProcessingMedia) w)) as (w' & Hrun & Ha).
    rewrite (bind_ret _ _ _ _ _ Hrun). exists w'. split; [done|]. by apply advance_print_l in Ha.
  - exists w. split; [done|apply advance_refl].
Qed.

Lemma before_delivery_run tweet w :
  exists w1,
    process_media E tweet (emit (Stdout (LogNewTweetFound (id tweet))) w)
      = (w1, Ret (media_items_of tweet))
    /\ before_delivery E tweet w = emit (Stdout (LogSendingTweet (id tweet))) w1
    /\ advance w (before_delivery E tweet w) [].
Proof.
  destruct (process_media_run tweet (emit (Stdout (LogNewTweetFound (id tweet))) w))
    as (w1 & Hrun & Ha).
  exists w1. split; [exact Hrun|].
  assert (before_delivery E tweet w = emit (Stdout (LogSendingTweet (id tweet))) w1) as ->.
  { unfold before_delivery. rewrite bind_print, (bind_ret _ _ _ _ _ Hrun). done. }
  split; [done|]. apply advance_print_r. by apply advance_print_l in Ha.
Qed.

(** A delivery call only probes, sends and prints, and when it returns
    at all it has handed at least one message to the transport. *)
Lemma delivery_run tweet w :
  exists msgs,
    advance w (delivery E tweet w).1 msgs
    /\ (forall b, (delivery E tweet w).2 = Ret b -> msgs <> []).
Proof.
  destruct (before_delivery_run tweet w) as (w1 & _ & _ & Ha). unfold delivery.
  destruct (send_telegram_message_with_media_run E (TELEGRAM_CHAT_ID E) (telegram_message tweet)
              (TELEGRAM_BOT_TOKEN E) (media_items_of tweet) (before_delivery E tweet w))
    as (w' & r & msgs & -> & Ha' & Hne).
  exists msgs. split; [|exact Hne]. exact (advance_trans _ _ _ [] msgs Ha Ha').
Qed.

Lemma save_sent_tweet_run tweet_id w :
  save_sent_tweet E tweet_id w = (saved E tweet_id w, Ret tt)
  /\ file (saved E tweet_id w)
     = match append_reply_at E (clock w) with
       | AppendOk => Some (write_line tweet_id (opened w))
       | AppendOpenFails => file w
       | AppendFailsAfter k => Some (write_prefix k [tweet_id] (opened w))
       end
  /\ appended (trace (saved E tweet_id w)) = appended (trace w) ++ [tweet_id]
  /\ sent_messages (trace (saved E tweet_id w)) = sent_messages (trace w)
  /\ pauses (trace (saved E tweet_id w)) = pauses (trace w)
  /\ exists l, trace (saved E tweet_id w) = trace w ++ l.
Proof.
  unfold saved, save_sent_tweet. destruct (append_reply_at E (clock w)); cbn [fst];
    cbn [emit tick set_file trace file];
    rewrite ?appended_app, ?sent_messages_app, ?pauses_app; cbn;
    rewrite ?app_nil_r, <- ?(assoc_L (++)); (repeat split; try done); by eexists.
Qed.

(** The media report only probes and prints lines of its own. *)
Lemma first_working_url_report urls w :
  exists l, trace (first_working_url E urls w).1 = trace w ++ l /\ Forall report_effect l.
Proof.
  revert w. induction urls as [|url rest IH]; intros w.
  { exists []. by rewrite app_nil_r. }
  cbn [first_working_url]. unfold bind at 1.
  assert (exists l1, trace (validate_media_url E url w).1 = trace w ++ l1
                     /\ Forall report_effect l1
                     /\ exists ok, (validate_media_url E url w).2 = Ret ok) as (l1 & Ht1 & Hl1 & ok & Hok).
  { unfold validate_media_url, bind, http_head, print, pure.
    destruct (head_reply E (clock w) url); cbn.
    - exists [Net (Head url)]. split; [done|]. split; [by repeat constructor|by eexists].
    - exists [Net (Head url); Stdout (LogMediaValidationFailed url)].
      rewrite <- (assoc_L (++)). split; [done|]. split; [by repeat constructor|by eexists]. }
  destruct (validate_media_url E url w) as [w1 r1]. cbn [fst snd] in *. subst r1.
  destruct ok.
  - exists l1. by split.
  - destruct (IH w1) as (l2 & Ht2 & Hl2). exists (l1 ++ l2).
    rewrite Ht2, Ht1, (assoc_L (++)). split; [done|]. by apply Forall_app.
Qed.

Lemma report_media_report i items w :
  exists l, trace (report_media E i items w).1 = trace w ++ l /\ Forall report_effect l.
Proof.
  revert i w. induction items as [|item rest IH]; intros i w.
  { exists []. by rewrite app_nil_r. }
  cbn [report_media]. unfold get_best_media_url.
  destruct (first_working_url_run (possible_urls item) w) as (w1 & found & Hrun & _).
  destruct (first_working_url_report (possible_urls item) w) as (l1 & Ht1 & Hl1).
  rewrite Hrun in Ht1. cbn [fst] in Ht1.
  rewrite (bind_ret _ _ _ _ _ Hrun), bind_print.
  match goal with |- context [report_media E (i + 1) rest ?w0] =>
    destruct (IH (i + 1) w0) as (l2 & Ht2 & Hl2) end.
  cbn [emit trace] in Ht2. rewrite Ht1 in Ht2.
  eexists (l1 ++ [_] ++ l2). split.
  - rewrite Ht2, <- !(assoc_L (++)). reflexivity.
  - apply Forall_app. split; [done|]. apply Forall_app. split; [by repeat constructor|done].
Qed.

Lemma process_media_report tweet w :
  exists l, trace (process_media E tweet w).1 = trace w ++ l /\ Forall report_effect l.
Proof.
  unfold process_media. destruct (media_items_of tweet) as [items|].
  - rewrite bind_print.
    destruct (report_media_run 0 items (emit (Stdout LogProcessingMedia) w)) as (w' & Hrun & _).
    destruct (report_media_report 0 items (emit (Stdout LogProcessingMedia) w)) as (l & Ht & Hl).
    rewrite Hrun in Ht. cbn [fst emit trace] in Ht.
    rewrite (bind_ret _ _ _ _ _ Hrun). cbn [pure fst].
    exists (Stdout LogProcessingMedia :: l). split.
    + rewrite Ht, <- (assoc_L (++)). done.
    + by constructor.
  - exists []. by rewrite app_nil_r.
Qed.

(** A tweet whose identifier is in the set: counted, reported, nothing
    else. *)
Lemma process_tweet_duplicate tweet st :
  str (id tweet) ∈ sent_tweets st ->
  process_tweet E tweet st =
    ({| the_world := emit (Stdout (LogSkippingDuplicate (id tweet))) (the_world st);
        sent_tweets := sent_tweets st;
        tweet_count := tweet_count st + 1;
        new_tweets_sent := new_tweets_sent st;
        duplicates_skipped := duplicates_skipped st + 1 |}, Ret tt).
Proof.
  intros Hin. unfold process_tweet. rewrite bind_modify, bind_get.
  cbn [incr_tweet_count sent_tweets]. rewrite decide_True by exact Hin.
  by rewrite bind_modify.
Qed.

(** A tweet whose identifier is not in the set, with the credentials
    set: what happens is decided by the outcome of its delivery call. *)
Lemma process_tweet_new tweet st :
  configured E ->
  str (id tweet) ∉ sent_tweets st ->
  process_tweet E tweet st =
    match delivery E tweet (the_world st) with
    | (w, Ret true) =>
        ({| the_world :=
              emit (Sleep 10) (emit (Stdout LogWaiting)
                (saved E (str (id tweet)) (emit (Stdout LogSentOk) w)));
            sent_tweets := sent_tweets st ∪ {[str (id tweet)]};
            tweet_count := tweet_count st + 1;
            new_tweets_sent := new_tweets_sent st + 1;
            duplicates_skipped := duplicates_skipped st |}, Ret tt)
    | (w, Ret false) =>
        ({| the_world :=
              emit (Sleep 10) (emit (Stdout LogWaiting) (emit (Stdout LogSendFailed) w));
            sent_tweets := sent_tweets st;
            tweet_count := tweet_count st + 1;
            new_tweets_sent := new_tweets_sent st;
            duplicates_skipped := duplicates_skipped st |}, Ret tt)
    | (w, Raise e) =>
        ({| the_world := w;
            sent_tweets := sent_tweets st;
            tweet_count := tweet_count st + 1;
            new_tweets_sent := new_tweets_sent st;
            duplicates_skipped := duplicates_skipped st |}, Raise e)
    end.
Proof.
  intros Hconf Hnew. unfold process_tweet. rewrite bind_modify, bind_get.
  cbn [incr_tweet_count sent_tweets]. rewrite decide_False by exact Hnew.
  destruct (before_delivery_run tweet (the_world st)) as (w1 & Hpm & Hbefore & _).
  unfold delivery. rewrite Hbefore.
  rewrite (bind_in_world_ret (print _) _ _ _ tt (eq_refl _)).
  erewrite (bind_in_world_ret (process_media E tweet))
    by (cbn [with_world the_world incr_tweet_count]; exact Hpm).
  unfold configured in Hconf. rewrite Hconf.
  rewrite (bind_in_world_ret (print _) _ _ _ tt (eq_refl _)).
  cbn [with_world the_world sent_tweets tweet_count new_tweets_sent duplicates_skipped].
  destruct (send_telegram_message_with_media E _ _ _ _ _) as [w [[|]|e]] eqn:Hd.
  - erewrite bind_in_world_ret by (cbn [the_world]; exact Hd).
    destruct (save_sent_tweet_run (str (id tweet)) (emit (Stdout LogSentOk) w)) as (Hsave & _).
    unfold bind, in_world, modify. cbn. rewrite Hsave. reflexivity.
  - erewrite bind_in_world_ret by (cbn [the_world]; exact Hd). reflexivity.
  - erewrite bind_in_world_raise by (cbn [the_world]; exact Hd). reflexivity.
Qed.

(** Without credentials nothing is sent and nothing recorded. *)
Lemma process_tweet_unconfigured tweet st :
  ~ configured E ->
  str (id tweet) ∉ sent_tweets st ->
  exists w,
    process_tweet E tweet st =
      ({| the_world := w;
          sent_tweets := sent_tweets st;
          tweet_count := tweet_count st + 1;
          new_tweets_sent := new_tweets_sent st;
          duplicates_skipped := duplicates_skipped st |}, Ret tt)
    /\ advance (the_world st) w [].
Proof.
  intros Hconf Hnew. unfold process_tweet. rewrite bind_modify, bind_get.
  cbn [incr_tweet_count sent_tweets]. rewrite decide_False by exact Hnew.
  destruct (before_delivery_run tweet (the_world st)) as (w1 & Hpm & _ & _).
  rewrite (bind_in_world_ret (print _) _ _ _ tt (eq_refl _)).
  erewrite (bind_in_world_ret (process_media E tweet))
    by (cbn [with_world the_world incr_tweet_count]; exact Hpm).
  unfold configured in Hconf. apply not_true_is_false in Hconf. rewrite Hconf.
  eexists. split; [reflexivity|].
  destruct (process_media_run tweet (emit (Stdout (LogNewTweetFound (id tweet))) (the_world st)))
    as (w1' & Hpm' & Ha). rewrite Hpm in Hpm'. injection Hpm' as <-.
  apply advance_print_r. by apply advance_print_l in Ha.
Qed.

Lemma for_each_tweet_app pre rest st :
  for_each_tweet E (pre ++ rest) st = (for_each_tweet E pre >> for_each_tweet E rest) st.
Proof.
  revert st. induction pre as [|tweet pre IH]; intros st; [done|].
  cbn [app for_each_tweet]. unfold bind.
  destruct (process_tweet E tweet st) as [st1 [[]|e]]; [|done].
  rewrite IH. reflexivity.
Qed.

(** A tweet that the loop reaches in state [st] is handled by
    [process_tweet] there, and the loop goes on from what that leaves. *)
Lemma for_each_tweet_reaches pre tweet rest st0 st :
  for_each_tweet E pre st0 = (st, Ret tt) ->
  for_each_tweet E (pre ++ tweet :: rest) st0
  = (process_tweet E tweet >> for_each_tweet E rest) st.
Proof.
  intros Hpre. rewrite for_each_tweet_app. by rewrite (bind_ret _ _ _ _ _ Hpre).
Qed.

End CycleFacts.


(** ** Cycle engine: what one examined tweet leaves behind *)

Section CycleStep.

Variable E : environment.

Lemma advance_file w w' msgs : advance w w' msgs -> file w' = file w.
Proof. by intros [[? _] _]. Qed.

Lemma advance_store w w' msgs : advance w w' msgs -> store w' = store w.
Proof. intros H. by apply file_store, (advance_file _ _ msgs). Qed.

Lemma advance_grows w w' msgs : advance w w' msgs -> exists l, trace w' = trace w ++ l.
Proof. intros [[_ (l & Hl & _)] _]. by exists l. Qed.

Lemma advance_appended w w' msgs :
  advance w w' msgs -> appended (trace w') = appended (trace w).
Proof. intros [? _]. by apply net_only_appended. Qed.

Lemma advance_pauses w w' msgs :
  advance w w' msgs -> pauses (trace w') = pauses (trace w).
Proof. intros [? _]. by apply net_only_pauses. Qed.

Lemma advance_sent_messages w w' msgs :
  advance w w' msgs -> sent_messages (trace w') = sent_messages (trace w) ++ msgs.
Proof. by intros [_ ?]. Qed.

(** The observable effect of examining a tweet that is not in the set,
    by the outcome of its delivery call. *)
Lemma process_tweet_new_effects tweet st :
  configured E ->
  str (id tweet) ∉ sent_tweets st ->
  let d := delivery E tweet (the_world st) in
  let run := process_tweet E tweet st in
  let w := the_world st in
  let w' := the_world run.1 in
  tweet_count run.1 = tweet_count st + 1
  /\ duplicates_skipped run.1 = duplicates_skipped st
  /\ match d.2 with
     | Ret true =>
         run.2 = Ret tt
         /\ sent_tweets run.1 = sent_tweets st ∪ {[str (id tweet)]}
         /\ new_tweets_sent run.1 = new_tweets_sent st + 1
         /\ appended (trace w') = appended (trace w) ++ [str (id tweet)]
         /\ file w' = match append_reply_at E (clock d.1) with
                      | AppendOk => Some (write_line (str (id tweet)) (opened w))
                      | AppendOpenFails => file w
                      | AppendFailsAfter k =>
                          Some (write_prefix k [str (id tweet)] (opened w))
                      end
         /\ pauses (trace w') = pauses (trace w) ++ [10]
         /\ trace w' = trace (saved E (str (id tweet)) (emit (Stdout LogSentOk) d.1))
                       ++ [Stdout LogWaiting; Sleep 10]
     | Ret false =>
         run.2 = Ret tt
         /\ sent_tweets run.1 = sent_tweets st
         /\ new_tweets_sent run.1 = new_tweets_sent st
         /\ appended (trace w') = appended (trace w)
         /\ file w' = file w
         /\ pauses (trace w') = pauses (trace w) ++ [10]
         /\ trace w' = trace d.1 ++ [Stdout LogSendFailed; Stdout LogWaiting; Sleep 10]
     | Raise e =>
         run.2 = Raise e
         /\ sent_tweets run.1 = sent_tweets st
         /\ new_tweets_sent run.1 = new_tweets_sent st
         /\ appended (trace w') = appended (trace w)
         /\ file w' = file w
         /\ pauses (trace w') = pauses (trace w)
         /\ w' = d.1
     end.
Proof.
  intros Hconf Hnew. cbv zeta.
  rewrite (process_tweet_new E tweet st Hconf Hnew).
  destruct (delivery_run E tweet (the_world st)) as (msgs & Ha & _).
  destruct (delivery E tweet (the_world st)) as [wd r]. cbn [fst snd] in *.
  pose proof (advance_file _ _ _ Ha) as Hfile.
  pose proof (advance_appended _ _ _ Ha) as Happ.
  pose proof (advance_pauses _ _ _ Ha) as Hpause.
  destruct r as [[|]|e]; cbn [fst snd the_world tweet_count duplicates_skipped
                                sent_tweets new_tweets_sent].
  - destruct (save_sent_tweet_run E (str (id tweet)) (emit (Stdout LogSentOk) wd))
      as (_ & Hs & Hap & _ & Hp & _).
    split; [done|]. split; [done|]. split; [done|]. split; [done|]. split; [done|].
    cbn [emit trace file clock] in *. unfold opened in *. cbn [emit file] in Hs.
    rewrite !appended_app, !pauses_app, Hap, Hp, appended_app, pauses_app, Happ, Hpause.
    rewrite Hs, Hfile. cbn. rewrite !app_nil_r, <- !(assoc_L (++)). done.
  - split; [done|]. split; [done|]. split; [done|]. split; [done|]. split; [done|].
    cbn [emit trace file clock].
    rewrite !appended_app, !pauses_app, Happ, Hpause. cbn.
    rewrite !app_nil_r, <- !(assoc_L (++)). done.
  - done.
Qed.

(** C1, as the code has it.  For the tweet the loop reaches in state
    [st]: if its identifier is new and both credentials are set, the
    identifier is in the set afterwards exactly when its delivery call
    returned [True]; in that case one append of the identifier is
    attempted.  When the append
    goes through, the identifier and a line feed are put at the end of
    the file as it is: after a file that ends with a line feed, or is
    empty or missing, the identifier is a new line; after a file whose
    last line has no line feed, the identifier continues that line.
    When the append fails, the file is as it was if it could not be
    opened, and otherwise holds in addition the characters that got
    through.  When the delivery call returns [False] or raises, neither
    the set nor the file changes and no append is attempted.  With a
    credential left empty no delivery call is made, and a tweet already
    in the set is passed over: both change neither the set nor the
    file. *)
Theorem seen_set_records_successes st0 pre tweet rest st :
  for_each_tweet E pre st0 = (st, Ret tt) ->
  let tweet_id_str := str (id tweet) in
  let d := delivery E tweet (the_world st) in
  let st' := (process_tweet E tweet st).1 in
  let w := the_world st in
  let w' := the_world st' in
  let reply := append_reply_at E (clock d.1) in
  for_each_tweet E (pre ++ tweet :: rest) st0
    = (process_tweet E tweet >> for_each_tweet E rest) st
  /\ (tweet_id_str ∉ sent_tweets st -> configured E ->
        (tweet_id_str ∈ sent_tweets st' <-> d.2 = Ret true)
        /\ (d.2 = Ret true ->
              sent_tweets st' = sent_tweets st ∪ {[tweet_id_str]}
              /\ appended (trace w') = appended (trace w) ++ [tweet_id_str]
              /\ (forall lines last,
                    opened w = (lines, last) ->
                    (reply = AppendOk ->
                       file w' = Some (lines ++ [last +:+ tweet_id_str], EmptyString)
                       /\ store w' = Some (lines ++ [last +:+ tweet_id_str]))
                    /\ (forall k, reply = AppendFailsAfter k ->
                          file w'
                          = Some (if (k <=? String.length tweet_id_str)%nat
                                  then (lines, last +:+ String.substring 0 k tweet_id_str)
                                  else (lines ++ [last +:+ tweet_id_str], EmptyString))))
              /\ (reply = AppendOpenFails -> file w' = file w))
        /\ (d.2 <> Ret true ->
              sent_tweets st' = sent_tweets st
              /\ appended (trace w') = appended (trace w)
              /\ file w' = file w))
  /\ (tweet_id_str ∉ sent_tweets st -> ~ configured E ->
        sent_tweets st' = sent_tweets st
        /\ appended (trace w') = appended (trace w)
        /\ sent_messages (trace w') = sent_messages (trace w)
        /\ file w' = file w)
  /\ (tweet_id_str ∈ sent_tweets st ->
        sent_tweets st' = sent_tweets st
        /\ appended (trace w') = appended (trace w)
        /\ file w' = file w).
Proof.
  intros Hpre tweet_id_str d st' w w' reply.
  split; [by apply for_each_tweet_reaches|]. split; [|split].
  2: { intros Hnew Hconf. subst st' w' w.
       destruct (process_tweet_unconfigured E tweet st Hconf Hnew) as (w1 & -> & Ha).
       cbn [fst the_world sent_tweets]. split; [done|].
       split; [exact (advance_appended _ _ _ Ha)|].
       split; [|exact (advance_file _ _ _ Ha)].
       destruct Ha as [_ Hm]. by rewrite Hm, app_nil_r. }
  - intros Hnew Hconf.
    destruct (process_tweet_new_effects tweet st Hconf Hnew) as (_ & _ & Heff).
    fold d st' w w' tweet_id_str reply in Heff.
    destruct (d.2) as [[|]|e].
    + destruct Heff as (_ & Hs & _ & Ha & Hst & _).
      split; [|split; [|by intros []]].
      { split; [done|]. intros _. rewrite Hs. apply elem_of_union_r. by apply elem_of_singleton. }
      intros _. split; [done|]. split; [done|]. split.
      * intros lines last Hopen. rewrite Hopen in Hst. split.
        -- intros Hok. rewrite Hok in Hst. rewrite Hst. split; [done|].
           unfold store. by rewrite Hst.
        -- intros k Hk. rewrite Hk in Hst. rewrite Hst. cbn [write_prefix fst snd].
           by destruct (k <=? String.length tweet_id_str)%nat.
      * intros Hfail. by rewrite Hfail in Hst.
    + destruct Heff as (_ & Hs & _ & Ha & Hst & _).
      split; [|split; [done|by intros _]].
      rewrite Hs. split; [done|discriminate].
    + destruct Heff as (_ & Hs & _ & Ha & Hst & _).
      split; [|split; [done|by intros _]].
      rewrite Hs. split; [done|discriminate].
  - intros Hdup. subst st' w'.
    rewrite (process_tweet_duplicate E tweet st Hdup). cbn.
    rewrite appended_app. cbn. by rewrite app_nil_r.
Qed.

(** C2, as the code has it.  For the tweet the loop reaches in state
    [st]: the delivery call is made exactly when its identifier is not
    in the set and both credentials are set; messages only go to the
    transport in that case, and a delivery call that returns has handed
    over at least one.  With an identifier that is not in the set and a
    credential left empty, nothing is sent and nothing recorded, and the
    tweet is counted but not as a duplicate.  A duplicate is counted as
    such and leaves one printed line behind and nothing else: no
    message, no probe, no append, no pause, the same file, the same set
    and the same sent counter; the loop then goes on with the next
    tweet. *)
Theorem delivery_iff_unseen st0 pre tweet rest st :
  for_each_tweet E pre st0 = (st, Ret tt) ->
  let tweet_id_str := str (id tweet) in
  let st' := (process_tweet E tweet st).1 in
  let w := the_world st in
  let w' := the_world st' in
  for_each_tweet E (pre ++ tweet :: rest) st0
    = (process_tweet E tweet >> for_each_tweet E rest) st
  /\ (attempted tweet w w' <-> (tweet_id_str ∉ sent_tweets st) /\ configured E)
  /\ (sent_messages (trace w') <> sent_messages (trace w) ->
        (tweet_id_str ∉ sent_tweets st) /\ configured E)
  /\ (tweet_id_str ∉ sent_tweets st -> configured E ->
        exists msgs,
          advance w (delivery E tweet w).1 msgs
          /\ (forall b, (delivery E tweet w).2 = Ret b -> msgs <> [])
          /\ duplicates_skipped st' = duplicates_skipped st
          /\ exists l, trace w' = trace (delivery E tweet w).1 ++ l)
  /\ (tweet_id_str ∉ sent_tweets st -> ~ configured E ->
        process_tweet E tweet st = (st', Ret tt)
        /\ advance w w' []
        /\ appended (trace w') = appended (trace w)
        /\ pauses (trace w') = pauses (trace w)
        /\ sent_tweets st' = sent_tweets st
        /\ new_tweets_sent st' = new_tweets_sent st
        /\ duplicates_skipped st' = duplicates_skipped st
        /\ tweet_count st' = tweet_count st + 1)
  /\ (tweet_id_str ∈ sent_tweets st ->
        process_tweet E tweet st = (st', Ret tt)
        /\ for_each_tweet E (pre ++ tweet :: rest) st0 = for_each_tweet E rest st'
        /\ duplicates_skipped st' = duplicates_skipped st + 1
        /\ tweet_count st' = tweet_count st + 1
        /\ new_tweets_sent st' = new_tweets_sent st
        /\ sent_tweets st' = sent_tweets st
        /\ file w' = file w
        /\ store w' = store w
        /\ clock w' = clock w
        /\ trace w' = trace w ++ [Stdout (LogSkippingDuplicate (id tweet))]).
Proof.
  intros Hpre tweet_id_str st' w w'.
  pose proof (for_each_tweet_reaches E pre tweet rest st0 st Hpre) as Hreach.
  assert (tweet_id_str ∉ sent_tweets st -> configured E ->
          exists msgs,
            advance w (delivery E tweet w).1 msgs
            /\ (forall b, (delivery E tweet w).2 = Ret b -> msgs <> [])
            /\ duplicates_skipped st' = duplicates_skipped st
            /\ exists l, trace w' = trace (delivery E tweet w).1 ++ l) as Hnew.
  { intros Hnew Hconf. destruct (delivery_run E tweet w) as (msgs & Ha & Hne).
    destruct (process_tweet_new_effects tweet st Hconf Hnew) as (_ & Hd & Heff).
    fold st' w w' in Heff, Hd.
    exists msgs. split; [done|]. split; [done|]. split; [done|].
    destruct ((delivery E tweet w).2) as [[|]|e].
    - destruct Heff as (_ & _ & _ & _ & _ & _ & ->).
      destruct (save_sent_tweet_run E (str (id tweet))
                  (emit (Stdout LogSentOk) (delivery E tweet w).1))
        as (_ & _ & _ & _ & _ & l & ->).
      cbn [emit trace]. rewrite <- !(assoc_L (++)). by eexists.
    - destruct Heff as (_ & _ & _ & _ & _ & _ & ->). by eexists.
    - destruct Heff as (_ & _ & _ & _ & _ & _ & ->). exists []. by rewrite app_nil_r. }
  assert (tweet_id_str ∈ sent_tweets st ->
          process_tweet E tweet st = (st', Ret tt)
          /\ trace w' = trace w ++ [Stdout (LogSkippingDuplicate (id tweet))]) as Hdup.
  { intros Hin. subst st' w'. by rewrite (process_tweet_duplicate E tweet st Hin). }
  assert (tweet_id_str ∉ sent_tweets st -> ~ configured E ->
          process_tweet E tweet st = (st', Ret tt)
          /\ advance w w' []
          /\ sent_tweets st' = sent_tweets st
          /\ new_tweets_sent st' = new_tweets_sent st
          /\ duplicates_skipped st' = duplicates_skipped st
          /\ tweet_count st' = tweet_count st + 1
          /\ exists l, trace w' = trace w ++ l
                       /\ Forall (fun e => report_effect e
                                           \/ e = Stdout (LogNewTweetFound (id tweet))
                                           \/ e = Stdout LogNotConfigured) l) as Hoff.
  { intros Hnot Hconf.
    destruct (process_tweet_unconfigured E tweet st Hconf Hnot) as (w1 & Hrun & Ha).
    subst st' w'. rewrite Hrun. cbn [fst the_world sent_tweets new_tweets_sent
                                     duplicates_skipped tweet_count].
    split; [done|]. split; [done|]. split; [done|]. split; [done|]. split; [done|].
    split; [done|].
    revert Hrun. unfold process_tweet. rewrite bind_modify, bind_get.
    cbn [incr_tweet_count sent_tweets]. rewrite decide_False by exact Hnot.
    destruct (before_delivery_run E tweet (the_world st)) as (w2 & Hpm & _ & _).
    rewrite (bind_in_world_ret (print _) _ _ _ tt (eq_refl _)).
    erewrite (bind_in_world_ret (process_media E tweet))
      by (cbn [with_world the_world incr_tweet_count]; exact Hpm).
    unfold configured in Hconf. apply not_true_is_false in Hconf. rewrite Hconf.
    intros Hrun. injection Hrun as <-.
    destruct (process_media_report E tweet
                (emit (Stdout (LogNewTweetFound (id tweet))) (the_world st)))
      as (l & Ht & Hl).
    rewrite Hpm in Ht. cbn [fst emit trace] in Ht.
    exists ([Stdout (LogNewTweetFound (id tweet))] ++ l ++ [Stdout LogNotConfigured]).
    split.
    - cbn [emit trace]. rewrite Ht, <- !(assoc_L (++)). done.
    - apply Forall_app. split; [constructor; [right; by left|constructor]|].
      apply Forall_app. split.
      + eapply Forall_impl; [exact Hl|]. intros e He. by left.
      + constructor; [right; by right|constructor]. }
  split; [exact Hreach|]. split; [|split; [|split; [exact Hnew|split]]].
  - split.
    + intros (l & Hl & Hin).
      destruct (decide (tweet_id_str ∈ sent_tweets st)) as [Hseen|Hnot].
      { destruct (Hdup Hseen) as [_ Ht]. rewrite Ht in Hl. apply app_inv_head in Hl.
        subst l. apply list_elem_of_singleton in Hin. discriminate. }
      split; [done|].
      destruct (decide (configured E)) as [Hconf|Hconf]; [done|].
      destruct (Hoff Hnot Hconf) as (_ & _ & _ & _ & _ & _ & l' & Ht & Hl').
      rewrite Ht in Hl. apply app_inv_head in Hl. subst l'.
      rewrite Forall_forall in Hl'. destruct (Hl' _ Hin) as [Hr|[Hr|Hr]]; done.
    + intros [Hnot Hconf].
      destruct (Hnew Hnot Hconf) as (msgs & Ha & _ & _ & l & Hl).
      destruct (before_delivery_run E tweet w) as (w1 & Hpm & Hbefore & Hab).
      destruct (process_media_run E tweet (emit (Stdout (LogNewTweetFound (id tweet))) w))
        as (w1' & Hpm' & Ha1). rewrite Hpm in Hpm'. injection Hpm' as <-.
      apply advance_print_l, advance_grows in Ha1 as [l1 Hl1].
      assert (exists l2, trace (delivery E tweet w).1
                         = trace (before_delivery E tweet w) ++ l2) as [l2 Hl2].
      { unfold delivery.
        destruct (send_telegram_message_with_media_run E (TELEGRAM_CHAT_ID E)
                    (telegram_message tweet) (TELEGRAM_BOT_TOKEN E) (media_items_of tweet)
                    (before_delivery E tweet w)) as (wd & r & msgs' & -> & Ha' & _).
        by apply advance_grows in Ha'. }
      exists (l1 ++ [Stdout (LogSendingTweet (id tweet))] ++ l2 ++ l). split.
      * rewrite Hl, Hl2, Hbefore. cbn [emit trace]. rewrite Hl1, <- !(assoc_L (++)). done.
      * apply elem_of_app. right. apply elem_of_app. left. by apply list_elem_of_singleton.
  - intros Hsent.
    destruct (decide (tweet_id_str ∈ sent_tweets st)) as [Hseen|Hnot].
    { destruct Hsent. destruct (Hdup Hseen) as [_ ->].
      rewrite sent_messages_app. cbn. by rewrite app_nil_r. }
    split; [done|].
    destruct (decide (configured E)) as [Hconf|Hconf]; [done|].
    destruct Hsent. destruct (Hoff Hnot Hconf) as (_ & Ha & _).
    rewrite (advance_sent_messages _ _ _ Ha). by rewrite app_nil_r.
  - intros Hnot Hconf.
    destruct (Hoff Hnot Hconf) as (Hrun & Ha & Hs & Hn & Hd & Hc & _).
    split; [done|]. split; [done|].
    split; [exact (advance_appended _ _ _ Ha)|]. split; [exact (advance_pauses _ _ _ Ha)|].
    done.
  - intros Hin. destruct (Hdup Hin) as [Hrun Htrace].
    split; [exact Hrun|]. split.
    { rewrite Hreach. by rewrite (bind_ret _ _ _ _ _ Hrun). }
    subst st' w'. rewrite (process_tweet_duplicate E tweet st Hin). done.
Qed.


(** ** Cycle engine: the whole cycle *)

(** Every increment of the sent counter comes with one attempted
    append, whatever the outcome of examining the tweet. *)
Lemma process_tweet_count tweet st :
  let run := process_tweet E tweet st in
  new_tweets_sent run.1 + length (appended (trace (the_world st)))
  = new_tweets_sent st + length (appended (trace (the_world run.1))).
Proof.
  cbv zeta. destruct (decide (str (id tweet) ∈ sent_tweets st)) as [Hdup|Hnew].
  { rewrite (process_tweet_duplicate E tweet st Hdup). cbn.
    rewrite appended_app. cbn. rewrite app_nil_r. lia. }
  destruct (decide (configured E)) as [Hconf|Hconf].
  - destruct (process_tweet_new_effects tweet st Hconf Hnew) as (_ & _ & Heff).
    destruct ((delivery E tweet (the_world st)).2) as [[|]|e].
    + destruct Heff as (_ & _ & -> & -> & _). rewrite length_app. simpl. lia.
    + destruct Heff as (_ & _ & -> & -> & _). lia.
    + destruct Heff as (_ & _ & -> & -> & _). lia.
  - destruct (process_tweet_unconfigured E tweet st Hconf Hnew) as (w & -> & Ha).
    cbn. rewrite (advance_appended _ _ _ Ha). lia.
Qed.

Lemma for_each_tweet_count tweets st :
  let run := for_each_tweet E tweets st in
  new_tweets_sent run.1 + length (appended (trace (the_world st)))
  = new_tweets_sent st + length (appended (trace (the_world run.1))).
Proof.
  cbv zeta. revert st. induction tweets as [|tweet rest IH]; intros st; [done|].
  cbn [for_each_tweet]. unfold bind.
  pose proof (process_tweet_count tweet st) as Hstep. cbv zeta in Hstep.
  destruct (process_tweet E tweet st) as [st1 [[]|e]]; cbn [fst] in *; [|lia].
  specialize (IH st1). lia.
Qed.

Lemma perform_scraping_cycle_run s st :
  perform_scraping_cycle E s st = cycle_outcome E s st.
Proof.
  unfold cycle_outcome. cbv zeta. unfold perform_scraping_cycle, iterate.
  rewrite (bind_in_world_ret (print _) _ _ _ tt (eq_refl _)), bind_modify.
  fold (searching st). unfold bind at 1, try_except, bind at 1.
  destruct (for_each_tweet E (yielded s) (searching st)) as [st2 [[]|e]]; cbn [fst snd].
  - destruct (stream_fault s) as [e|]; reflexivity.
  - reflexivity.
Qed.

(** C8.  A stream that raises after yielding [tweets] leaves the cycle
    where the loop over [tweets] left it: the set, the file, the
    appends, the messages and the counters are those the loop produced,
    two more lines are printed, and the function returns the sent
    counter instead of raising, as it does for the same tweets from a
    stream that ends normally.  Whatever the stream and whatever raises
    inside the loop, the cycle returns its sent counter; and the
    counter is the number of identifiers the cycle recorded. *)
Theorem cycle_contains_stream_fault tweets e st :
  let loop := for_each_tweet E tweets (searching st) in
  let faulty := perform_scraping_cycle E {| yielded := tweets; stream_fault := Some e |} st in
  let clean := perform_scraping_cycle E {| yielded := tweets; stream_fault := None |} st in
  faulty.2 = Ret (new_tweets_sent loop.1)
  /\ faulty.2 = clean.2
  /\ sent_tweets faulty.1 = sent_tweets loop.1
  /\ store (the_world faulty.1) = store (the_world loop.1)
  /\ appended (trace (the_world faulty.1)) = appended (trace (the_world loop.1))
  /\ sent_messages (trace (the_world faulty.1)) = sent_messages (trace (the_world loop.1))
  /\ new_tweets_sent faulty.1 = new_tweets_sent loop.1
  /\ tweet_count faulty.1 = tweet_count loop.1
  /\ duplicates_skipped faulty.1 = duplicates_skipped loop.1
  /\ (exists e',
        trace (the_world faulty.1)
        = trace (the_world loop.1)
          ++ [Stdout (LogCycleError e');
              Stdout (LogCycleResults (tweet_count loop.1) (new_tweets_sent loop.1)
                        (duplicates_skipped loop.1))])
  /\ (loop.2 = Ret tt ->
        trace (the_world faulty.1)
        = trace (the_world loop.1)
          ++ [Stdout (LogCycleError e);
              Stdout (LogCycleResults (tweet_count loop.1) (new_tweets_sent loop.1)
                        (duplicates_skipped loop.1))])
  /\ (forall s st0, exists n,
        (perform_scraping_cycle E s st0).2 = Ret n
        /\ n = new_tweets_sent (perform_scraping_cycle E s st0).1)
  /\ new_tweets_sent loop.1 + length (appended (trace (the_world st)))
     = length (appended (trace (the_world loop.1))).
Proof.
  cbv zeta.
  assert (forall s st0, exists n,
            (perform_scraping_cycle E s st0).2 = Ret n
            /\ n = new_tweets_sent (perform_scraping_cycle E s st0).1) as Hreturns.
  { intros s st0. rewrite perform_scraping_cycle_run. unfold cycle_outcome. by eexists. }
  revert Hreturns. generalize (forall s st0, exists n,
            (perform_scraping_cycle E s st0).2 = Ret n
            /\ n = new_tweets_sent (perform_scraping_cycle E s st0).1). intros P HP.
  rewrite !perform_scraping_cycle_run. unfold cycle_outcome.
  cbn [yielded stream_fault fst snd].
  set (loop := for_each_tweet E tweets (searching st)).
  split; [done|]. split; [done|]. split; [done|].
  assert (exists e', match loop.2 with Raise e0 => Some e0 | Ret _ => Some e end = Some e'
                     /\ (loop.2 = Ret tt -> e' = e)) as (e' & -> & He).
  { destruct (loop.2) as [[]|e0]; eexists; (split; [reflexivity|]); [done|discriminate]. }
  cbn [with_world the_world sent_tweets tweet_count new_tweets_sent duplicates_skipped
       emit trace store].
  rewrite !appended_app, !sent_messages_app. cbn. rewrite !app_nil_r.
  split; [done|]. split; [done|]. split; [done|]. split; [done|]. split; [done|].
  split; [done|]. split; [exists e'; by rewrite <- (assoc_L (++))|].
  split; [intros Hret; rewrite (He Hret); by rewrite <- (assoc_L (++))|].
  split.
  - exact HP.
  - pose proof (for_each_tweet_count tweets (searching st)) as Hcount. cbv zeta in Hcount.
    fold loop in Hcount. cbn in Hcount. rewrite appended_app in Hcount. cbn in Hcount.
    rewrite app_nil_r in Hcount. exact Hcount.
Qed.

End CycleStep.

Lemma seen_set_records_successes_witness :
  let st := enter_cycle {["2"]} (world_with_open_store ["3"] "2") in
  let st' := (process_tweet friendly (text_tweet 1) st).1 in
  sent_tweets st' = sent_tweets st ∪ {[str 1]}
  /\ appended (trace (the_world st')) = appended (trace (the_world st)) ++ [str 1]
  /\ store (the_world st') = Some ["3"; "21"].
Proof.
  cbv zeta.
  destruct (seen_set_records_successes friendly
              (enter_cycle {["2"]} (world_with_open_store ["3"] "2")) [] (text_tweet 1) []
              (enter_cycle {["2"]} (world_with_open_store ["3"] "2")) eq_refl)
    as (_ & Hnew & _).
  destruct Hnew as (_ & Hsuccess & _).
  - apply (bool_decide_unpack _). by vm_compute.
  - reflexivity.
  - destruct (Hsuccess eq_refl) as (Hset & Happ & Hfile & _).
    split; [exact Hset|]. split; [exact Happ|].
    exact (proj2 (proj1 (Hfile ["3"] "2" eq_refl) eq_refl)).
Defined.

(** C1 as worded fails on the file.  The delivery succeeds and the
    identifier enters the set, but the append is refused, and the file,
    which did not exist, still does not.  And when the append goes
    through on a file whose last line ["2"] has no line feed, no line is
    added: the last line becomes ["21"], and neither ["1"] nor ["2"] is
    a line of the file afterwards. *)
Lemma seen_set_records_successes_counterexample :
  let st := enter_cycle ∅ fresh_world in
  let run := process_tweet append_refused (text_tweet 1) st in
  let open := enter_cycle {["2"]} (world_with_open_store [] "2") in
  let glued := process_tweet friendly (text_tweet 1) open in
  (delivery append_refused (text_tweet 1) (the_world st)).2 = Ret true
  /\ sent_tweets run.1 = {[str 1]}
  /\ appended (trace (the_world run.1)) = ["1"]
  /\ store (the_world st) = None
  /\ store (the_world run.1) = None
  /\ (delivery friendly (text_tweet 1) (the_world open)).2 = Ret true
  /\ store (the_world open) = Some ["2"]
  /\ appended (trace (the_world glued.1)) = ["1"]
  /\ store (the_world glued.1) = Some ["21"].
Proof. cbv zeta. repeat split; by vm_compute. Qed.

Lemma delivery_iff_unseen_witness :
  let st := enter_cycle {["1"]} (world_with_store ["1"]) in
  let st' := (process_tweet friendly (text_tweet 1) st).1 in
  duplicates_skipped st' = duplicates_skipped st + 1
  /\ trace (the_world st') = trace (the_world st) ++ [Stdout (LogSkippingDuplicate 1)].
Proof.
  cbv zeta.
  destruct (delivery_iff_unseen friendly
              (enter_cycle {["1"]} (world_with_store ["1"])) [] (text_tweet 1) []
              (enter_cycle {["1"]} (world_with_store ["1"])) eq_refl)
    as (_ & _ & _ & _ & _ & Hdup).
  destruct Hdup as (_ & _ & Hcount & _ & _ & _ & _ & _ & _ & Htrace).
  - apply (bool_decide_unpack _). by vm_compute.
  - split; [exact Hcount|exact Htrace].
Defined.

(** C2 as worded fails: with the chat identifier left empty, a tweet
    whose identifier is not in the set is examined and announced, but
    the delivery call is not made and nothing goes to the transport; the
    tweet is counted, not as a duplicate. *)
Lemma delivery_iff_unseen_counterexample :
  let st := enter_cycle ∅ fresh_world in
  let run := process_tweet no_chat_id (text_tweet 1) st in
  (str (id (text_tweet 1)) ∉ sent_tweets st)
  /\ run.2 = Ret tt
  /\ trace (the_world run.1) = [Stdout (LogNewTweetFound 1); Stdout LogNotConfigured]
  /\ sent_messages (trace (the_world run.1)) = []
  /\ ~ attempted (text_tweet 1) (the_world st) (the_world run.1)
  /\ tweet_count run.1 = 1
  /\ duplicates_skipped run.1 = 0.
Proof.
  cbv zeta. split; [apply not_elem_of_empty|].
  split; [reflexivity|]. split; [reflexivity|]. split; [reflexivity|].
  split; [|split; reflexivity].
  intros (l & Hl & Hin).
  change (trace (the_world (process_tweet no_chat_id (text_tweet 1)
                              (enter_cycle ∅ fresh_world)).1))
    with ([] ++ [Stdout (LogNewTweetFound 1); Stdout LogNotConfigured]) in Hl.
  apply app_inv_head in Hl. subst l.
  apply elem_of_cons in Hin as [Hin|Hin]; [discriminate|].
  apply list_elem_of_singleton in Hin. discriminate.
Qed.



Example cycle_sample :
  let s := {| yielded := [text_tweet 1; text_tweet 2; text_tweet 1];
              stream_fault := Some (Exn "transport error") |} in
  let run := perform_scraping_cycle friendly s (enter_cycle {[ "2" ]} fresh_world) in
  run.2 = Ret 1
  /\ sent_tweets run.1 = {[ "1"; "2" ]}
  /\ store (the_world run.1) = Some ["1"]
  /\ tweet_count run.1 = 3
  /\ duplicates_skipped run.1 = 2.
Proof. cbv zeta. repeat split; by vm_compute. Qed.

Lemma cycle_contains_stream_fault_witness :
  let tweets := [text_tweet 1; text_tweet 2] in
  let e := Exn "transport error" in
  let st := enter_cycle ∅ fresh_world in
  let loop := for_each_tweet friendly tweets (searching st) in
  let faulty :=
    perform_scraping_cycle friendly {| yielded := tweets; stream_fault := Some e |} st in
  faulty.2 = Ret 2
  /\ trace (the_world faulty.1)
     = trace (the_world loop.1)
       ++ [Stdout (LogCycleError e);
           Stdout (LogCycleResults (tweet_count loop.1) (new_tweets_sent loop.1)
                     (duplicates_skipped loop.1))].
Proof.
  cbv zeta.
  destruct (cycle_contains_stream_fault friendly [text_tweet 1; text_tweet 2]
              (Exn "transport error") (enter_cycle ∅ fresh_world))
    as (Hret & _ & _ & _ & _ & _ & _ & _ & _ & _ & Htrace & _).
  split; [exact Hret|]. apply Htrace. reflexivity.
Defined.

(** * Further properties *)

(** ** Markup sanitizer: algebra of the escape *)

Lemma chars_inj s t : chars s = chars t -> s = t.
Proof.
  intros H. rewrite <- (string_of_list_ascii_of_string s), <- (string_of_list_ascii_of_string t).
  unfold chars in H. by rewrite H.
Qed.

Lemma chars_length s : length (chars s) = String.length s.
Proof. induction s as [|c s IH]; simpl; [done|]. by rewrite IH. Qed.

Lemma escaped_char_not_nil reserved c : escaped_char reserved c <> [].
Proof. unfold escaped_char. by case_bool_decide. Qed.

(** An escaped text never begins with a reserved character. *)
Lemma escaped_head_not_reserved reserved l c rest :
  backslash ∉ reserved ->
  flat_map (escaped_char reserved) l = c :: rest -> c ∉ reserved.
Proof.
  intros Hbs. destruct l as [|x l]; simpl; [done|].
  unfold escaped_char at 1. case_bool_decide as Hx; simpl; intros [= <- _]; done.
Qed.

Lemma escaped_inj reserved l1 l2 :
  backslash ∉ reserved ->
  flat_map (escaped_char reserved) l1 = flat_map (escaped_char reserved) l2 ->
  l1 = l2.
Proof.
  intros Hbs. revert l2. induction l1 as [|x l1 IH]; intros [|y l2]; simpl; try done.
  - intros H. symmetry in H. apply app_eq_nil in H as [H _].
    by apply escaped_char_not_nil in H.
  - intros H. apply app_eq_nil in H as [H _]. by apply escaped_char_not_nil in H.
  - unfold escaped_char at 1 3.
    case_bool_decide as Hx; case_bool_decide as Hy; simpl.
    + intros [= -> H]. f_equal. by apply IH.
    + intros [= <- H]. symmetry in H.
      apply escaped_head_not_reserved in H; done.
    + intros [= -> H].
      apply escaped_head_not_reserved in H; done.
    + intros [= -> H]. f_equal. by apply IH.
Qed.

Lemma escaped_length reserved l :
  length (flat_map (escaped_char reserved) l)
  = length l + length (filter (fun c => c ∈ reserved) l).
Proof.
  induction l as [|x l IH]; simpl; [done|].
  rewrite length_app, IH, filter_cons. unfold escaped_char.
  case_bool_decide; case_decide; simpl; try done; lia.
Qed.

Lemma escaped_fixed reserved l :
  flat_map (escaped_char reserved) l = l <-> Forall (fun c => c ∉ reserved) l.
Proof.
  split.
  - intros H. pose proof (escaped_length reserved l) as Hlen. rewrite H in Hlen.
    assert (filter (fun c => c ∈ reserved) l = []) as Hnil.
    { apply length_zero_iff_nil. lia. }
    apply Forall_forall. intros c Hc Hres.
    assert (c ∈ filter (fun c => c ∈ reserved) l) as Hin by (by apply list_elem_of_filter).
    rewrite Hnil in Hin. by apply elem_of_nil in Hin.
  - induction 1 as [|x l Hx _ IH]; simpl; [done|].
    unfold escaped_char at 1. rewrite bool_decide_eq_false_2 by done. simpl. by rewrite IH.
Qed.

(** X1.  Escaping distributes over concatenation: the escape of a text
    put together from two parts is the two escapes put together, so a
    message may be escaped piece by piece. *)
Theorem escape_markdown_v2_app a b :
  escape_markdown_v2 (Some (a +:+ b))
  = escape_markdown_v2 (Some a) +:+ escape_markdown_v2 (Some b).
Proof.
  apply chars_inj. rewrite chars_app, !escape_markdown_v2_chars, chars_app.
  apply flat_map_app.
Qed.

(** X2.  The escape leaves a text as it is exactly when the text holds
    no reserved character. *)
Theorem escape_markdown_v2_fixed text :
  escape_markdown_v2 (Some text) = text
  <-> Forall (fun c => c ∉ special_chars) (chars text).
Proof.
  rewrite <- escaped_fixed, <- escape_markdown_v2_chars. split.
  - by intros ->.
  - apply chars_inj.
Qed.

(** X3.  Different texts have different escapes. *)
Theorem escape_markdown_v2_inj s t :
  escape_markdown_v2 (Some s) = escape_markdown_v2 (Some t) -> s = t.
Proof.
  intros H. apply chars_inj, (escaped_inj special_chars); [apply backslash_not_special|].
  by rewrite <- !escape_markdown_v2_chars, H.
Qed.

Lemma escape_markdown_v2_inj_witness :
  escape_markdown_v2 (Some "a.b") = escape_markdown_v2 (Some "a.b") /\ "a.b" = "a.b".
Proof.
  split; [reflexivity|]. apply (escape_markdown_v2_inj "a.b" "a.b"). reflexivity.
Defined.

(** X4.  The escape adds one character per reserved character of the
    text: its length is the length of the text plus the number of
    reserved characters in it, hence at most twice the length. *)
Theorem escape_markdown_v2_length text :
  String.length (escape_markdown_v2 (Some text))
  = String.length text + length (filter (fun c => c ∈ special_chars) (chars text))
  /\ String.length text <= String.length (escape_markdown_v2 (Some text))
     <= 2 * String.length text.
Proof.
  rewrite <- !chars_length, escape_markdown_v2_chars, escaped_length.
  split; [done|]. pose proof (length_filter (fun c => c ∈ special_chars) (chars text)). lia.
Qed.

(** ** Markup sanitizer: links *)

(** ** Python helpers: [strip], [str], [int] *)

Lemma lstrip_clean s :
  match Py.lstrip s with
  | EmptyString => True
  | String c _ => Py.isspace c = false
  end.
Proof.
  induction s as [|c s IH]; simpl; [done|].
  destruct (Py.isspace c) eqn:Hc; [exact IH|]. exact Hc.
Qed.

Lemma lstrip_fixed s :
  match s with
  | EmptyString => True
  | String c _ => Py.isspace c = false
  end -> Py.lstrip s = s.
Proof. destruct s as [|c s]; simpl; [done|]. by intros ->. Qed.

Lemma rstrip_head c s :
  Py.isspace c = false -> exists r, Py.rstrip (String c s) = String c r.
Proof. intros Hc. simpl. destruct (Py.rstrip s); rewrite ?Hc; by eexists. Qed.

Lemma rstrip_idemp s : Py.rstrip (Py.rstrip s) = Py.rstrip s.
Proof.
  induction s as [|c s IH]; simpl; [done|].
  destruct (Py.rstrip s) as [|d r] eqn:Hr.
  - destruct (Py.isspace c) eqn:Hc; simpl; [done|]. by rewrite Hc.
  - simpl in *. by rewrite IH.
Qed.

(** [strip] is idempotent: a stripped text has nothing left to strip. *)
Lemma strip_idemp s : Py.strip (Py.strip s) = Py.strip s.
Proof.
  unfold Py.strip. rewrite (lstrip_fixed (Py.rstrip (Py.lstrip s))).
  - apply rstrip_idemp.
  - pose proof (lstrip_clean s) as Hc. destruct (Py.lstrip s) as [|c t]; [done|].
    destruct (rstrip_head c t Hc) as [r ->]. exact Hc.
Qed.

Lemma rstrip_no_space s :
  Forall (fun c => Py.isspace c = false) (chars s) -> Py.rstrip s = s.
Proof.
  induction s as [|c s IH]; simpl; [done|]. intros H.
  apply Forall_cons in H as [Hc Hs]. rewrite (IH Hs).
  destruct s; [by rewrite Hc|done].
Qed.

(** A text without white space is its own [strip]. *)
Lemma strip_no_space s :
  Forall (fun c => Py.isspace c = false) (chars s) -> Py.strip s = s.
Proof.
  intros H. unfold Py.strip. rewrite lstrip_fixed.
  - by apply rstrip_no_space.
  - destruct s as [|c s]; [done|]. by apply Forall_cons in H as [Hc _].
Qed.

(** The decimal digits [pretty] writes. *)
Lemma pretty_N_char_digit x : Py.is_digit_char (pretty_N_char x) = true.
Proof. unfold pretty_N_char. by repeat case_match. Qed.

Lemma pretty_N_char_value x :
  (x < 10)%N -> (Z.of_nat (nat_of_ascii (pretty_N_char x)) - 48 = Z.of_N x)%Z.
Proof.
  intros Hx.
  assert (x = 0 \/ x = 1 \/ x = 2 \/ x = 3 \/ x = 4 \/ x = 5 \/ x = 6
          \/ x = 7 \/ x = 8 \/ x = 9)%N as H by lia.
  repeat (destruct H as [->|H]; [reflexivity|]). by subst.
Qed.

Lemma pretty_N_go_digits x s :
  Py.all_digits s = true -> Py.all_digits (pretty_N_go x s) = true.
Proof.
  revert s. induction (N.lt_wf_0 x) as [x _ IH]; intros s Hs.
  destruct (decide (x = 0)%N) as [->|Hx]; [by rewrite pretty_N_go_0|].
  rewrite pretty_N_go_step by lia. apply IH.
  - apply N.div_lt; lia.
  - simpl. by rewrite pretty_N_char_digit.
Qed.

Lemma pretty_N_go_nonempty x s : (0 < x)%N -> pretty_N_go x s <> EmptyString.
Proof.
  revert s. induction (N.lt_wf_0 x) as [x _ IH]; intros s Hx.
  rewrite pretty_N_go_step by done.
  destruct (decide (x `div` 10 = 0)%N) as [->|Hd]; [by rewrite pretty_N_go_0|].
  apply IH; [apply N.div_lt; lia|by apply N.neq_0_lt_0].
Qed.

(** Reading back what [pretty] wrote. *)
Lemma pretty_N_go_int x :
  exists k, forall acc s,
    Py.int_acc acc (pretty_N_go x s) = Py.int_acc (acc * k + Z.of_N x)%Z s.
Proof.
  induction (N.lt_wf_0 x) as [x _ IH].
  destruct (decide (x = 0)%N) as [->|Hx].
  { exists 1%Z. intros acc s. rewrite pretty_N_go_0. f_equal. lia. }
  destruct (IH (x `div` 10)%N) as [k Hk]; [apply N.div_lt; lia|].
  exists (10 * k)%Z. intros acc s.
  rewrite pretty_N_go_step by lia. rewrite Hk. simpl.
  rewrite pretty_N_char_value by (apply N.mod_lt; lia). f_equal.
  pose proof (N.div_mod x 10 ltac:(lia)) as Hdm.
  replace (acc * (10 * k))%Z with (10 * (acc * k))%Z by ring. lia.
Qed.

Lemma pretty_N_numeric (x : N) :
  Py.isdigit (pretty x) = true /\ Py.int (pretty x) = Z.of_N x.
Proof.
  unfold pretty, pretty_N. case_decide as Hx; [by subst|].
  split.
  - unfold Py.isdigit. rewrite pretty_N_go_digits by done.
    pose proof (pretty_N_go_nonempty x EmptyString ltac:(lia)) as Hne.
    by destruct (pretty_N_go x EmptyString).
  - destruct (pretty_N_go_int x) as [k Hk]. unfold Py.int. rewrite Hk. simpl. lia.
Qed.

Lemma digits_no_space s :
  Py.all_digits s = true -> Forall (fun c => Py.isspace c = false) (chars s).
Proof.
  induction s as [|c s IH]; simpl; [constructor|].
  intros H. apply andb_prop in H as [Hc Hs]. constructor; [|by apply IH].
  unfold Py.is_digit_char in Hc. unfold Py.isspace.
  apply andb_prop in Hc as [Hc1 Hc2]. apply Nat.leb_le in Hc1.
  apply orb_false_intro; apply andb_false_intro2; apply Nat.leb_gt; lia.
Qed.

(** [str(n)] is never empty and has no white space around it, so
    [strip] hands it back. *)
Lemma str_clean n : Py.truthy (str n) = true /\ Py.strip (str n) = str n.
Proof.
  unfold str, pretty, pretty_Z.
  assert (forall p : positive,
            Py.truthy (pretty p) = true
            /\ Forall (fun c => Py.isspace c = false) (chars (pretty p))) as Hpos.
  { intros p. destruct (pretty_N_numeric (Npos p)) as [Hd _].
    unfold Py.isdigit in Hd. apply andb_prop in Hd as [Ht Hd].
    split; [exact Ht|]. by apply digits_no_space. }
  destruct n as [|p|p].
  - done.
  - destruct (Hpos p) as [Ht Hs]. split; [exact Ht|]. by apply strip_no_space.
  - destruct (Hpos p) as [Ht Hs]. split; [done|].
    apply strip_no_space. simpl. constructor; [reflexivity|exact Hs].
Qed.

(** X5.  For an identifier that is not negative, the string [str]
    writes is numeric and [int] reads the identifier back, so the sort
    key of compaction is the identifier itself; for a negative one the
    string is not numeric and the key is 0. *)
Theorem sort_key_str n :
  ((0 <= n)%Z ->
     Py.isdigit (str n) = true /\ Py.int (str n) = n /\ sort_key (str n) = n)
  /\ ((n < 0)%Z -> Py.isdigit (str n) = false /\ sort_key (str n) = 0%Z).
Proof.
  split.
  - intros Hn.
    assert (Py.isdigit (str n) = true /\ Py.int (str n) = n) as [Hd Hi].
    { destruct n as [|p|p]; [done| |lia].
      destruct (pretty_N_numeric (Npos p)) as [Hd Hi]. split; [exact Hd|exact Hi]. }
    split; [exact Hd|]. split; [exact Hi|]. by rewrite (sort_key_numeric _ Hd).
  - intros Hn. destruct n as [|p|p]; [lia|lia|].
    assert (Py.isdigit (str (Z.neg p)) = false) as Hd by reflexivity.
    split; [exact Hd|]. by apply sort_key_not_numeric.
Qed.

Lemma sort_key_str_witness : sort_key (str 1795000000000000000) = 1795000000000000000%Z.
Proof. apply (proj1 (sort_key_str 1795000000000000000)). lia. Defined.

(** ** Seen-set store: what is written can be read back *)

Lemma str_clean_id n : clean_id (str n).
Proof. apply str_clean. Qed.

Lemma loaded_ids_app l1 l2 : loaded_ids (l1 ++ l2) = loaded_ids l1 ∪ loaded_ids l2.
Proof.
  unfold loaded_ids. by rewrite fmap_app, filter_app, list_to_set_app_L.
Qed.

Lemma loaded_ids_clean x : clean_id x -> loaded_ids [x] = {[x]}.
Proof.
  intros [Ht Hs]. rewrite loaded_ids_cons. unfold add_line. rewrite Hs, Ht.
  change (loaded_ids []) with (∅ : gset string).
  by rewrite (left_id_L ∅ (∪)), (right_id_L ∅ (∪)).
Qed.

Lemma loaded_ids_all_clean l : Forall clean_id l -> loaded_ids l = list_to_set l.
Proof.
  induction 1 as [|x l Hx _ IH]; [done|].
  change (x :: l) with ([x] ++ l). rewrite loaded_ids_app, loaded_ids_clean by done.
  by rewrite IH.
Qed.

Lemma loaded_ids_are_clean lines x : x ∈ loaded_ids lines -> clean_id x.
Proof.
  intros Hx. apply elem_of_loaded_ids in Hx as (Hne & line & _ & ->).
  split; [by apply truthy_nonempty|apply strip_idemp].
Qed.

Lemma load_sent_tweets_ok E w :
  read_fault E (clock w) = None ->
  exists w', load_sent_tweets E w = (w', Ret (disk_ids w)) /\ store w' = store w.
Proof.
  intros Hread. unfold load_sent_tweets, disk_ids, file_lines.
  destruct (store w) as [lines|] eqn:Hs; simpl.
  - rewrite Hread, fold_add_line, (left_id_L ∅ (∪)). by eexists.
  - by eexists.
Qed.

(** X6.  Whatever [load_sent_tweets] returns, with or without a read
    error, holds only identifiers that are not empty and have no white
    space around them, each the stripped form of a line of the file; so
    a file made of exactly these identifiers, one per line in any
    order, loads to the same set again. *)
Theorem load_sent_tweets_clean E w :
  exists w' sent,
    load_sent_tweets E w = (w', Ret sent)
    /\ (forall x, x ∈ sent ->
          clean_id x /\ exists line, line ∈ file_lines w /\ x = Py.strip line)
    /\ (forall lines, lines ≡ₚ elements sent -> loaded_ids lines = sent).
Proof.
  assert (forall lines : list string,
            (forall x, x ∈ fold_left add_line lines ∅ ->
               clean_id x /\ exists line, line ∈ lines /\ x = Py.strip line)
            /\ (forall l, l ≡ₚ elements (fold_left add_line lines ∅) ->
                  loaded_ids l = fold_left add_line lines ∅)) as Hfold.
  { intros lines. rewrite fold_add_line, (left_id_L ∅ (∪)). split.
    - intros x Hx. split; [by eapply loaded_ids_are_clean|].
      by apply elem_of_loaded_ids in Hx as (_ & Hline).
    - intros l Hl. rewrite loaded_ids_all_clean.
      + rewrite (list_to_set_perm_L _ _ Hl). apply list_to_set_elements_L.
      + apply Forall_forall. intros x Hx. rewrite Hl in Hx.
        apply elem_of_elements in Hx. by eapply loaded_ids_are_clean. }
  unfold load_sent_tweets, file_lines. destruct (store w) as [lines|]; simpl.
  - destruct (read_fault E (clock w)) as [k|].
    + eexists _, _. split; [reflexivity|]. destruct (Hfold (take k lines)) as [Hin Hrt].
      split; [|exact Hrt]. intros x Hx.
      destruct (Hin _ Hx) as (Hc & line & Hl & ->). split; [done|].
      exists line. split; [|done]. eapply subseteq_take, Hl.
    + eexists _, _. split; [reflexivity|]. apply Hfold.
  - eexists _, _. split; [reflexivity|]. split.
    + intros x Hx. by apply not_elem_of_empty in Hx.
    + intros lines Hl. rewrite elements_empty in Hl. by apply Permutation_nil_r in Hl as ->.
Qed.

(** [str(n)] is never empty and holds no white space. *)
Lemma str_no_space n :
  Py.truthy (str n) = true /\ Forall (fun c => Py.isspace c = false) (chars (str n)).
Proof.
  unfold str, pretty, pretty_Z.
  assert (forall p : positive,
            Py.truthy (pretty p) = true
            /\ Forall (fun c => Py.isspace c = false) (chars (pretty p))) as Hpos.
  { intros p. destruct (pretty_N_numeric (Npos p)) as [Hd _].
    unfold Py.isdigit in Hd. apply andb_prop in Hd as [Ht Hd].
    split; [exact Ht|]. by apply digits_no_space. }
  destruct n as [|p|p].
  - split; [done|]. by repeat constructor.
  - apply Hpos.
  - destruct (Hpos p) as [Ht Hs]. split; [done|].
    simpl. constructor; [reflexivity|exact Hs].
Qed.

(** Text put in front of an identifier without white space: stripping
    the whole takes the white space off the front and nothing else. *)
Lemma lstrip_glue a b :
  Py.truthy b = true -> Forall (fun c => Py.isspace c = false) (chars b) ->
  Py.lstrip (a +:+ b) = Py.lstrip a +:+ b.
Proof.
  intros Ht Hb. induction a as [|c a IH]; simpl.
  - apply lstrip_fixed. destruct b as [|c b]; [done|]. by apply Forall_cons in Hb as [? _].
  - by destruct (Py.isspace c).
Qed.

Lemma rstrip_glue a b :
  Py.truthy b = true -> Forall (fun c => Py.isspace c = false) (chars b) ->
  Py.rstrip (a +:+ b) = a +:+ b.
Proof.
  intros Ht Hb. induction a as [|c a IH]; simpl.
  - by apply rstrip_no_space.
  - rewrite IH. change (String c a +:+ b) with (String c (a +:+ b)).
    destruct (a +:+ b) eqn:Hab; [|done].
    destruct a; [change (b = EmptyString) in Hab; by subst b|discriminate].
Qed.

Lemma strip_glue a b :
  Py.truthy b = true -> Forall (fun c => Py.isspace c = false) (chars b) ->
  Py.strip (a +:+ b) = Py.lstrip a +:+ b.
Proof.
  intros Ht Hb. unfold Py.strip. rewrite lstrip_glue by done. by apply rstrip_glue.
Qed.

Lemma glue_truthy a b : Py.truthy b = true -> Py.truthy (a +:+ b) = true.
Proof. intros Hb. destruct a; [done|reflexivity]. Qed.

(** The identifiers a load finds after a line was written at the end of
    the file. *)
Lemma loaded_ids_write_line lines last n :
  loaded_ids (lines_of (write_line (str n) (lines, last)))
  = loaded_ids lines ∪ {[Py.lstrip last +:+ str n]}.
Proof.
  destruct (str_no_space n) as [Ht Hs].
  unfold write_line, lines_of. cbn [fst snd Py.truthy].
  rewrite loaded_ids_app. f_equal.
  rewrite loaded_ids_cons. unfold add_line. rewrite (strip_glue _ _ Ht Hs).
  rewrite (glue_truthy _ _ Ht).
  change (loaded_ids []) with (∅ : gset string).
  by rewrite (left_id_L ∅ (∪)), (right_id_L ∅ (∪)).
Qed.

(** What a load would find in a file that ends with a line feed, is
    empty or is missing. *)
Lemma disk_ids_closed w lines :
  opened w = (lines, EmptyString) -> disk_ids w = loaded_ids lines.
Proof.
  unfold opened, disk_ids, file_lines, store.
  destruct (file w) as [[l r]|]; cbn; intros ?; by simplify_eq.
Qed.

(** X7.  After [save_sent_tweet] appended [str(n)] and the append went
    through, a load that reads the file to its end returns the
    identifiers of the lines that ended with a line feed before the
    append, and one more: [str(n)] with the text in front of it that
    the file held after its last line feed, white space at the front
    taken off.  When the file ended with a line feed, was empty or was
    missing, that is everything a load would have returned before,
    and [str(n)]. *)
Theorem save_then_load E w n lines last :
  append_reply_at E (clock w) = AppendOk ->
  read_fault E (clock (saved E (str n) w)) = None ->
  opened w = (lines, last) ->
  exists w',
    load_sent_tweets E (saved E (str n) w)
    = (w', Ret (loaded_ids lines ∪ {[Py.lstrip last +:+ str n]}))
    /\ (last = EmptyString ->
        loaded_ids lines ∪ {[Py.lstrip last +:+ str n]} = disk_ids w ∪ {[str n]}).
Proof.
  intros Happend Hread Hopen.
  destruct (load_sent_tweets_ok E (saved E (str n) w) Hread) as (w' & Hload & _).
  exists w'. split.
  - rewrite Hload. do 2 f_equal.
    destruct (save_sent_tweet_run E (str n) w) as (_ & Hfile & _).
    rewrite Happend, Hopen in Hfile.
    unfold disk_ids, file_lines, store. rewrite Hfile. cbn [fmap option_fmap option_map default].
    apply loaded_ids_write_line.
  - intros ->. by rewrite (disk_ids_closed w lines Hopen).
Qed.

Lemma save_then_load_witness :
  exists w',
    load_sent_tweets friendly (saved friendly (str 42) (world_with_open_store [" 7 "] "8"))
    = (w', Ret ({["7"]} ∪ {["842"]})).
Proof.
  destruct (save_then_load friendly (world_with_open_store [" 7 "] "8") 42 [" 7 "] "8"
              eq_refl eq_refl eq_refl)
    as (w' & Hload & _).
  exists w'. rewrite Hload. reflexivity.
Defined.

(** ** Seen-set store: compaction, as seen from its caller *)

Lemma kept_subseteq E (key : string -> Z) sent :
  iteration_order_ok E ->
  (list_to_set (Py.last_n 8000%Z (Py.sorted key (set_iter E sent))) : gset string)
  ⊆ sent.
Proof.
  intros Hiter x Hx. apply elem_of_list_to_set in Hx. unfold Py.last_n in Hx.
  apply subseteq_drop in Hx. rewrite sorted_perm, (Hiter sent) in Hx.
  by apply elem_of_elements in Hx.
Qed.

Lemma kept_size E (key : string -> Z) sent :
  iteration_order_ok E ->
  (10000 < Z.of_nat (size sent))%Z ->
  Z.of_nat (size (list_to_set
                    (Py.last_n 8000%Z (Py.sorted key (set_iter E sent))) : gset string))
  = 8000%Z.
Proof.
  intros Hiter Hsize.
  assert (Py.sorted key (set_iter E sent) ≡ₚ elements sent) as Hperm.
  { by rewrite sorted_perm. }
  rewrite size_list_to_set.
  - apply (last_n_length 8000%Z). unfold Py.len. rewrite Hperm.
    change (length (elements sent)) with (size sent). lia.
  - unfold Py.last_n. eapply sublist_NoDup; [|apply sublist_drop].
    rewrite Hperm. apply NoDup_elements.
Qed.

(** X8.  Compaction never raises and never invents an identifier: the
    set it returns is a subset of the one it was given.  Either it is
    that very set, or it has exactly 8000 entries, the input had more
    than 10000, and the file holds exactly the returned entries. *)
Theorem cleanup_never_adds E sent w :
  iteration_order_ok E ->
  exists w' kept,
    cleanup_old_sent_tweets E sent w = (w', Ret kept)
    /\ kept ⊆ sent
    /\ size kept <= size sent
    /\ (kept = sent
        \/ (Z.of_nat (size kept) = 8000%Z
            /\ (10000 < Z.of_nat (size sent))%Z
            /\ store w' = Some (set_iter E kept))).
Proof.
  intros Hiter.
  destruct (Z.le_gt_cases (Z.of_nat (size sent)) 10000) as [Hle|Hgt].
  { exists w, sent. split; [|split; [done|split; [done|by left]]].
    unfold cleanup_old_sent_tweets.
    destruct (Z.ltb_spec 10000 (Z.of_nat (size sent))); [lia|done]. }
  destruct (keys_or_error E sent) as [Hkeys|(x & Hx & Hnone)].
  2:{ rewrite (cleanup_key_error E sent w x Hiter Hgt Hx Hnone).
      eexists _, _. split; [reflexivity|]. split; [done|]. split; [done|by left]. }
  rewrite (cleanup_large E sent w Hiter Hgt Hkeys). cbv zeta.
  destruct (rewrite_reply_at E (clock w)).
  - eexists _, _. split; [reflexivity|].
    pose proof (kept_subseteq E (key_value E) sent Hiter) as Hsub.
    split; [exact Hsub|]. split; [by apply subseteq_size|]. right.
    split; [by apply kept_size|]. by split.
  - eexists _, _. split; [reflexivity|]. split; [done|]. split; [done|by left].
  - eexists _, _. split; [reflexivity|]. split; [done|]. split; [done|by left].
Qed.

Lemma friendly_iteration_ok : iteration_order_ok friendly.
Proof. intros s. reflexivity. Qed.

Lemma cleanup_never_adds_witness :
  exists w' kept,
    cleanup_old_sent_tweets friendly {["1"; "2"]} fresh_world = (w', Ret kept)
    /\ kept ⊆ {["1"; "2"]}.
Proof.
  destruct (cleanup_never_adds friendly {["1"; "2"]} fresh_world friendly_iteration_ok)
    as (w' & kept & Hrun & Hsub & _).
  exists w', kept. split; [exact Hrun|exact Hsub].
Defined.

(** X9.  After a compaction that rewrote the file, a load gives back
    exactly the set the compaction returned, provided the sort key of
    every identifier can be computed (no [int] raises) and the
    identifiers are clean: memory and file agree again.  When the
    sort key of some identifier cannot be computed, nothing is
    written: the set comes back as it was given and the file is the
    one from before. *)
Theorem cleanup_then_load E sent w :
  iteration_order_ok E ->
  (forall x, x ∈ sent -> clean_id x) ->
  (10000 < Z.of_nat (size sent))%Z ->
  rewrite_reply_at E (clock w) = RewriteOk ->
  read_fault E (S (clock w)) = None ->
  ((forall x, x ∈ sent -> is_Some (key_of E x)) ->
   exists w1 kept w2,
     cleanup_old_sent_tweets E sent w = (w1, Ret kept)
     /\ disk_ids w1 = kept
     /\ load_sent_tweets E w1 = (w2, Ret kept))
  /\ ((exists x, x ∈ sent /\ key_of E x = None) ->
      exists w1,
        cleanup_old_sent_tweets E sent w = (w1, Ret sent)
        /\ file w1 = file w /\ clock w1 = clock w).
Proof.
  intros Hiter Hclean Hsize Hrw Hread. split.
  - intros Hkeys.
    rewrite (cleanup_large E sent w Hiter Hsize Hkeys). cbv zeta. rewrite Hrw.
    set (kept := list_to_set (Py.last_n 8000%Z (Py.sorted (key_value E) (set_iter E sent)))
                 : gset string).
    set (w1 := emit _ _).
    assert (disk_ids w1 = kept) as Hdisk.
    { change (loaded_ids (set_iter E kept) = kept). rewrite loaded_ids_all_clean.
      - rewrite (Hiter kept). apply list_to_set_elements_L.
      - apply Forall_forall. intros x Hx. apply Hclean.
        rewrite (Hiter kept) in Hx. apply elem_of_elements in Hx.
        by apply (kept_subseteq E (key_value E) sent Hiter). }
    destruct (load_sent_tweets_ok E w1 Hread) as (w2 & Hload & _).
    exists w1, kept, w2. rewrite Hload, Hdisk. done.
  - intros (x & Hx & Hnone).
    rewrite (cleanup_key_error E sent w x Hiter Hsize Hx Hnone).
    eexists. split; [reflexivity|]. by split.
Qed.

Lemma tie_set_clean x : x ∈ tie_set -> clean_id x.
Proof.
  unfold tie_set, tie_ids. rewrite elem_of_list_to_set, elem_of_cons.
  intros [->|Hx]; [by split|].
  unfold tie_tail in Hx. apply list_elem_of_fmap in Hx as (n & -> & _).
  split; [done|]. apply strip_no_space. simpl. constructor; [reflexivity|].
  apply digits_no_space. destruct (pretty_N_numeric (N.of_nat n)) as [Hd _].
  unfold Py.isdigit in Hd. by apply andb_prop in Hd as [_ Hd].
Qed.

Lemma cleanup_then_load_witness :
  exists w1 kept w2,
    cleanup_old_sent_tweets (tie_environment RewriteOk) tie_set fresh_world = (w1, Ret kept)
    /\ load_sent_tweets (tie_environment RewriteOk) w1 = (w2, Ret kept).
Proof.
  destruct (cleanup_then_load (tie_environment RewriteOk) tie_set fresh_world
              (tie_iter_ok RewriteOk) tie_set_clean tie_set_large eq_refl eq_refl)
    as [Hkeys _].
  destruct (Hkeys (fun x _ => tie_keys RewriteOk x)) as (w1 & kept & w2 & Hrun & _ & Hload).
  exists w1, kept, w2. split; [exact Hrun|exact Hload].
Defined.

(** ** Media resolver: the contract of [get_best_media_url] *)

Lemma probes_app tr l : probes (tr ++ l) = probes tr ++ probes l.
Proof. apply omap_app. Qed.

Lemma validate_media_url_probes E url w :
  probes (trace (validate_media_url E url w).1) = probes (trace w) ++ [url].
Proof.
  unfold validate_media_url, bind, http_head, pure, print.
  destruct (head_reply E (clock w) url); simpl; rewrite !probes_app; simpl;
    by rewrite ?app_nil_r.
Qed.

Lemma probes_print w l : probes (trace (emit (Stdout l) w)) = probes (trace w).
Proof. simpl. rewrite probes_app. simpl. by rewrite app_nil_r. Qed.

Lemma first_working_url_contract E urls w :
  exists w' found,
    first_working_url E urls w = (w', Ret found)
    /\ advance w w' []
    /\ match found with
       | Some url =>
           exists k,
             urls !! k = Some url
             /\ probe_ok (head_reply E (clock w + k) url) = true
             /\ (forall j u, j < k -> urls !! j = Some u ->
                   probe_ok (head_reply E (clock w + j) u) = false)
             /\ probes (trace w') = probes (trace w) ++ take (S k) urls
             /\ clock w' = clock w + S k
       | None =>
           (forall j u, urls !! j = Some u ->
              probe_ok (head_reply E (clock w + j) u) = false)
           /\ probes (trace w') = probes (trace w) ++ urls
           /\ clock w' = clock w + length urls
       end.
Proof.
  revert w. induction urls as [|url rest IH]; intros w.
  { exists w, None. split; [done|]. split; [apply advance_refl|].
    split; [done|]. split; [by rewrite app_nil_r|simpl; lia]. }
  cbn [first_working_url].
  destruct (validate_media_url_run E url w) as (w1 & Hv & Hc & Ha).
  pose proof (validate_media_url_probes E url w) as Hp. rewrite Hv in Hp. cbn [fst] in Hp.
  rewrite (bind_ret _ _ _ _ _ Hv).
  destruct (probe_ok (head_reply E (clock w) url)) eqn:Hok.
  - exists w1, (Some url). split; [done|]. split; [exact Ha|].
    exists 0. split; [done|]. split; [by rewrite Nat.add_0_r|].
    split; [intros j u Hj; lia|]. split; [exact Hp|lia].
  - destruct (IH w1) as (w' & found & Hrun & Ha' & Hfound).
    exists w', found. split; [exact Hrun|].
    split; [exact (advance_trans _ _ _ [] [] Ha Ha')|].
    destruct found as [u|].
    + destruct Hfound as (k & Hk & Hpk & Hbefore & Hprobes & Hclock).
      exists (S k). split; [done|].
      split; [by replace (clock w + S k) with (clock w1 + k) by lia|].
      split; [|split].
      * intros [|j] u' Hj Hu'.
        { injection Hu' as <-. by rewrite Nat.add_0_r. }
        replace (clock w + S j) with (clock w1 + j) by lia.
        apply Hbefore; [lia|done].
      * rewrite Hprobes, Hp, <- (assoc_L (++)). done.
      * lia.
    + destruct Hfound as (Hall & Hprobes & Hclock).
      split; [|split].
      * intros [|j] u' Hu'.
        { injection Hu' as <-. by rewrite Nat.add_0_r. }
        replace (clock w + S j) with (clock w1 + j) by lia. by apply Hall.
      * rewrite Hprobes, Hp, <- (assoc_L (++)). done.
      * simpl. lia.
Qed.

Lemma possible_urls_spec media_item :
  length (possible_urls media_item) <= 4
  /\ Some <$> possible_urls media_item `sublist_of` url_attributes media_item
  /\ forall u, u ∈ possible_urls media_item <->
       Py.truthy u = true /\ Some u ∈ url_attributes media_item.
Proof.
  unfold possible_urls. fold (url_attributes media_item). split; [|split].
  - unfold url_attributes. cbn [omap list_omap].
    repeat (destruct (if Py.truthy_opt _ then _ else _)); simpl; lia.
  - induction (url_attributes media_item) as [|a l IH]; [done|].
    cbn [omap list_omap]. destruct a as [a|]; cbn [Py.truthy_opt].
    + destruct (Py.truthy a); [by apply sublist_skip|by apply sublist_cons].
    + by apply sublist_cons.
  - intros u. rewrite list_elem_of_omap. split.
    + intros (a & Ha & Hu). destruct a as [a|]; [|done]. simpl in Hu.
      destruct (Py.truthy a) eqn:Ht; [|done]. injection Hu as ->. done.
    + intros [Ht Hin]. exists (Some u). split; [done|]. simpl. by rewrite Ht.
Qed.

(** X10.  [get_best_media_url] never raises, sends nothing and leaves
    the file alone.  Its candidates are the non-empty ones among the
    attributes [url], [media_url_https], [media_url] and
    [preview_image_url], at most four, in that order.  It probes them in
    order, one request each, and returns the first whose probe answers
    200 without probing the rest; it returns nothing exactly when every
    candidate failed its probe. *)
Theorem get_best_media_url_contract E media_item w :
  let urls := possible_urls media_item in
  (length urls <= 4
   /\ Some <$> urls `sublist_of` url_attributes media_item
   /\ forall u, u ∈ urls <-> Py.truthy u = true /\ Some u ∈ url_attributes media_item)
  /\ exists w' found,
       get_best_media_url E media_item w = (w', Ret found)
       /\ advance w w' []
       /\ match found with
          | Some url =>
              exists k,
                urls !! k = Some url
                /\ probe_ok (head_reply E (clock w + k) url) = true
                /\ (forall j u, j < k -> urls !! j = Some u ->
                      probe_ok (head_reply E (clock w + j) u) = false)
                /\ probes (trace w') = probes (trace w) ++ take (S k) urls
                /\ clock w' = clock w + S k
          | None =>
              (forall j u, urls !! j = Some u ->
                 probe_ok (head_reply E (clock w + j) u) = false)
              /\ probes (trace w') = probes (trace w) ++ urls
              /\ clock w' = clock w + length urls
          end.
Proof.
  cbv zeta. split; [apply possible_urls_spec|].
  unfold get_best_media_url. apply first_working_url_contract.
Qed.

Example get_best_media_url_sample :
  let item := {| mi_type := Text "photo"; mi_url := Some "https://a/1.jpg";
                 mi_media_url_https := Some EmptyString;
                 mi_media_url := Some "https://a/3.jpg";
                 mi_preview_image_url := Some "https://a/4.jpg" |} in
  let run := get_best_media_url (only_reachable "https://a/3.jpg") item fresh_world in
  possible_urls item = ["https://a/1.jpg"; "https://a/3.jpg"; "https://a/4.jpg"]
  /\ run.2 = Ret (Some "https://a/3.jpg")
  /\ probes (trace run.1) = ["https://a/1.jpg"; "https://a/3.jpg"].
Proof. cbv zeta. repeat split; reflexivity. Qed.

(** ** Delivery client: what goes to the transport, and when success
    is reported *)

Lemma post_ok_true reply : post_ok reply = true -> reply = Json true.
Proof. destruct reply as [| |[|]]; simpl; congruence. Qed.

Section DeliveryDetail.

Variable E : environment.

(** The first loop in detail. *)
Lemma try_media_items_detail chat_id message bot_token items w :
  first_loop_outcome E bot_token chat_id message items w
    (try_media_items E chat_id message bot_token items w).
Proof.
  revert w. induction items as [|item rest IH]; intros w.
  { exists [], []. cbn [try_media_items pure fst snd].
    split; [apply advance_refl|]. split; [done|]. split; [done|]. split; [constructor|done]. }
  assert (forall w0 pre pt,
            advance w w0 pre -> clock w <= clock w0 ->
            pt `sublist_of` [item] ->
            one_message_each bot_token chat_id message pt pre ->
            first_loop_outcome E bot_token chat_id message (item :: rest) w
              (try_media_items E chat_id message bot_token rest w0)) as Hrest.
  { intros w0 pre pt Ha0 Hc0 Hpt Hpre. specialize (IH w0).
    destruct (try_media_items E chat_id message bot_token rest w0) as [w' r].
    destruct IH as (media & tried & Ha & Hc & Hsub & Hm & Hr). cbn [fst snd] in *.
    exists (pre ++ media), (pt ++ tried). cbn [fst snd].
    split; [exact (advance_trans _ _ _ _ _ Ha0 Ha)|]. split; [lia|].
    split; [exact (sublist_app _ _ _ _ Hpt Hsub)|].
    split; [by apply Forall2_app|].
    destruct r as [[|]|e].
    - destruct Hr as (media' & m & t & -> & Ht & Hr).
      exists (pre ++ media'), m, t. split; [by rewrite (assoc_L (++))|]. split; [lia|done].
    - done.
    - destruct Hr as (-> & it & Hin & Hnone). split; [done|].
      exists it. split; [by apply elem_of_cons; right|done]. }
  cbn [try_media_items].
  destruct (mi_type item) as [| |media_type] eqn:Htype; cbn [type_lower].
  2: { exists [], []. cbn [raise fst snd].
       split; [apply advance_refl|]. split; [done|]. split; [apply sublist_nil_l|].
       split; [constructor|]. split; [done|].
       exists item. split; [apply elem_of_cons; by left|done]. }
  all: destruct (mi_url item) as [url|] eqn:Hurl; cbn [Py.truthy_opt default negb];
    [|apply (Hrest w [] []); [apply advance_refl|lia|apply sublist_nil_l|constructor]].
  all: destruct (Py.truthy url) eqn:Htruthy; cbn [negb];
    [|apply (Hrest w [] []); [apply advance_refl|lia|apply sublist_nil_l|constructor]].
  all: rewrite bind_print.
  all: destruct (validate_media_url_run E url (emit (Stdout (LogValidating url)) w))
    as (w1 & Hv & Hc1 & Ha1).
  all: rewrite (bind_ret _ _ _ _ _ Hv); apply advance_print_l in Ha1; cbn [emit clock] in Hc1.
  all: destruct (probe_ok _); cbn [negb].
  all: try (rewrite bind_print;
            apply (Hrest _ [] []);
            [by apply advance_print_r|cbn [emit clock]; lia|apply sublist_nil_l|constructor]).
  { (* no type: the lower-cased default is none of the four *)
    change (Py.member (Py.lower "unknown") ["photo"; "image"]) with false.
    change (Py.member (Py.lower "unknown") ["video"; "animated_gif"]) with false.
    cbv iota.
    apply (Hrest w1 [] []); [exact Ha1|lia|apply sublist_nil_l|constructor]. }
  assert (forall m w2,
            media_message_for bot_token chat_id message item = Some m ->
            advance w1 w2 [m] -> clock w2 = S (clock w1) ->
            forall ok, ok = post_ok (post_reply_at E (clock w1) m) ->
            first_loop_outcome E bot_token chat_id message (item :: rest) w
              ((if ok then pure true
                else try_media_items E chat_id message bot_token rest) w2)) as Hsend.
  { intros m w2 Hm Ha2 Hc2 ok Hok.
    pose proof (advance_trans _ _ _ _ _ Ha1 Ha2) as Ha12. simpl in Ha12.
    destruct ok.
    - exists [m], [item]. cbn [pure fst snd]. split; [exact Ha12|]. split; [lia|].
      split; [apply sublist_skip, sublist_nil_l|]. split; [by constructor|].
      exists [], m, (clock w1). split; [done|]. split; [lia|]. by apply post_ok_true.
    - apply (Hrest w2 [m] [item]); [exact Ha12|lia|done|by constructor]. }
  destruct (Py.member (Py.lower media_type) ["photo"; "image"]) eqn:Hphoto.
  { rewrite bind_print.
    destruct (send_telegram_photo_run E chat_id url message bot_token
                (emit (Stdout LogSendingAsPhoto) w1)) as (w2 & Hs & Hc2 & Ha2).
    rewrite (bind_ret _ _ _ _ _ Hs). apply advance_print_l in Ha2. cbn [emit clock] in *.
    apply (Hsend (SendPhoto bot_token chat_id url message) w2);
      [|exact Ha2|exact Hc2|done].
    unfold media_message_for. by rewrite Htype, Hurl, Htruthy, Hphoto. }
  destruct (Py.member (Py.lower media_type) ["video"; "animated_gif"]) eqn:Hvideo.
  { rewrite bind_print.
    destruct (send_telegram_video_run E chat_id url message bot_token
                (emit (Stdout LogSendingAsVideo) w1)) as (w2 & Hs & Hc2 & Ha2).
    rewrite (bind_ret _ _ _ _ _ Hs). apply advance_print_l in Ha2. cbn [emit clock] in *.
    apply (Hsend (SendVideo bot_token chat_id url message) w2);
      [|exact Ha2|exact Hc2|done].
    unfold media_message_for. by rewrite Htype, Hurl, Htruthy, Hphoto, Hvideo. }
  apply (Hrest w1 [] []); [exact Ha1|lia|apply sublist_nil_l|constructor].
Qed.

Lemma fallback_message_nil message : fallback_message message [] = message.
Proof. reflexivity. Qed.

Lemma send_telegram_message_with_media_detail chat_id message bot_token media_items w :
  let items := default [] media_items in
  let text := SendMessage bot_token chat_id (fallback_message message items) in
  exists w' r media final tried,
    send_telegram_message_with_media E chat_id message bot_token media_items w = (w', r)
    /\ advance w w' (media ++ final)
    /\ clock w <= clock w'
    /\ tried `sublist_of` items
    /\ one_message_each bot_token chat_id message tried media
    /\ ((r = Ret true /\ final = []
         /\ exists media' m t,
              media = media' ++ [m] /\ clock w <= t < clock w'
              /\ post_reply_at E t m = Json true)
        \/ (final = [text]
            /\ exists t, clock w <= t < clock w'
                         /\ r = text_outcome (post_reply_at E t text))
        \/ (r = Raise none_has_no_lower /\ final = []
            /\ exists media_item, media_item ∈ items /\ mi_type media_item = NoneValue)).
Proof.
  cbv zeta. unfold send_telegram_message_with_media.
  assert (forall items w1 media tried,
            advance w w1 media -> clock w <= clock w1 ->
            tried `sublist_of` items ->
            one_message_each bot_token chat_id message tried media ->
            exists w' r media final tried,
              send_telegram_message E chat_id (fallback_message message items) bot_token w1
                = (w', r)
              /\ advance w w' (media ++ final)
              /\ clock w <= clock w'
              /\ tried `sublist_of` items
              /\ one_message_each bot_token chat_id message tried media
              /\ ((r = Ret true /\ final = []
                   /\ exists media' m t,
                        media = media' ++ [m] /\ clock w <= t < clock w'
                        /\ post_reply_at E t m = Json true)
                  \/ (final = [SendMessage bot_token chat_id (fallback_message message items)]
                      /\ exists t,
                           clock w <= t < clock w'
                           /\ r = text_outcome
                                    (post_reply_at E t
                                       (SendMessage bot_token chat_id
                                          (fallback_message message items))))
                  \/ (r = Raise none_has_no_lower /\ final = []
                      /\ exists media_item,
                           media_item ∈ items /\ mi_type media_item = NoneValue))) as Htext.
  { intros items w1 media tried Ha1 Hc1 Hsub Hm.
    destruct (send_telegram_message_run E chat_id (fallback_message message items) bot_token w1)
      as (w' & Hrun & Hc & Ha).
    eexists w', _, media, _, tried. split; [exact Hrun|].
    split; [exact (advance_trans _ _ _ _ _ Ha1 Ha)|]. split; [lia|].
    split; [exact Hsub|]. split; [exact Hm|]. right. left. split; [done|].
    exists (clock w1). split; [lia|done]. }
  destruct media_items as [[|item rest]|]; cbn [default].
  - apply (Htext [] w [] []); [apply advance_refl|lia|done|constructor].
  - pose proof (try_media_items_detail chat_id message bot_token (item :: rest) w) as Hloop.
    destruct (try_media_items E chat_id message bot_token (item :: rest) w) as [w1 r1] eqn:Hrun.
    destruct Hloop as (media & tried & Ha & Hc & Hsub & Hm & Hr). cbn [fst snd] in *.
    destruct r1 as [[|]|e].
    + rewrite (bind_ret _ _ _ _ _ Hrun).
      destruct Hr as (media' & m & t & -> & Ht & Hr).
      exists w1, (Ret true), (media' ++ [m]), [], tried. split; [done|].
      split; [by rewrite app_nil_r|]. split; [lia|]. split; [done|]. split; [done|].
      left. split; [done|]. split; [done|]. by exists media', m, t.
    + rewrite (bind_ret _ _ _ _ _ Hrun). rewrite bind_print.
      apply (Htext (item :: rest) (emit (Stdout LogMediaFailed) w1) media tried);
        [by apply advance_print_r|simpl; lia|done|done].
    + rewrite (bind_raise _ _ _ _ _ Hrun). destruct Hr as (-> & Hitem).
      exists w1, (Raise none_has_no_lower), media, [], tried. split; [done|].
      split; [by rewrite app_nil_r|]. split; [lia|]. split; [done|]. split; [done|].
      right. right. done.
  - apply (Htext [] w [] []); [apply advance_refl|lia|done|constructor].
Qed.

End DeliveryDetail.

(** X11.  The messages the composite delivery hands to the transport
    are media messages followed by at most one text message.  The media
    messages belong to some of the items, one message for each of
    them and in the order of the items: a photo send for an item of
    type photo or image, a video send for video or animated_gif (the
    type compared in lower case), for the [url] attribute of the item
    and with the caption unchanged.  Then one of three: the result is
    success, no text goes out and the last media message was
    acknowledged; or exactly one text goes out, last, carrying the
    caption and the link lines, and its outcome is the result; or the
    [type] of an item is [None], the call raises the exception of
    [None.lower()] and no text goes out.  Nothing else happens but
    probes and printing. *)
Theorem delivery_message_structure E chat_id message bot_token media_items w :
  let items := default [] media_items in
  let text := SendMessage bot_token chat_id (fallback_message message items) in
  exists w' r media final tried,
    send_telegram_message_with_media E chat_id message bot_token media_items w = (w', r)
    /\ advance w w' (media ++ final)
    /\ tried `sublist_of` items
    /\ Forall2 (fun media_item m =>
                  media_message_for bot_token chat_id message media_item = Some m)
         tried media
    /\ ((r = Ret true /\ final = [] /\ media <> [])
        \/ (final = [text]
            /\ exists t, clock w <= t < clock w'
                         /\ r = text_outcome (post_reply_at E t text))
        \/ (r = Raise (Exn "'NoneType' object has no attribute 'lower'") /\ final = []
            /\ exists media_item, media_item ∈ items /\ mi_type media_item = NoneValue)).
Proof.
  cbv zeta.
  destruct (send_telegram_message_with_media_detail E chat_id message bot_token media_items w)
    as (w' & r & media & final & tried & Hrun & Ha & _ & Hsub & Hm & Hcase).
  exists w', r, media, final, tried. split; [exact Hrun|]. split; [exact Ha|].
  split; [exact Hsub|]. split; [exact Hm|].
  destruct Hcase as [(Hr & Hf & media' & m & t & -> & _)|[Htext|Hraise]];
    [left|by right; left|by right; right].
  split; [done|]. split; [done|]. intros Hnil. by apply app_eq_nil in Hnil as [_ ?].
Qed.

(** X12.  The composite delivery reports success only when the
    transport acknowledged the last message it was handed, at a moment
    within the call. *)
Theorem delivery_success_is_acknowledged E chat_id message bot_token media_items w w' :
  send_telegram_message_with_media E chat_id message bot_token media_items w = (w', Ret true) ->
  exists msgs r t,
    advance w w' (msgs ++ [r])
    /\ clock w <= t < clock w'
    /\ post_reply_at E t r = Json true.
Proof.
  intros Hrun.
  destruct (send_telegram_message_with_media_detail E chat_id message bot_token media_items w)
    as (w2 & r & media & final & tried & Hrun' & Ha & _ & _ & _ & Hcase).
  rewrite Hrun in Hrun'. injection Hrun' as <- <-.
  destruct Hcase as [(_ & -> & media' & m & t & -> & Ht & Hm)
                    |[(-> & t & Ht & Hr)|(Hr & _)]]; [| |done].
  - exists media', m, t. rewrite app_nil_r in Ha. done.
  - eexists media, _, t. split; [exact Ha|]. split; [exact Ht|].
    destruct (post_reply_at E t _) as [| |[|]]; simpl in Hr; congruence.
Qed.

Lemma delivery_success_is_acknowledged_witness :
  exists msgs r t,
    advance fresh_world
      (send_telegram_message_with_media friendly "chat" "caption" "token" None fresh_world).1
      (msgs ++ [r])
    /\ post_reply_at friendly t r = Json true.
Proof.
  destruct (delivery_success_is_acknowledged friendly "chat" "caption" "token" None fresh_world
              (send_telegram_message_with_media friendly "chat" "caption" "token" None
                 fresh_world).1 eq_refl)
    as (msgs & r & t & Ha & _ & Hr).
  exists msgs, r, t. split; [exact Ha|exact Hr].
Defined.

(** X13.  A failing photo or video send never leaves the composite
    delivery.  An exception leaves it in two ways only.  Either the
    text send did not catch it: then it was raised for the text
    message, which went out last.  Or the [type] of an item is [None]:
    then it is the exception of [None.lower()], raised in the first
    loop before any text is sent.  In both cases the media messages
    that went out before belong to items of the list, one each. *)
Theorem delivery_exceptions E chat_id message bot_token media_items w w' e :
  send_telegram_message_with_media E chat_id message bot_token media_items w = (w', Raise e) ->
  let items := default [] media_items in
  let text := SendMessage bot_token chat_id (fallback_message message items) in
  exists media tried,
    tried `sublist_of` items
    /\ Forall2 (fun media_item m =>
                  media_message_for bot_token chat_id message media_item = Some m)
         tried media
    /\ ((advance w w' (media ++ [text])
         /\ exists t, clock w <= t < clock w' /\ post_reply_at E t text = OtherException e)
        \/ (advance w w' media
            /\ e = Exn "'NoneType' object has no attribute 'lower'"
            /\ exists media_item, media_item ∈ items /\ mi_type media_item = NoneValue)).
Proof.
  intros Hrun. cbv zeta.
  destruct (send_telegram_message_with_media_detail E chat_id message bot_token media_items w)
    as (w2 & r & media & final & tried & Hrun' & Ha & _ & Hsub & Hm & Hcase).
  rewrite Hrun in Hrun'. injection Hrun' as <- <-.
  exists media, tried. split; [exact Hsub|]. split; [exact Hm|].
  destruct Hcase as [(Hr & _)|[(-> & t & Ht & Hr)|(Hr & -> & Hitem)]]; [done| |].
  - left. split; [exact Ha|]. exists t. split; [exact Ht|].
    destruct (post_reply_at E t _) as [| |[|]]; simpl in Hr; congruence.
  - right. rewrite app_nil_r in Ha. split; [exact Ha|]. split; [by injection Hr|exact Hitem].
Qed.

Lemma delivery_exceptions_witness :
  let items := [none_typed_item "https://a/2.jpg"] in
  let text := SendMessage "token" "chat" (fallback_message "caption" items) in
  let w' := (send_telegram_message_with_media friendly "chat" "caption" "token" (Some items)
               fresh_world).1 in
  exists media tried,
    tried `sublist_of` items
    /\ Forall2 (fun media_item m =>
                  media_message_for "token" "chat" "caption" media_item = Some m)
         tried media
    /\ ((advance fresh_world w' (media ++ [text])
         /\ exists t, clock fresh_world <= t < clock w'
                      /\ post_reply_at friendly t text
                         = OtherException (Exn "'NoneType' object has no attribute 'lower'"))
        \/ (advance fresh_world w' media
            /\ Exn "'NoneType' object has no attribute 'lower'"
               = Exn "'NoneType' object has no attribute 'lower'"
            /\ exists media_item, media_item ∈ items /\ mi_type media_item = NoneValue)).
Proof.
  exact (delivery_exceptions friendly "chat" "caption" "token"
           (Some [none_typed_item "https://a/2.jpg"]) fresh_world _ _ eq_refl).
Defined.

(** ** Cycle engine: what a whole cycle leaves behind *)

Section CycleProgress.

Variable E : environment.

(** One examined tweet: what it records ([ids]), how the surroundings
    answer the append of each ([replies]), how often it pauses ([p]) and
    whether it counts as a duplicate ([d]). *)
Lemma process_tweet_step tweet st :
  exists st' r ids replies p d,
    process_tweet E tweet st = (st', r)
    /\ sent_tweets st' = sent_tweets st ∪ list_to_set ids
    /\ appended (trace (the_world st')) = appended (trace (the_world st)) ++ ids
    /\ file (the_world st') = after_appends (zip replies ids) (file (the_world st))
    /\ pauses (trace (the_world st')) = pauses (trace (the_world st)) ++ replicate p 10
    /\ new_tweets_sent st' = new_tweets_sent st + length ids
    /\ tweet_count st' = tweet_count st + 1
    /\ duplicates_skipped st' = duplicates_skipped st + d
    /\ (ids = [] \/ ids = [str (id tweet)] /\ str (id tweet) ∉ sent_tweets st)
    /\ length replies = length ids
    /\ Forall (fun reply => exists t, reply = append_reply_at E t) replies
    /\ length ids <= p
    /\ p + d <= 1
    /\ (r = Ret tt -> configured E -> p + d = 1).
Proof.
  destruct (decide (str (id tweet) ∈ sent_tweets st)) as [Hdup|Hnew].
  { eexists _, _, [], [], 0, 1. split; [exact (process_tweet_duplicate E tweet st Hdup)|].
    cbn [the_world sent_tweets tweet_count new_tweets_sent duplicates_skipped emit trace file
         length replicate list_to_set zip zip_with after_appends].
    rewrite appended_app, pauses_app.
    rewrite ?app_nil_r, (right_id_L ∅ (∪)).
    repeat split; try done; try lia. by left. }
  destruct (decide (configured E)) as [Hconf|Hconf].
  2: { destruct (process_tweet_unconfigured E tweet st Hconf Hnew) as (w & Hrun & Ha).
       eexists _, _, [], [], 0, 0. split; [exact Hrun|].
       cbn [the_world sent_tweets tweet_count new_tweets_sent duplicates_skipped
            length replicate list_to_set zip zip_with after_appends].
       rewrite (advance_appended _ _ _ Ha), (advance_pauses _ _ _ Ha).
       rewrite (advance_file _ _ _ Ha), ?app_nil_r, (right_id_L ∅ (∪)).
       repeat split; try done; try lia. by left. }
  destruct (process_tweet_new_effects E tweet st Hconf Hnew) as (Hcount & Hdups & Heff).
  destruct (process_tweet E tweet st) as [st' r] eqn:Hrun. cbn [fst snd] in *.
  destruct ((delivery E tweet (the_world st)).2) as [[|]|e].
  - destruct Heff as (-> & Hs & Hn & Ha & Hst & Hp & _).
    exists st', (Ret tt), [str (id tweet)],
      [append_reply_at E (clock (delivery E tweet (the_world st)).1)], 1, 0.
    split; [done|]. split.
    { rewrite Hs. cbn [list_to_set]. by rewrite (right_id_L ∅ (∪)). }
    split; [done|]. split.
    { rewrite Hst. cbn [zip zip_with after_appends]. unfold after_append, opened.
      by destruct (append_reply_at E _). }
    split; [done|]. split; [by rewrite Hn|]. split; [done|]. split; [lia|].
    split; [by right|]. split; [done|].
    split; [constructor; [by eexists|constructor]|].
    split; [simpl; lia|]. split; [lia|done].
  - destruct Heff as (-> & Hs & Hn & Ha & Hst & Hp & _).
    exists st', (Ret tt), [], [], 1, 0. split; [done|].
    cbn [list_to_set length zip zip_with after_appends].
    rewrite ?app_nil_r, (right_id_L ∅ (∪)).
    rewrite Hst, Ha, Hs, Hn, Hp.
    repeat split; try done; try lia. by left.
  - destruct Heff as (-> & Hs & Hn & Ha & Hst & Hp & _).
    exists st', (Raise e), [], [], 0, 0. split; [done|].
    cbn [list_to_set length replicate zip zip_with after_appends].
    rewrite ?app_nil_r, (right_id_L ∅ (∪)).
    rewrite Hst, Ha, Hs, Hn, Hp, ?app_nil_r.
    repeat split; try done; try lia. by left.
Qed.

Lemma after_appends_app writes1 writes2 f :
  after_appends (writes1 ++ writes2) f = after_appends writes2 (after_appends writes1 f).
Proof.
  revert f. induction writes1 as [|[reply line] rest IH]; intros f; [done|]. apply IH.
Qed.

(** The loop over the posts a search yields: the identifiers it records
    are a duplicate-free selection of the yielded ones, in their order,
    none of them known before; the set and the appends grow by exactly
    them, and the file is what their appends leave. *)
Lemma for_each_tweet_records tweets st :
  exists st' r ids replies,
    for_each_tweet E tweets st = (st', r)
    /\ sent_tweets st' = sent_tweets st ∪ list_to_set ids
    /\ appended (trace (the_world st')) = appended (trace (the_world st)) ++ ids
    /\ file (the_world st') = after_appends (zip replies ids) (file (the_world st))
    /\ new_tweets_sent st' = new_tweets_sent st + length ids
    /\ ids `sublist_of` tweet_ids tweets
    /\ NoDup ids
    /\ (forall x, x ∈ ids -> x ∉ sent_tweets st)
    /\ length replies = length ids
    /\ Forall (fun reply => exists t, reply = append_reply_at E t) replies.
Proof.
  revert st. induction tweets as [|tweet rest IH]; intros st.
  { exists st, (Ret tt), [], []. split; [done|]. cbn [list_to_set length].
    rewrite !app_nil_r, (right_id_L ∅ (∪)).
    repeat split; try done; try lia; try constructor. intros x Hx. by apply elem_of_nil in Hx. }
  destruct (process_tweet_step tweet st)
    as (st1 & r1 & ids1 & replies1 & p & d & Hrun & Hs1 & Ha1 & Hf1 & _ & Hn1 & _ & _
        & Hids1 & Hlen1 & Hrep1 & _).
  assert (ids1 `sublist_of` [str (id tweet)]) as Hsub1.
  { destruct Hids1 as [->|[-> _]]; [apply sublist_nil_l|done]. }
  assert (forall x, x ∈ ids1 -> x ∉ sent_tweets st) as Hnew1.
  { destruct Hids1 as [->|[-> Hnew]]; intros x Hx.
    - by apply elem_of_nil in Hx.
    - apply list_elem_of_singleton in Hx as ->. exact Hnew. }
  assert (NoDup ids1) as Hnd1.
  { destruct Hids1 as [->|[-> _]]; [constructor|apply NoDup_singleton]. }
  cbn [for_each_tweet]. unfold bind at 1. rewrite Hrun.
  destruct r1 as [[]|e].
  2: { exists st1, (Raise e), ids1, replies1. split; [done|].
       split; [done|]. split; [done|]. split; [done|]. split; [done|]. split.
       { change (tweet_ids (tweet :: rest)) with ([str (id tweet)] ++ tweet_ids rest).
         rewrite <- (app_nil_r ids1). apply sublist_app; [done|apply sublist_nil_l]. }
       done. }
  destruct (IH st1) as (st2 & r2 & ids2 & replies2 & Hrun2 & Hs2 & Ha2 & Hf2 & Hn2
                        & Hsub2 & Hnd2 & Hnew2 & Hlen2 & Hrep2).
  exists st2, r2, (ids1 ++ ids2), (replies1 ++ replies2). split; [done|]. split.
  { rewrite Hs2, Hs1, list_to_set_app_L. by rewrite (assoc_L (∪)). }
  split; [by rewrite Ha2, Ha1, (assoc_L (++))|].
  split.
  { rewrite (zip_with_app _ _ _ _ _ Hlen1), after_appends_app.
    by rewrite Hf2, Hf1. }
  split; [rewrite Hn2, Hn1, length_app; lia|]. split.
  { change (tweet_ids (tweet :: rest)) with ([str (id tweet)] ++ tweet_ids rest).
    by apply sublist_app. }
  split.
  { apply NoDup_app. split; [done|]. split; [|done].
    intros x Hx1 Hx2. apply (Hnew2 x Hx2). rewrite Hs1.
    apply elem_of_union. right. by apply elem_of_list_to_set. }
  split.
  { intros x Hx. apply elem_of_app in Hx as [Hx|Hx]; [by apply Hnew1|].
    intros Hin. apply (Hnew2 x Hx). rewrite Hs1. apply elem_of_union. by left. }
  split; [rewrite !length_app; lia|]. by apply Forall_app.
Qed.

(** The counters and the pauses of the loop. *)
Lemma for_each_tweet_counts tweets st :
  exists st' r n p d,
    for_each_tweet E tweets st = (st', r)
    /\ tweet_count st' = tweet_count st + n
    /\ duplicates_skipped st' = duplicates_skipped st + d
    /\ pauses (trace (the_world st')) = pauses (trace (the_world st)) ++ replicate p 10
    /\ n <= length tweets
    /\ new_tweets_sent st' - new_tweets_sent st <= p
    /\ new_tweets_sent st <= new_tweets_sent st'
    /\ p + d <= n
    /\ (r = Ret tt -> n = length tweets /\ (configured E -> p + d = n)).
Proof.
  revert st. induction tweets as [|tweet rest IH]; intros st.
  { exists st, (Ret tt), 0, 0, 0. cbn [replicate length]. rewrite app_nil_r.
    repeat split; try done; lia. }
  destruct (process_tweet_step tweet st)
    as (st1 & r1 & ids1 & replies1 & p1 & d1 & Hrun & _ & _ & _ & Hp1 & Hn1 & Hc1 & Hd1
        & _ & _ & _ & Hl1 & Hle1 & Heq1).
  cbn [for_each_tweet]. unfold bind at 1. rewrite Hrun.
  destruct r1 as [[]|e].
  2: { exists st1, (Raise e), 1, p1, d1. cbn [length].
       repeat split; try done; lia. }
  destruct (IH st1) as (st2 & r2 & n & p2 & d2 & Hrun2 & Hc2 & Hd2 & Hp2 & Hlen & Hnp & Hmono
                        & Hle2 & Heq2).
  exists st2, r2, (1 + n), (p1 + p2), (d1 + d2). split; [done|].
  split; [lia|]. split; [lia|]. split.
  { by rewrite Hp2, Hp1, replicate_add, (assoc_L (++)). }
  cbn [length]. split; [lia|]. split; [lia|]. split; [lia|]. split; [lia|].
  intros Hr. destruct (Heq2 Hr) as [-> Hconf]. split; [lia|].
  intros Hc. specialize (Hconf Hc). specialize (Heq1 eq_refl Hc). lia.
Qed.

(** A loop over posts that are all known already only counts and
    prints. *)
Lemma for_each_tweet_all_known tweets st :
  (forall tweet, tweet ∈ tweets -> str (id tweet) ∈ sent_tweets st) ->
  exists st' l,
    for_each_tweet E tweets st = (st', Ret tt)
    /\ sent_tweets st' = sent_tweets st
    /\ file (the_world st') = file (the_world st)
    /\ clock (the_world st') = clock (the_world st)
    /\ trace (the_world st') = trace (the_world st) ++ l
    /\ Forall printed_only l
    /\ length l = length tweets
    /\ tweet_count st' = tweet_count st + length tweets
    /\ duplicates_skipped st' = duplicates_skipped st + length tweets
    /\ new_tweets_sent st' = new_tweets_sent st.
Proof.
  revert st. induction tweets as [|tweet rest IH]; intros st Hknown.
  { exists st, []. rewrite app_nil_r. cbn [length]. repeat split; try done; lia. }
  assert (str (id tweet) ∈ sent_tweets st) as Hdup
    by (apply Hknown, elem_of_cons; by left).
  cbn [for_each_tweet]. unfold bind at 1. rewrite (process_tweet_duplicate E tweet st Hdup).
  match goal with |- context [for_each_tweet E rest ?s] => destruct (IH s) as
      (st' & l & Hrun & Hs & Hst & Hc & Ht & Hl & Hlen & Hcount & Hd & Hn) end.
  { intros t Ht. cbn [sent_tweets]. apply Hknown, elem_of_cons. by right. }
  cbn [the_world sent_tweets tweet_count new_tweets_sent duplicates_skipped
       emit file clock trace] in *.
  exists st', (Stdout (LogSkippingDuplicate (id tweet)) :: l). split; [exact Hrun|].
  split; [done|]. split; [done|]. split; [done|]. split.
  { rewrite Ht, <- (assoc_L (++)). done. }
  split; [by constructor|]. cbn [length]. repeat split; lia.
Qed.

(** Without credentials the loop hands nothing to the transport, records
    nothing and never pauses; it cannot fail. *)
Lemma for_each_tweet_unconfigured tweets st :
  ~ configured E ->
  exists st',
    for_each_tweet E tweets st = (st', Ret tt)
    /\ advance (the_world st) (the_world st') []
    /\ sent_tweets st' = sent_tweets st
    /\ new_tweets_sent st' = new_tweets_sent st
    /\ tweet_count st' = tweet_count st + length tweets.
Proof.
  intros Hconf. revert st. induction tweets as [|tweet rest IH]; intros st.
  { exists st. split; [done|]. split; [apply advance_refl|]. cbn [length].
    repeat split; try done; lia. }
  cbn [for_each_tweet]. unfold bind at 1.
  destruct (decide (str (id tweet) ∈ sent_tweets st)) as [Hdup|Hnew].
  - rewrite (process_tweet_duplicate E tweet st Hdup).
    match goal with |- context [for_each_tweet E rest ?s] => destruct (IH s) as
        (st' & Hrun & Ha & Hs & Hn & Hc) end.
    cbn [the_world sent_tweets tweet_count new_tweets_sent] in *.
    exists st'. split; [exact Hrun|]. split; [by apply advance_print_l in Ha|].
    cbn [length]. repeat split; try done; lia.
  - destruct (process_tweet_unconfigured E tweet st Hconf Hnew) as (w & -> & Ha1).
    match goal with |- context [for_each_tweet E rest ?s] => destruct (IH s) as
        (st' & Hrun & Ha & Hs & Hn & Hc) end.
    cbn [the_world sent_tweets tweet_count new_tweets_sent] in *.
    exists st'. split; [exact Hrun|].
    split; [exact (advance_trans _ _ _ [] [] Ha1 Ha)|].
    cbn [length]. repeat split; try done; lia.
Qed.

End CycleProgress.

Section CycleWhole.

Variable E : environment.

(** Around its loop a cycle only prints: the set, the counters, the
    file and the clock are those the loop left. *)
Lemma perform_scraping_cycle_frame s st :
  let run := perform_scraping_cycle E s st in
  let loop := for_each_tweet E (yielded s) (searching st) in
  run.2 = Ret (new_tweets_sent loop.1)
  /\ sent_tweets run.1 = sent_tweets loop.1
  /\ tweet_count run.1 = tweet_count loop.1
  /\ new_tweets_sent run.1 = new_tweets_sent loop.1
  /\ duplicates_skipped run.1 = duplicates_skipped loop.1
  /\ file (the_world run.1) = file (the_world loop.1)
  /\ clock (the_world run.1) = clock (the_world loop.1)
  /\ exists l, trace (the_world run.1) = trace (the_world loop.1) ++ l
               /\ Forall printed_only l.
Proof.
  cbv zeta. rewrite perform_scraping_cycle_run. unfold cycle_outcome. cbv zeta.
  destruct (for_each_tweet E (yielded s) (searching st)) as [st1 r]. cbn [fst snd].
  cbn [with_world the_world sent_tweets tweet_count new_tweets_sent duplicates_skipped].
  do 5 (split; [done|]).
  destruct (match r with Raise e => Some e | Ret _ => stream_fault s end) as [e|].
  - split; [done|]. split; [done|]. eexists. cbn [emit trace].
    split; [rewrite <- (assoc_L (++)); reflexivity|]. by repeat constructor.
  - split; [done|]. split; [done|]. eexists. cbn [emit trace].
    split; [reflexivity|]. by repeat constructor.
Qed.

Lemma searching_frame st :
  sent_tweets (searching st) = sent_tweets st
  /\ tweet_count (searching st) = 0
  /\ new_tweets_sent (searching st) = 0
  /\ duplicates_skipped (searching st) = 0
  /\ file (the_world (searching st)) = file (the_world st)
  /\ clock (the_world (searching st)) = clock (the_world st)
  /\ trace (the_world (searching st)) = trace (the_world st) ++ [Stdout LogSearching].
Proof. done. Qed.

Lemma printed_only_appended l : Forall printed_only l -> appended l = [].
Proof.
  induction 1 as [|e l He _ IH]; [done|]. by destruct e.
Qed.

Lemma printed_only_pauses l : Forall printed_only l -> pauses l = [].
Proof.
  induction 1 as [|e l He _ IH]; [done|]. by destruct e.
Qed.

Lemma printed_only_sent_messages l : Forall printed_only l -> sent_messages l = [].
Proof.
  induction 1 as [|e l He _ IH]; [done|]. by destruct e.
Qed.

Lemma printed_only_net_or_log l : Forall printed_only l -> Forall net_or_log l.
Proof. intros H. eapply Forall_impl; [exact H|]. by intros []. Qed.

(** The whole cycle in terms of what it records. *)
Lemma perform_scraping_cycle_records s st :
  exists ids replies,
    let run := perform_scraping_cycle E s st in
    run.2 = Ret (length ids)
    /\ sent_tweets run.1 = sent_tweets st ∪ list_to_set ids
    /\ appended (trace (the_world run.1)) = appended (trace (the_world st)) ++ ids
    /\ file (the_world run.1) = after_appends (zip replies ids) (file (the_world st))
    /\ ids `sublist_of` tweet_ids (yielded s)
    /\ NoDup ids
    /\ (forall x, x ∈ ids -> x ∉ sent_tweets st)
    /\ length replies = length ids
    /\ Forall (fun reply => exists t, reply = append_reply_at E t) replies.
Proof.
  destruct (perform_scraping_cycle_frame s st)
    as (Hret & Hs & _ & _ & _ & Hst & _ & l & Htr & Hl).
  destruct (for_each_tweet_records E (yielded s) (searching st))
    as (st1 & r & ids & replies & Hrun & Hs1 & Ha1 & Hf1 & Hn1 & Hsub & Hnd & Hnew
        & Hlen & Hrep).
  rewrite Hrun in *. cbn [fst snd] in *.
  exists ids, replies. cbv zeta. split.
  { rewrite Hret, Hn1. done. }
  split; [by rewrite Hs, Hs1|]. split.
  { rewrite Htr, appended_app, (printed_only_appended l Hl), app_nil_r, Ha1.
    cbn [searching reset_counters with_world the_world emit trace].
    rewrite appended_app. cbn. by rewrite app_nil_r. }
  split.
  { rewrite Hst. exact Hf1. }
  done.
Qed.

(** The whole cycle in terms of its counters and pauses. *)
Lemma perform_scraping_cycle_counts s st :
  exists p,
    let run := perform_scraping_cycle E s st in
    let loop := for_each_tweet E (yielded s) (searching st) in
    pauses (trace (the_world run.1)) = pauses (trace (the_world st)) ++ replicate p 10
    /\ tweet_count run.1 <= length (yielded s)
    /\ new_tweets_sent run.1 <= p
    /\ p + duplicates_skipped run.1 <= tweet_count run.1
    /\ (loop.2 = Ret tt ->
        tweet_count run.1 = length (yielded s)
        /\ (configured E -> p + duplicates_skipped run.1 = tweet_count run.1)).
Proof.
  destruct (perform_scraping_cycle_frame s st)
    as (_ & _ & Hc & Hn & Hd & _ & _ & l & Htr & Hl).
  destruct (for_each_tweet_counts E (yielded s) (searching st))
    as (st1 & r & n & p & d & Hrun & Hc1 & Hd1 & Hp1 & Hlen & Hnp & _ & Hle & Heq).
  rewrite Hrun in *. cbn [fst snd] in *.
  destruct (searching_frame st) as (_ & Hc0 & Hn0 & Hd0 & _ & _ & Ht0).
  rewrite Hc0 in Hc1. rewrite Hd0 in Hd1. rewrite Hn0 in Hnp.
  exists p. cbv zeta. split.
  { rewrite Htr, pauses_app, (printed_only_pauses l Hl), app_nil_r, Hp1, Ht0.
    rewrite pauses_app. cbn. by rewrite app_nil_r. }
  split; [lia|]. split; [lia|]. split; [lia|].
  intros Hr. destruct (Heq Hr) as [Hn' Hconf]. split; [lia|].
  intros Hcf. specialize (Hconf Hcf). lia.
Qed.

End CycleWhole.

Lemma tweet_ids_clean tweets ids :
  ids `sublist_of` tweet_ids tweets -> Forall clean_id ids.
Proof.
  intros Hsub. apply Forall_forall. intros x Hx.
  assert (x ∈ tweet_ids tweets) as Hin by (by eapply elem_of_sublist).
  unfold tweet_ids in Hin. apply list_elem_of_fmap in Hin as (tweet & -> & _).
  apply str_clean_id.
Qed.

(** X14.  Whatever the surroundings do, a cycle returns the number of
    identifiers it recorded.  These are a selection of the identifiers
    the search yielded, in the order yielded, each at most once and none
    that was in the set when the cycle began; the set grows by exactly
    them and one append is attempted for each, in that order. *)
Theorem cycle_records_new_ids_once E s st :
  exists ids,
    let run := perform_scraping_cycle E s st in
    run.2 = Ret (length ids)
    /\ ids `sublist_of` tweet_ids (yielded s)
    /\ NoDup ids
    /\ (forall x, x ∈ ids -> x ∉ sent_tweets st)
    /\ sent_tweets run.1 = sent_tweets st ∪ list_to_set ids
    /\ appended (trace (the_world run.1)) = appended (trace (the_world st)) ++ ids.
Proof.
  destruct (perform_scraping_cycle_records E s st)
    as (ids & kept & Hret & Hs & Ha & _ & Hsub & Hnd & Hnew & _).
  exists ids. cbv zeta. done.
Qed.

Lemma append_assoc (a b c : string) : (a +:+ b) +:+ c = a +:+ b +:+ c.
Proof.
  induction a as [|x a IH]; [done|].
  change (String x ((a +:+ b) +:+ c) = String x (a +:+ b +:+ c)). by rewrite IH.
Qed.

Lemma append_nil_r (a : string) : a +:+ EmptyString = a.
Proof.
  induction a as [|x a IH]; [done|].
  change (String x (a +:+ EmptyString) = String x a). by rewrite IH.
Qed.

Lemma lines_text_rest lines rest more :
  foldr (fun line acc => line +:+ Py.nl +:+ acc) (rest +:+ more) lines
  = foldr (fun line acc => line +:+ Py.nl +:+ acc) rest lines +:+ more.
Proof.
  induction lines as [|line lines IH]; [done|].
  cbn [foldr]. by rewrite IH, !append_assoc.
Qed.

Lemma file_text_write_line line f :
  file_text (Some (write_line line f)) = file_text (Some f) +:+ line +:+ Py.nl.
Proof.
  destruct f as [lines rest]. unfold write_line, file_text. cbn [fst snd].
  rewrite foldr_app. cbn [foldr].
  rewrite append_nil_r, <- lines_text_rest. by rewrite append_assoc.
Qed.

(** An append only adds characters at the end of the file. *)
Lemma file_text_after_append reply line f :
  file_text (after_append reply line f) = file_text f +:+ written reply line.
Proof.
  assert (file_text (Some (default ([], EmptyString) f)) = file_text f) as Hopen.
  { by destruct f as [[lines rest]|]. }
  destruct reply as [| |k]; cbn [after_append written].
  - by rewrite file_text_write_line, Hopen.
  - by rewrite append_nil_r.
  - cbn [write_prefix]. destruct (k <=? String.length line)%nat.
    + rewrite <- Hopen. destruct (default ([], EmptyString) f) as [lines rest].
      cbn [file_text fst snd]. apply lines_text_rest.
    + by rewrite file_text_write_line, Hopen.
Qed.

Lemma file_text_after_appends writes f :
  file_text (after_appends writes f) = file_text f +:+ added_text writes.
Proof.
  revert f. induction writes as [|[reply line] rest IH]; intros f.
  - cbn. by rewrite append_nil_r.
  - cbn [after_appends added_text foldr fst snd].
    rewrite IH, file_text_after_append. by rewrite append_assoc.
Qed.

(** Appends that write whole lines or nothing, to a file that ends with
    a line feed: the lines of those that went through are added, and
    the file ends with a line feed again. *)
Lemma after_appends_whole_lines writes f lines :
  Forall (fun write => forall k, write.1 <> AppendFailsAfter k) writes ->
  default ([], EmptyString) f = (lines, EmptyString) ->
  default ([], EmptyString) (after_appends writes f) = (lines ++ appended_ok writes, EmptyString).
Proof.
  revert f lines. induction writes as [|[reply line] rest IH]; intros f lines Hw Hf.
  - cbn. by rewrite app_nil_r.
  - apply Forall_cons in Hw as [Hreply Hw]. cbn [fst] in Hreply.
    cbn [after_appends appended_ok omap fst snd].
    destruct reply as [| |k].
    + rewrite (IH _ (lines ++ [line]) Hw).
      * by rewrite <- (assoc_L (++)).
      * cbn [after_append default]. by rewrite Hf.
    + by apply IH.
    + by destruct (Hreply k).
Qed.

Lemma appended_ok_sublist writes : appended_ok writes `sublist_of` writes.*2.
Proof.
  induction writes as [|[reply line] rest IH]; [done|].
  cbn [appended_ok omap fmap list_fmap fst snd].
  destruct reply; [by apply sublist_skip|by apply sublist_cons|by apply sublist_cons].
Qed.

Lemma appended_ok_all writes :
  Forall (fun write => write.1 = AppendOk) writes -> appended_ok writes = writes.*2.
Proof.
  induction 1 as [|[reply line] rest Hreply _ IH]; [done|].
  cbn [fst] in Hreply. subst reply.
  change (line :: appended_ok rest = line :: rest.*2). by rewrite IH.
Qed.

Lemma zip_replies (P : append_reply -> Prop) (replies : list append_reply)
    (ids : list string) :
  Forall P replies -> Forall (fun write => P write.1) (zip replies ids).
Proof.
  intros Hrep. revert ids. induction Hrep as [|reply replies Hreply _ IH]; intros ids.
  - constructor.
  - destruct ids as [|x ids]; [constructor|]. cbn. constructor; [done|apply IH].
Qed.

Lemma file_lines_closed w lines :
  opened w = (lines, EmptyString) -> file_lines w = lines.
Proof.
  unfold opened, file_lines, store.
  destruct (file w) as [[l r]|]; cbn; intros ?; by simplify_eq.
Qed.

Lemma opened_closed w : ends_with_line_feed w -> opened w = (file_lines w, EmptyString).
Proof.
  unfold ends_with_line_feed, opened, file_lines, store.
  destruct (file w) as [[l r]|]; cbn; [|done]. by intros ->.
Qed.

(** A cycle whose appends write whole lines or nothing, on a file that
    ends with a line feed. *)
Lemma cycle_whole_lines E s st :
  appends_whole_lines E ->
  ends_with_line_feed (the_world st) ->
  exists ids replies,
    let run := perform_scraping_cycle E s st in
    sent_tweets run.1 = sent_tweets st ∪ list_to_set ids
    /\ ids `sublist_of` tweet_ids (yielded s)
    /\ NoDup ids
    /\ (forall x, x ∈ ids -> x ∉ sent_tweets st)
    /\ length replies = length ids
    /\ Forall (fun reply => exists t, reply = append_reply_at E t) replies
    /\ ends_with_line_feed (the_world run.1)
    /\ file_lines (the_world run.1)
       = file_lines (the_world st) ++ appended_ok (zip replies ids).
Proof.
  intros Hwhole Hclosed.
  destruct (perform_scraping_cycle_records E s st)
    as (ids & replies & _ & Hs & _ & Hf & Hsub & Hnd & Hnew & Hlen & Hrep).
  exists ids, replies. cbv zeta in *.
  do 6 (split; [done|]).
  assert (opened (the_world (perform_scraping_cycle E s st).1)
          = (file_lines (the_world st) ++ appended_ok (zip replies ids), EmptyString)) as Hopen.
  { unfold opened at 1. rewrite Hf. apply after_appends_whole_lines.
    - apply (zip_replies (fun reply => forall k, reply <> AppendFailsAfter k)).
      eapply Forall_impl; [exact Hrep|]. intros reply [t ->]. apply Hwhole.
    - by apply opened_closed. }
  split; [unfold ends_with_line_feed; by rewrite Hopen|].
  by apply file_lines_closed.
Qed.

(** X15.  A cycle only ever adds to the file, at its end: the text of
    the file after the cycle is the text before it, followed by what
    the appends of the recorded identifiers wrote, in the order
    recorded.  For each identifier that is the identifier and a line
    feed when the append went through, nothing when the file could not
    be opened, and the first characters of the line when the write
    broke off.  A cycle never removes or rewrites a character of the
    file, and the set never shrinks. *)
Theorem cycle_file_append_only E s st :
  exists ids replies,
    let run := perform_scraping_cycle E s st in
    file_text (file (the_world run.1))
    = file_text (file (the_world st)) +:+ added_text (zip replies ids)
    /\ length replies = length ids
    /\ Forall (fun reply => exists t, reply = append_reply_at E t) replies
    /\ appended (trace (the_world run.1)) = appended (trace (the_world st)) ++ ids
    /\ sent_tweets st ⊆ sent_tweets run.1.
Proof.
  destruct (perform_scraping_cycle_records E s st)
    as (ids & replies & _ & Hs & Ha & Hf & _ & _ & _ & Hlen & Hrep).
  exists ids, replies. cbv zeta in *.
  split; [rewrite Hf; apply file_text_after_appends|].
  split; [done|]. split; [done|]. split; [done|].
  rewrite Hs. apply union_subseteq_l.
Qed.

(** X16.  Let no append break off partway, and let the file end with a
    line feed.  If no line of the file is repeated and every line is
    in the set, in the form the loop compares, this is still so after a
    cycle, and the file ends with a line feed again: cycles sharing
    the set never write an identifier to the file twice. *)
Theorem cycle_keeps_file_duplicate_free E s st :
  appends_whole_lines E ->
  ends_with_line_feed (the_world st) ->
  NoDup (file_lines (the_world st)) ->
  (forall x, x ∈ file_lines (the_world st) -> x ∈ sent_tweets st) ->
  let run := perform_scraping_cycle E s st in
  ends_with_line_feed (the_world run.1)
  /\ NoDup (file_lines (the_world run.1))
  /\ (forall x, x ∈ file_lines (the_world run.1) -> x ∈ sent_tweets run.1).
Proof.
  intros Hwhole Hclosed Hnd Hin. cbv zeta.
  destruct (cycle_whole_lines E s st Hwhole Hclosed)
    as (ids & replies & Hs & _ & Hndi & Hnew & Hlen & _ & Hclosed' & Hf).
  cbv zeta in *. split; [exact Hclosed'|]. rewrite Hf, Hs.
  assert (appended_ok (zip replies ids) `sublist_of` ids) as Hk.
  { rewrite <- (snd_zip replies ids) at 2 by lia. apply appended_ok_sublist. }
  split.
  - apply NoDup_app. split; [done|]. split.
    + intros x Hx Hx'. apply (Hnew x); [by eapply elem_of_sublist|by apply Hin].
    + by eapply sublist_NoDup.
  - intros x Hx. apply elem_of_union. apply elem_of_app in Hx as [Hx|Hx].
    + left. by apply Hin.
    + right. apply elem_of_list_to_set. by eapply elem_of_sublist.
Qed.

Lemma cycle_keeps_file_duplicate_free_witness :
  let st := enter_cycle {["2"]} (world_with_store ["2"]) in
  let s := {| yielded := [text_tweet 1; text_tweet 2]; stream_fault := None |} in
  let run := perform_scraping_cycle friendly s st in
  ends_with_line_feed (the_world run.1) /\ NoDup (file_lines (the_world run.1)).
Proof.
  cbv zeta.
  destruct (cycle_keeps_file_duplicate_free friendly
              {| yielded := [text_tweet 1; text_tweet 2]; stream_fault := None |}
              (enter_cycle {["2"]} (world_with_store ["2"]))) as (Hclosed & Hnd & _).
  - intros t k. discriminate.
  - reflexivity.
  - apply NoDup_singleton.
  - intros x Hx. apply list_elem_of_singleton in Hx as ->.
    cbn [enter_cycle sent_tweets]. by apply elem_of_singleton_2.
  - split; [exact Hclosed|exact Hnd].
Defined.

(** X17.  When every append goes through and the file ends with a line
    feed, a cycle that starts with the file and the set in agreement
    ends with them in agreement, and with a file that ends with a line
    feed: a load after the cycle would give the set the cycle left. *)
Theorem cycle_keeps_disk_in_step E s st :
  (forall t, append_reply_at E t = AppendOk) ->
  ends_with_line_feed (the_world st) ->
  disk_ids (the_world st) = sent_tweets st ->
  let run := perform_scraping_cycle E s st in
  disk_ids (the_world run.1) = sent_tweets run.1
  /\ ends_with_line_feed (the_world run.1).
Proof.
  intros Hok Hclosed Hdisk. cbv zeta.
  assert (appends_whole_lines E) as Hwhole.
  { intros t k. by rewrite Hok. }
  destruct (cycle_whole_lines E s st Hwhole Hclosed)
    as (ids & replies & Hs & Hsub & _ & _ & Hlen & Hrep & Hclosed' & Hf).
  cbv zeta in *. split; [|exact Hclosed'].
  assert (appended_ok (zip replies ids) = ids) as Hall.
  { rewrite appended_ok_all; [apply snd_zip; lia|].
    apply (zip_replies (fun reply => reply = AppendOk)).
    eapply Forall_impl; [exact Hrep|]. intros reply [t ->]. apply Hok. }
  rewrite Hall in Hf.
  unfold disk_ids in *. rewrite Hf, loaded_ids_app, Hs, Hdisk. f_equal.
  apply loaded_ids_all_clean. by apply (tweet_ids_clean (yielded s)).
Qed.

Lemma cycle_keeps_disk_in_step_witness :
  let st := enter_cycle {["2"]} (world_with_store ["2"]) in
  let s := {| yielded := [text_tweet 1; text_tweet 2]; stream_fault := None |} in
  let run := perform_scraping_cycle friendly s st in
  disk_ids (the_world run.1) = sent_tweets run.1.
Proof.
  cbv zeta.
  refine (proj1 (cycle_keeps_disk_in_step friendly
                   {| yielded := [text_tweet 1; text_tweet 2]; stream_fault := None |}
                   (enter_cycle {["2"]} (world_with_store ["2"])) _ _ _)).
  - done.
  - reflexivity.
  - exact (loaded_ids_clean "2" (conj eq_refl eq_refl)).
Defined.

(** X18.  The counters of a cycle start from zero whatever they were
    before.  The posts examined are at most those yielded; every pause
    is one of 10 seconds; there is a pause for every identifier recorded
    and none for a duplicate, so that recorded posts, and pauses, and
    duplicates together never exceed the posts examined. *)
Theorem cycle_counters E s st :
  exists p,
    let run := perform_scraping_cycle E s st in
    pauses (trace (the_world run.1)) = pauses (trace (the_world st)) ++ replicate p 10
    /\ run.2 = Ret (new_tweets_sent run.1)
    /\ new_tweets_sent run.1 <= p
    /\ p + duplicates_skipped run.1 <= tweet_count run.1
    /\ tweet_count run.1 <= length (yielded s).
Proof.
  destruct (perform_scraping_cycle_counts E s st) as (p & Hp & Hc & Hn & Hd & _).
  destruct (perform_scraping_cycle_frame E s st) as (Hret & _ & _ & Hnew & _).
  exists p. cbv zeta in *. split; [exact Hp|]. split; [by rewrite Hret, Hnew|]. done.
Qed.

(** X19.  With the credentials set and a loop that no exception ends,
    every yielded post is examined, and each one is either skipped as a
    duplicate or followed by one pause of 10 seconds. *)
Theorem cycle_examines_every_post E s st :
  configured E ->
  (for_each_tweet E (yielded s) (searching st)).2 = Ret tt ->
  let run := perform_scraping_cycle E s st in
  tweet_count run.1 = length (yielded s)
  /\ pauses (trace (the_world run.1))
     = pauses (trace (the_world st))
       ++ replicate (length (yielded s) - duplicates_skipped run.1) 10.
Proof.
  intros Hconf Hloop. cbv zeta.
  destruct (perform_scraping_cycle_counts E s st) as (p & Hp & _ & _ & _ & Heq).
  cbv zeta in *. destruct (Heq Hloop) as [Hc Hpd]. specialize (Hpd Hconf).
  split; [done|]. rewrite Hp. do 2 f_equal. lia.
Qed.

Lemma cycle_examines_every_post_witness :
  let st := enter_cycle {["2"]} (world_with_store ["2"]) in
  let s := {| yielded := [text_tweet 1; text_tweet 2]; stream_fault := None |} in
  let run := perform_scraping_cycle friendly s st in
  tweet_count run.1 = 2.
Proof.
  cbv zeta.
  refine (proj1 (cycle_examines_every_post friendly
                   {| yielded := [text_tweet 1; text_tweet 2]; stream_fault := None |}
                   (enter_cycle {["2"]} (world_with_store ["2"])) _ _)).
  - reflexivity.
  - by vm_compute.
Defined.

(** X20.  A cycle whose search yields only posts that are already in the
    set returns 0 and does nothing but print: no probe, no message, no
    append, no pause; the set, the file and the clock stay as they were,
    and every post is counted as a duplicate. *)
Theorem cycle_of_known_posts_is_silent E s st :
  (forall tweet, tweet ∈ yielded s -> str (id tweet) ∈ sent_tweets st) ->
  let run := perform_scraping_cycle E s st in
  run.2 = Ret 0
  /\ sent_tweets run.1 = sent_tweets st
  /\ store (the_world run.1) = store (the_world st)
  /\ clock (the_world run.1) = clock (the_world st)
  /\ (exists l, trace (the_world run.1) = trace (the_world st) ++ l
                /\ Forall printed_only l)
  /\ tweet_count run.1 = length (yielded s)
  /\ duplicates_skipped run.1 = length (yielded s).
Proof.
  intros Hknown. cbv zeta.
  destruct (perform_scraping_cycle_frame E s st)
    as (Hret & Hs & Hc & _ & Hd & Hst & Hcl & l & Htr & Hl).
  destruct (for_each_tweet_all_known E (yielded s) (searching st) Hknown)
    as (st1 & l1 & Hrun & Hs1 & Hst1 & Hcl1 & Htr1 & Hl1 & _ & Hc1 & Hd1 & Hn1).
  rewrite Hrun in *. cbn [fst snd] in *.
  destruct (searching_frame st) as (Hs0 & Hc0 & Hn0 & Hd0 & Hst0 & Hcl0 & Ht0).
  split; [by rewrite Hret, Hn1, Hn0|]. split; [by rewrite Hs, Hs1|].
  split; [apply file_store; by rewrite Hst, Hst1|]. split; [by rewrite Hcl, Hcl1|]. split.
  { exists ([Stdout LogSearching] ++ l1 ++ l). split.
    - rewrite Htr, Htr1, Ht0, <- !(assoc_L (++)). done.
    - apply Forall_app. split; [by repeat constructor|]. by apply Forall_app. }
  split; [rewrite Hc, Hc1, Hc0; lia|rewrite Hd, Hd1, Hd0; lia].
Qed.

Lemma cycle_of_known_posts_is_silent_witness :
  let st := enter_cycle {["1"; "2"]} (world_with_store ["1"; "2"]) in
  let s := {| yielded := [text_tweet 2; text_tweet 1; text_tweet 2];
              stream_fault := Some (Exn "rate limit") |} in
  let run := perform_scraping_cycle friendly s st in
  run.2 = Ret 0 /\ duplicates_skipped run.1 = 3.
Proof.
  cbv zeta.
  destruct (cycle_of_known_posts_is_silent friendly
              {| yielded := [text_tweet 2; text_tweet 1; text_tweet 2];
                 stream_fault := Some (Exn "rate limit") |}
              (enter_cycle {["1"; "2"]} (world_with_store ["1"; "2"])))
    as (Hret & _ & _ & _ & _ & _ & Hd).
  - intros tweet Ht. cbn [yielded enter_cycle sent_tweets] in *.
    rewrite !elem_of_cons in Ht. destruct Ht as [->|[->|[->|Ht]]];
      [| | |by apply elem_of_nil in Ht];
      apply (bool_decide_unpack _); by vm_compute.
  - split; [exact Hret|exact Hd].
Defined.

(** X21.  With a credential left empty a cycle examines every yielded
    post, hands no message to the transport, records nothing, appends
    nothing, never pauses and returns 0; it cannot be ended by an
    exception of the delivery.  The media probes are still made. *)
Theorem cycle_without_credentials E s st :
  ~ configured E ->
  let run := perform_scraping_cycle E s st in
  run.2 = Ret 0
  /\ advance (the_world st) (the_world run.1) []
  /\ appended (trace (the_world run.1)) = appended (trace (the_world st))
  /\ pauses (trace (the_world run.1)) = pauses (trace (the_world st))
  /\ sent_tweets run.1 = sent_tweets st
  /\ tweet_count run.1 = length (yielded s)
  /\ (for_each_tweet E (yielded s) (searching st)).2 = Ret tt.
Proof.
  intros Hconf. cbv zeta.
  destruct (perform_scraping_cycle_frame E s st)
    as (Hret & Hs & Hc & _ & _ & Hst & _ & l & Htr & Hl).
  destruct (for_each_tweet_unconfigured E (yielded s) (searching st) Hconf)
    as (st1 & Hrun & Ha & Hs1 & Hn1 & Hc1).
  rewrite Hrun in *. cbn [fst snd] in *.
  assert (advance (the_world st) (the_world (perform_scraping_cycle E s st).1) []) as Hadv.
  { apply advance_print_l in Ha. destruct Ha as [[Hst1 (l1 & Htr1 & Hl1)] Hm].
    split; [split|].
    - by rewrite Hst, Hst1.
    - exists (l1 ++ l). split; [by rewrite Htr, Htr1, (assoc_L (++))|].
      apply Forall_app. split; [done|by apply printed_only_net_or_log].
    - rewrite Htr, sent_messages_app, (printed_only_sent_messages l Hl), app_nil_r. exact Hm. }
  split; [by rewrite Hret, Hn1|]. split; [exact Hadv|].
  split; [exact (advance_appended _ _ _ Hadv)|].
  split; [exact (advance_pauses _ _ _ Hadv)|].
  split; [by rewrite Hs, Hs1|]. split; [by rewrite Hc, Hc1|done].
Qed.

Lemma cycle_without_credentials_witness :
  let st := enter_cycle ∅ fresh_world in
  let s := {| yielded := [text_tweet 1; text_tweet 2]; stream_fault := None |} in
  let run := perform_scraping_cycle no_chat_id s st in
  run.2 = Ret 0 /\ tweet_count run.1 = 2.
Proof.
  cbv zeta.
  destruct (cycle_without_credentials no_chat_id
              {| yielded := [text_tweet 1; text_tweet 2]; stream_fault := None |}
              (enter_cycle ∅ fresh_world))
    as (Hret & _ & _ & _ & _ & Hc & _).
  - unfold configured. simpl. discriminate.
  - split; [exact Hret|exact Hc].
Defined.

(** ** Start of the monitoring: the set it begins with *)

Lemma loaded_ids_take k lines : loaded_ids (take k lines) ⊆ loaded_ids lines.
Proof.
  rewrite <- (take_drop k lines) at 2. rewrite loaded_ids_app. apply union_subseteq_l.
Qed.

Section Startup.

Variable E : environment.

(** A load never raises, leaves the file alone, and returns the
    identifiers of the lines it got through. *)
Lemma load_sent_tweets_run w :
  exists w' lines,
    load_sent_tweets E w = (w', Ret (loaded_ids lines))
    /\ file w' = file w
    /\ loaded_ids lines ⊆ disk_ids w
    /\ (read_fault E (clock w) = None -> loaded_ids lines = disk_ids w).
Proof.
  unfold load_sent_tweets, disk_ids, file_lines.
  destruct (store w) as [lines|] eqn:Hs; cbn [default].
  - destruct (read_fault E (clock w)) as [k|]; cbv zeta.
    + exists (emit (Stdout LogErrorReading) (tick (emit (File FileRead) w))), (take k lines).
      rewrite fold_add_line, (left_id_L ∅ (∪)). split; [done|]. split; [done|].
      split; [apply loaded_ids_take|done].
    + eexists _, lines. rewrite fold_add_line, (left_id_L ∅ (∪)).
      split; [reflexivity|]. done.
  - exists (emit (Stdout LogNoPreviousFile) w), []. done.
Qed.

Lemma file_disk_ids w w' : file w' = file w -> disk_ids w' = disk_ids w.
Proof. intros Hf. unfold disk_ids, file_lines, store. by rewrite Hf. Qed.

(** Compaction as the file sees it: the file is left alone and the set
    comes back; or the file is rewritten and holds the 8000 entries
    returned; or the rewrite broke off partway and the set comes
    back. *)
Lemma cleanup_old_sent_tweets_disk sent w :
  iteration_order_ok E ->
  (forall x, x ∈ sent -> clean_id x) ->
  exists w' kept,
    cleanup_old_sent_tweets E sent w = (w', Ret kept)
    /\ kept ⊆ sent
    /\ ((file w' = file w /\ kept = sent)
        \/ (disk_ids w' = kept /\ Z.of_nat (size kept) = 8000%Z
            /\ (10000 < Z.of_nat (size sent))%Z)
        \/ (kept = sent /\ (10000 < Z.of_nat (size sent))%Z
            /\ exists k, rewrite_reply_at E (clock w) = RewriteFailsAfter k)).
Proof.
  intros Hiter Hclean.
  destruct (Z.le_gt_cases (Z.of_nat (size sent)) 10000) as [Hle|Hgt].
  { exists w, sent. split; [|split; [done|by left]].
    unfold cleanup_old_sent_tweets.
    destruct (Z.ltb_spec 10000 (Z.of_nat (size sent))); [lia|done]. }
  destruct (keys_or_error E sent) as [Hkeys|(x & Hx & Hnone)].
  2:{ rewrite (cleanup_key_error E sent w x Hiter Hgt Hx Hnone).
      eexists _, sent. split; [reflexivity|]. split; [done|]. by left. }
  rewrite (cleanup_large E sent w Hiter Hgt Hkeys). cbv zeta.
  set (kept := list_to_set (Py.last_n 8000%Z (Py.sorted (key_value E) (set_iter E sent)))
               : gset string).
  pose proof (kept_subseteq E (key_value E) sent Hiter) as Hsub. fold kept in Hsub.
  assert (loaded_ids (set_iter E kept) = kept) as Hdisk.
  { rewrite loaded_ids_all_clean.
    - rewrite (Hiter kept). apply list_to_set_elements_L.
    - apply Forall_forall. intros x Hx. apply Hclean, Hsub.
      rewrite (Hiter kept) in Hx. by apply elem_of_elements in Hx. }
  destruct (rewrite_reply_at E (clock w)) as [| |k].
  - eexists _, kept. split; [reflexivity|]. split; [exact Hsub|]. right. left.
    split; [exact Hdisk|]. split; [by apply kept_size|exact Hgt].
  - eexists _, sent. split; [reflexivity|]. split; [done|]. by left.
  - eexists _, sent. split; [reflexivity|]. split; [done|]. right. right.
    split; [done|]. split; [exact Hgt|by exists k].
Qed.

Lemma initial_sent_tweets_run w :
  iteration_order_ok E ->
  exists w' lines kept,
    initial_sent_tweets E w = (w', Ret kept)
    /\ loaded_ids lines ⊆ disk_ids w
    /\ (read_fault E (clock w) = None -> loaded_ids lines = disk_ids w)
    /\ kept ⊆ loaded_ids lines
    /\ ((file w' = file w /\ kept = loaded_ids lines)
        \/ (disk_ids w' = kept /\ Z.of_nat (size kept) = 8000%Z
            /\ (10000 < Z.of_nat (size (loaded_ids lines)))%Z)
        \/ (kept = loaded_ids lines /\ (10000 < Z.of_nat (size kept))%Z
            /\ exists t k, rewrite_reply_at E t = RewriteFailsAfter k)).
Proof.
  intros Hiter. unfold initial_sent_tweets.
  destruct (load_sent_tweets_run w) as (w1 & lines & Hload & Hst & Hsub & Hread).
  rewrite (bind_ret _ _ _ _ _ Hload).
  destruct (cleanup_old_sent_tweets_disk (loaded_ids lines) w1 Hiter)
    as (w' & kept & Hrun & Hk & Hcase).
  { intros x. apply loaded_ids_are_clean. }
  exists w', lines, kept. split; [exact Hrun|]. split; [exact Hsub|]. split; [exact Hread|].
  split; [exact Hk|].
  destruct Hcase as [[Hd ->]|[(Hd & Hs & Hgt)|(-> & Hs & k & Hrw)]].
  - left. split; [|done]. by rewrite Hd.
  - right. by left.
  - right. right. split; [done|]. split; [done|]. by exists (clock w1), k.
Qed.

End Startup.

(** X22.  The start of the monitoring never raises and never invents an
    identifier: the set it begins with holds only stripped, non-empty
    lines of the file.  The file is left as it was when it holds at
    most 10000 identifiers; and unless a rewrite of the file breaks off
    partway, the file afterwards holds no identifier it did not hold
    before. *)
Theorem initial_sent_tweets_from_disk E w :
  iteration_order_ok E ->
  exists w' sent,
    initial_sent_tweets E w = (w', Ret sent)
    /\ sent ⊆ disk_ids w
    /\ (forall x, x ∈ sent -> clean_id x)
    /\ ((Z.of_nat (size (disk_ids w)) <= 10000)%Z -> file w' = file w)
    /\ ((forall t k, rewrite_reply_at E t <> RewriteFailsAfter k) ->
        disk_ids w' ⊆ disk_ids w).
Proof.
  intros Hiter.
  destruct (initial_sent_tweets_run E w Hiter)
    as (w' & lines & kept & Hrun & Hsub & _ & Hk & Hcase).
  exists w', kept. split; [exact Hrun|]. split; [by transitivity (loaded_ids lines)|].
  split; [intros x Hx; apply (loaded_ids_are_clean lines), Hk, Hx|].
  pose proof (subseteq_size _ _ Hsub) as Hsize.
  split.
  - intros Hsmall. destruct Hcase as [[Hf _]|[(_ & _ & Hgt)|(-> & Hgt & _)]]; [done|lia|lia].
  - intros Hwhole. destruct Hcase as [[Hf _]|[(-> & _)|(_ & _ & t & k & Hrw)]].
    + by rewrite (file_disk_ids _ _ Hf).
    + by transitivity (loaded_ids lines).
    + by destruct (Hwhole t k).
Qed.

Lemma initial_sent_tweets_from_disk_witness :
  exists w' sent,
    initial_sent_tweets friendly (world_with_store [" 7 "; "8"]) = (w', Ret sent)
    /\ sent ⊆ disk_ids (world_with_store [" 7 "; "8"]).
Proof.
  destruct (initial_sent_tweets_from_disk friendly (world_with_store [" 7 "; "8"])
              friendly_iteration_ok)
    as (w' & sent & Hrun & Hsub & _).
  exists w', sent. split; [exact Hrun|exact Hsub].
Defined.

(** X23.  When the file is read to its end and no rewrite of the file
    breaks off partway, the monitoring starts with exactly the
    identifiers the file holds afterwards, so nothing on file is
    delivered again.  That set is everything the file held before, or
    it has 8000 entries. *)
Theorem initial_sent_tweets_covers_disk E w :
  iteration_order_ok E ->
  read_fault E (clock w) = None ->
  (forall t k, rewrite_reply_at E t <> RewriteFailsAfter k) ->
  exists w' sent,
    initial_sent_tweets E w = (w', Ret sent)
    /\ disk_ids w' = sent
    /\ (sent = disk_ids w \/ Z.of_nat (size sent) = 8000%Z).
Proof.
  intros Hiter Hread Hwhole.
  destruct (initial_sent_tweets_run E w Hiter)
    as (w' & lines & kept & Hrun & _ & Heq & Hk & Hcase).
  specialize (Heq Hread). rewrite Heq in *.
  exists w', kept. split; [exact Hrun|].
  destruct Hcase as [[Hf ->]|[(Hd & Hs & _)|(_ & _ & t & k & Hrw)]].
  - split; [by apply file_disk_ids|by left].
  - split; [exact Hd|by right].
  - by destruct (Hwhole t k).
Qed.

Lemma initial_sent_tweets_covers_disk_witness :
  exists w' sent,
    initial_sent_tweets friendly (world_with_store [" 7 "; "8"]) = (w', Ret sent)
    /\ disk_ids w' = sent.
Proof.
  destruct (initial_sent_tweets_covers_disk friendly (world_with_store [" 7 "; "8"])
              friendly_iteration_ok eq_refl)
    as (w' & sent & Hrun & Hsub & _).
  - intros t k. discriminate.
  - exists w', sent. split; [exact Hrun|exact Hsub].
Defined.
